(** * 4-in-a-Row: grid engine, heuristic opponent and session registry

    A shallow embedding of the Go package [game] (board.go, bot.go,
    manager.go) and the properties of its specification.

    Conventions of the embedding:
    - Go [int] values are modelled as [Z]; the only arithmetic the package
      performs on them is the stepping of the scan coordinates, written
      with the 64-bit wrap-around ([add64], [sub64]);
    - [Board] is the array type [[Rows][Columns]int]: a product of six
      lines of seven cells, so that every value of the Rocq type is a
      value of the Go type and conversely;
    - a method with a pointer receiver returns the new contents of its
      receiver next to its Go results;
    - [time.Now()] and [uuid.NewString()] are inputs of the operations;
    - Go maps are [gmap]s; where the code ranges over a map and the
      result depends on the iteration order, the choice is an oracle
      argument constrained by what the loop can return. *)

From Stdlib Require Import ZArith Lia Bool.
From stdpp Require Import base gmap strings list.

Local Open Scope Z_scope.

(** ** board.go: constants and errors *)

Definition Columns : Z := 7.
Definition Rows : Z := 6.

Definition CellEmpty : Z := 0.
Definition CellP1 : Z := 1.
Definition CellP2 : Z := 2.

Inductive GameError : Set :=
| ErrColumnFull
| ErrInvalidTurn
| ErrInvalidCol
| ErrGameFinished.

#[global] Instance GameError_eq_dec : EqDecision GameError.
Proof. solve_decision. Defined.

(** ** 64-bit integer arithmetic of the scan coordinates *)

Definition wrap64 (z : Z) : Z := (z + 2 ^ 63) mod 2 ^ 64 - 2 ^ 63.
Definition add64 (a b : Z) : Z := wrap64 (a + b).
Definition sub64 (a b : Z) : Z := wrap64 (a - b).

(** ** The grid: [type Board [Rows][Columns]int] *)

Record Line : Set := mkLine
  { cell0 : Z; cell1 : Z; cell2 : Z; cell3 : Z; cell4 : Z; cell5 : Z; cell6 : Z }.

Record Board : Set := mkBoard
  { row0 : Line; row1 : Line; row2 : Line; row3 : Line; row4 : Line; row5 : Line }.

#[global] Instance Line_eq_dec : EqDecision Line.
Proof. solve_decision. Defined.

#[global] Instance Board_eq_dec : EqDecision Board.
Proof. solve_decision. Defined.

Definition zeroLine : Line := mkLine 0 0 0 0 0 0 0.

(** The zero value of [Board], i.e. the empty grid. *)
Definition zeroBoard : Board :=
  mkBoard zeroLine zeroLine zeroLine zeroLine zeroLine zeroLine.

(** [l[c]]; every index expression of the package is guarded by a bounds
    test, the default branch is never reached by the code. *)
Definition lineGet (l : Line) (c : Z) : Z :=
  match c with
  | 0 => cell0 l | 1 => cell1 l | 2 => cell2 l | 3 => cell3 l
  | 4 => cell4 l | 5 => cell5 l | 6 => cell6 l
  | _ => 0
  end.

(** [l[c] = v] *)
Definition lineSet (l : Line) (c v : Z) : Line :=
  match c with
  | 0 => mkLine v (cell1 l) (cell2 l) (cell3 l) (cell4 l) (cell5 l) (cell6 l)
  | 1 => mkLine (cell0 l) v (cell2 l) (cell3 l) (cell4 l) (cell5 l) (cell6 l)
  | 2 => mkLine (cell0 l) (cell1 l) v (cell3 l) (cell4 l) (cell5 l) (cell6 l)
  | 3 => mkLine (cell0 l) (cell1 l) (cell2 l) v (cell4 l) (cell5 l) (cell6 l)
  | 4 => mkLine (cell0 l) (cell1 l) (cell2 l) (cell3 l) v (cell5 l) (cell6 l)
  | 5 => mkLine (cell0 l) (cell1 l) (cell2 l) (cell3 l) (cell4 l) v (cell6 l)
  | 6 => mkLine (cell0 l) (cell1 l) (cell2 l) (cell3 l) (cell4 l) (cell5 l) v
  | _ => l
  end.

(** [b[r]] *)
Definition boardLine (b : Board) (r : Z) : Line :=
  match r with
  | 0 => row0 b | 1 => row1 b | 2 => row2 b
  | 3 => row3 b | 4 => row4 b | 5 => row5 b
  | _ => zeroLine
  end.

(** [b[r][c]] *)
Definition get (b : Board) (r c : Z) : Z := lineGet (boardLine b r) c.

(** [b[r][c] = v] *)
Definition set (b : Board) (r c v : Z) : Board :=
  match r with
  | 0 => mkBoard (lineSet (row0 b) c v) (row1 b) (row2 b) (row3 b) (row4 b) (row5 b)
  | 1 => mkBoard (row0 b) (lineSet (row1 b) c v) (row2 b) (row3 b) (row4 b) (row5 b)
  | 2 => mkBoard (row0 b) (row1 b) (lineSet (row2 b) c v) (row3 b) (row4 b) (row5 b)
  | 3 => mkBoard (row0 b) (row1 b) (row2 b) (lineSet (row3 b) c v) (row4 b) (row5 b)
  | 4 => mkBoard (row0 b) (row1 b) (row2 b) (row3 b) (lineSet (row4 b) c v) (row5 b)
  | 5 => mkBoard (row0 b) (row1 b) (row2 b) (row3 b) (row4 b) (lineSet (row5 b) c v)
  | _ => b
  end.

(** A grid given row by row, top row first. *)
Definition lineOf (l : list Z) : Line :=
  mkLine (nth 0 l 0) (nth 1 l 0) (nth 2 l 0) (nth 3 l 0)
         (nth 4 l 0) (nth 5 l 0) (nth 6 l 0).

Definition boardOf (rows : list (list Z)) : Board :=
  mkBoard (lineOf (nth 0 rows [])) (lineOf (nth 1 rows []))
          (lineOf (nth 2 rows [])) (lineOf (nth 3 rows []))
          (lineOf (nth 4 rows [])) (lineOf (nth 5 rows [])).

(** ** board.go: [MoveResult] *)

Module MoveResult.
Record t : Set := mk
  { Board : Board; Winner : Z; IsDraw : bool; Winning : list (Z * Z) }.
(** [MoveResult{}] *)
Definition zero : t := mk zeroBoard 0 false [].
End MoveResult.

(** ** board.go: [winningCoords], [evaluate], [ApplyMove], [CopyBoard] *)

Definition inBounds (r c : Z) : bool :=
  (0 <=? r) && (r <? Rows) && (0 <=? c) && (c <? Columns).

(** The closure [check] of [winningCoords]: one iteration of its [for]
    loop per unit of fuel.  [coords] is the captured slice. *)
Fixpoint check (fuel : nat) (board : Board) (player dx dy : Z)
    (r c : Z) (coords : list (Z * Z)) : list (Z * Z) :=
  match fuel with
  | O => coords
  | S fuel' =>
      if inBounds r c then
        if negb (get board r c =? player) then coords
        else check fuel' board player dx dy (add64 r dx) (add64 c dy)
                   (coords ++ [(r, c)])
      else coords
  end.

(** Enough iterations for every scan that moves: a scan leaves the grid
    after at most [Columns] cells (see [check_fuel_irrelevant]). *)
Definition scanFuel : nat := 8.

Definition winningCoords (board : Board) (row col player dx dy : Z)
    : list (Z * Z) :=
  let coords := [(row, col)] in
  let coords :=
    check scanFuel board player dx dy (add64 row dx) (add64 col dy) coords in
  let coords :=
    check scanFuel board player dx dy (sub64 row dx) (sub64 col dy) coords in
  if 4 <=? Z.of_nat (length coords) then coords else [].

Definition directions : list (Z * Z) := [(1, 0); (0, 1); (1, 1); (1, -1)].

(** The [for _, d := range directions] loop of [evaluate]. *)
Fixpoint evaluate_directions (ds : list (Z * Z)) (board : Board)
    (row col player : Z) : option (list (Z * Z)) :=
  match ds with
  | [] => None
  | d :: ds' =>
      let coords := winningCoords board row col player (fst d) (snd d) in
      if 4 <=? Z.of_nat (length coords) then Some coords
      else evaluate_directions ds' board row col player
  end.

(** The [isDraw] loop of [evaluate]. *)
Fixpoint evaluate_isDraw (cols : list Z) (board : Board) : bool :=
  match cols with
  | [] => true
  | c :: cols' =>
      if get board 0 c =? CellEmpty then false
      else evaluate_isDraw cols' board
  end.

Definition evaluate (board : Board) (row col player : Z) : MoveResult.t :=
  match evaluate_directions directions board row col player with
  | Some coords => MoveResult.mk board player false coords
  | None =>
      MoveResult.mk board 0 (evaluate_isDraw (seqZ 0 Columns) board) []
  end.

(** The row loop of [ApplyMove], from row [n - 1] down to row 0. *)
Fixpoint ApplyMove_rows (n : nat) (b : Board) (col player : Z)
    : Board * MoveResult.t * option GameError :=
  match n with
  | O => (b, MoveResult.zero, Some ErrColumnFull)
  | S n' =>
      let row := Z.of_nat n' in
      if get b row col =? CellEmpty then
        let b' := set b row col player in
        (b', evaluate b' row col player, None)
      else ApplyMove_rows n' b col player
  end.

(** [func (b *Board) ApplyMove(col, player)]: the first component is the
    receiver [*b] after the call. *)
Definition ApplyMove (b : Board) (col player : Z)
    : Board * MoveResult.t * option GameError :=
  if (col <? 0) || (col >=? Columns) then
    (b, MoveResult.zero, Some ErrInvalidCol)
  else ApplyMove_rows (Z.to_nat Rows) b col player.

Definition CopyBoard (src : Board) : Board :=
  fold_left
    (fun dest r =>
       fold_left (fun dest c => set dest r c (get src r c))
                 (seqZ 0 Columns) dest)
    (seqZ 0 Rows) zeroBoard.

(** ** bot.go *)

Module Bot.
Record t : Set := mk { Player : Z }.
End Bot.

Definition NewBot (player : Z) : Bot.t := Bot.mk player.

Definition canPlay (board : Board) (col : Z) : bool :=
  get board 0 col =? CellEmpty.

(** The column loop of [findImmediate]. *)
Fixpoint findImmediate_cols (cols : list Z) (board : Board) (player : Z)
    : Z * bool :=
  match cols with
  | [] => (-1, false)
  | col :: cols' =>
      if negb (canPlay board col) then findImmediate_cols cols' board player
      else
        let tmp := CopyBoard board in
        let '(_, res, _) := ApplyMove tmp col player in
        if MoveResult.Winner res =? player then (col, true)
        else findImmediate_cols cols' board player
  end.

Definition findImmediate (board : Board) (player : Z) : Z * bool :=
  findImmediate_cols (seqZ 0 Columns) board player.

Definition preferred : list Z := [3; 2; 4; 1; 5; 0; 6].

(** The two [canPlay] loops of [ChooseMove]. *)
Fixpoint firstPlayable (cols : list Z) (board : Board) : option Z :=
  match cols with
  | [] => None
  | col :: cols' =>
      if canPlay board col then Some col else firstPlayable cols' board
  end.

(** The mark [ChooseMove] blocks. *)
Definition opponentOf (player : Z) : Z :=
  if player =? CellP1 then CellP2 else CellP1.

(** [func (b *Bot) ChooseMove(board Board) int].  The call to [rand.Seed]
    has no bearing on the result. *)
Definition ChooseMove (b : Bot.t) (board : Board) : Z :=
  match findImmediate board (Bot.Player b) with
  | (move, true) => move
  | (_, false) =>
      let opponent := opponentOf (Bot.Player b) in
      match findImmediate board opponent with
      | (move, true) => move
      | (_, false) =>
          match firstPlayable preferred board with
          | Some col => col
          | None =>
              match firstPlayable (seqZ 0 Columns) board with
              | Some col => col
              | None => 0
              end
          end
      end
  end.

(** A sequence of moves played from a grid, marks alternating from
    [player]; the outcome of the last call is returned. *)
Fixpoint playMoves (b : Board) (player : Z) (cols : list Z)
    : Board * MoveResult.t * option GameError :=
  match cols with
  | [] => (b, MoveResult.zero, None)
  | [col] => ApplyMove b col player
  | col :: cols' =>
      let '(b', _, _) := ApplyMove b col player in
      playMoves b' (opponentOf player) cols'
  end.

(** ** manager.go: sessions, participants and the registry *)

Definition StatusWaiting : string := "waiting".
Definition StatusActive : string := "active".
Definition StatusFinished : string := "finished".

(** Instants and durations in nanoseconds.  [time.Time.Sub] saturates at
    the bounds of [time.Duration]. *)
Definition maxDuration : Z := 2 ^ 63 - 1.
Definition minDuration : Z := - 2 ^ 63.

Definition time_Sub (t u : Z) : Z :=
  if t - u >? maxDuration then maxDuration
  else if t - u <? minDuration then minDuration
  else t - u.

Module Player.
Record t : Set := mk { Username : string; Slot : Z; IsBot : bool }.
End Player.

Module GameState.
Record t : Type := mk
  { ID : string;
    Board : Board;
    Status : string;
    Winner : string;
    StartedAt : Z;
    EndedAt : Z;
    Turn : Z;
    LastMoveAt : Z;
    Players : gmap string Player.t;
    Bot : option Bot.t }.
End GameState.

Module Move.
Record t : Set := mk { Username : string; GameID : string; Column : Z }.
End Move.

(** [onFinish] records whether a callback is installed (it is [nil]
    otherwise); the calls [go m.onFinish(g)] an operation makes are
    returned as a list of [FinishCall]s: the key of the session in
    [games] and the session handed to the callback. *)
Module Manager.
Record t : Type := mk
  { waiting : option Player.t;
    games : gmap string GameState.t;
    userToGame : gmap string string;
    reconnectAfter : Z;
    onFinish : bool }.
End Manager.

Abbreviation FinishCall := (string * GameState.t)%type.

(** Field updates through a [*GameState]. *)
Definition withBoard (g : GameState.t) (b : Board) : GameState.t :=
  GameState.mk (GameState.ID g) b (GameState.Status g) (GameState.Winner g)
    (GameState.StartedAt g) (GameState.EndedAt g) (GameState.Turn g)
    (GameState.LastMoveAt g) (GameState.Players g) (GameState.Bot g).

Definition withStatus (g : GameState.t) (s : string) : GameState.t :=
  GameState.mk (GameState.ID g) (GameState.Board g) s (GameState.Winner g)
    (GameState.StartedAt g) (GameState.EndedAt g) (GameState.Turn g)
    (GameState.LastMoveAt g) (GameState.Players g) (GameState.Bot g).

Definition withWinner (g : GameState.t) (w : string) : GameState.t :=
  GameState.mk (GameState.ID g) (GameState.Board g) (GameState.Status g) w
    (GameState.StartedAt g) (GameState.EndedAt g) (GameState.Turn g)
    (GameState.LastMoveAt g) (GameState.Players g) (GameState.Bot g).

Definition withEndedAt (g : GameState.t) (t : Z) : GameState.t :=
  GameState.mk (GameState.ID g) (GameState.Board g) (GameState.Status g)
    (GameState.Winner g) (GameState.StartedAt g) t (GameState.Turn g)
    (GameState.LastMoveAt g) (GameState.Players g) (GameState.Bot g).

Definition withTurn (g : GameState.t) (turn : Z) : GameState.t :=
  GameState.mk (GameState.ID g) (GameState.Board g) (GameState.Status g)
    (GameState.Winner g) (GameState.StartedAt g) (GameState.EndedAt g) turn
    (GameState.LastMoveAt g) (GameState.Players g) (GameState.Bot g).

Definition withLastMoveAt (g : GameState.t) (t : Z) : GameState.t :=
  GameState.mk (GameState.ID g) (GameState.Board g) (GameState.Status g)
    (GameState.Winner g) (GameState.StartedAt g) (GameState.EndedAt g)
    (GameState.Turn g) t (GameState.Players g) (GameState.Bot g).

(** Field updates of the registry. *)
Definition withWaiting (m : Manager.t) (w : option Player.t) : Manager.t :=
  Manager.mk w (Manager.games m) (Manager.userToGame m)
    (Manager.reconnectAfter m) (Manager.onFinish m).

Definition withGames (m : Manager.t) (gs : gmap string GameState.t)
    : Manager.t :=
  Manager.mk (Manager.waiting m) gs (Manager.userToGame m)
    (Manager.reconnectAfter m) (Manager.onFinish m).

Definition withUserToGame (m : Manager.t) (u : gmap string string)
    : Manager.t :=
  Manager.mk (Manager.waiting m) (Manager.games m) u
    (Manager.reconnectAfter m) (Manager.onFinish m).

Definition NewManager (reconnectWindow : Z) (onFinish : bool) : Manager.t :=
  Manager.mk None ∅ ∅ reconnectWindow onFinish.

Definition isFinished (g : GameState.t) : bool :=
  bool_decide (GameState.Status g = StatusFinished).

(** The test opening [AssignPlayer] and [StartBotGame]: the session
    [username] is mapped to, when it exists and is not finished. *)
Definition rejoinGame (m : Manager.t) (username : string)
    : option GameState.t :=
  match Manager.userToGame m !! username with
  | Some gid =>
      match Manager.games m !! gid with
      | Some g => if negb (isFinished g) then Some g else None
      | None => None
      end
  | None => None
  end.

(** [AssignPlayer]; [gid] is the value of [uuid.NewString()], [tStart] and
    [tLast] the two readings of the clock.  Returns the registry and
    [(session, participant, isWaiting)]. *)
Definition AssignPlayer (gid : string) (tStart tLast : Z) (username : string)
    (m : Manager.t)
    : Manager.t * (option GameState.t * option Player.t * bool) :=
  match rejoinGame m username with
  | Some g => (m, (Some g, GameState.Players g !! username, false))
  | None =>
      let player := Player.mk username CellP1 false in
      match Manager.waiting m with
      | None => (withWaiting m (Some player), (None, Some player, true))
      | Some opponent =>
          let m := withWaiting m None in
          let players : gmap string Player.t :=
            <[Player.Username player := Player.mk username CellP2 false]>
              (<[Player.Username opponent := opponent]> ∅) in
          let game :=
            GameState.mk gid zeroBoard StatusActive EmptyString tStart 0 CellP1 tLast
              players None in
          let m := withGames m (<[GameState.ID game := game]> (Manager.games m)) in
          let m :=
            withUserToGame m
              (<[Player.Username player := GameState.ID game]>
                 (Manager.userToGame m)) in
          let m :=
            withUserToGame m
              (<[Player.Username opponent := GameState.ID game]>
                 (Manager.userToGame m)) in
          (m, (Some game, GameState.Players game !! username, false))
      end
  end.

Definition StartBotGame (gid : string) (tStart tLast : Z) (human : string)
    (m : Manager.t) : Manager.t * GameState.t :=
  match rejoinGame m human with
  | Some g => (m, g)
  | None =>
      let humanPlayer := Player.mk human CellP1 false in
      let bot := NewBot CellP2 in
      let players : gmap string Player.t :=
        <["bot" := Player.mk "bot" CellP2 true]>
          (<[human := humanPlayer]> ∅) in
      let game :=
        GameState.mk gid zeroBoard StatusActive EmptyString tStart 0 CellP1 tLast
          players (Some bot) in
      let m := withGames m (<[GameState.ID game := game]> (Manager.games m)) in
      let m :=
        withUserToGame m (<[human := GameState.ID game]> (Manager.userToGame m)) in
      (m, game)
  end.

(** The calls of the callback made when a session finishes. *)
Definition fireOnFinish (m : Manager.t) (key : string) (g : GameState.t)
    : list FinishCall :=
  if Manager.onFinish m then [(key, g)] else [].

(** [HandleMove]; [tLast] and [tEnd] are the readings of the clock.  The
    session is reached through a pointer: the grid engine writes into
    [game.Board] in place, before the error test. *)
Definition HandleMove (tLast tEnd : Z) (move : Move.t) (m : Manager.t)
    : Manager.t * (MoveResult.t * option GameState.t * option GameError)
      * list FinishCall :=
  match Manager.games m !! Move.GameID move with
  | None => (m, (MoveResult.zero, None, Some ErrInvalidTurn), [])
  | Some game =>
      if isFinished game then
        (m, (MoveResult.zero, Some game, Some ErrGameFinished), [])
      else
        match GameState.Players game !! Move.Username move with
        | None => (m, (MoveResult.zero, Some game, Some ErrInvalidTurn), [])
        | Some player =>
            if negb (GameState.Turn game =? Player.Slot player) then
              (m, (MoveResult.zero, Some game, Some ErrInvalidTurn), [])
            else
              let '(b', res, err) :=
                ApplyMove (GameState.Board game) (Move.Column move)
                          (Player.Slot player) in
              let game := withBoard game b' in
              let store g := withGames m (<[Move.GameID move := g]> (Manager.games m)) in
              match err with
              | Some e => (store game, (MoveResult.zero, Some game, Some e), [])
              | None =>
                  let game := withLastMoveAt game tLast in
                  if negb (MoveResult.Winner res =? 0) then
                    let game := withStatus game StatusFinished in
                    let game := withWinner game (Move.Username move) in
                    let game := withEndedAt game tEnd in
                    (store game, (res, Some game, None),
                     fireOnFinish m (Move.GameID move) game)
                  else if MoveResult.IsDraw res then
                    let game := withStatus game StatusFinished in
                    let game := withEndedAt game tEnd in
                    (store game, (res, Some game, None),
                     fireOnFinish m (Move.GameID move) game)
                  else
                    let game :=
                      if GameState.Turn game =? CellP1 then withTurn game CellP2
                      else withTurn game CellP1 in
                    (store game, (res, Some game, None), [])
              end
        end
  end.

Definition Abandon (username : string) (m : Manager.t) : Manager.t :=
  let m := withUserToGame m (delete username (Manager.userToGame m)) in
  match Manager.waiting m with
  | Some w =>
      if bool_decide (Player.Username w = username) then withWaiting m None
      else m
  | None => m
  end.

Definition MarkDisconnected (now : Z) (username : string) (m : Manager.t)
    : Manager.t :=
  match Manager.userToGame m !! username with
  | Some id =>
      match Manager.games m !! id with
      | Some g => withGames m (<[id := withLastMoveAt g now]> (Manager.games m))
      | None => m
      end
  | None => m
  end.

(** What [findRemainingPlayer] can return: the key of a participant that
    is not algorithmic, whichever the map iteration meets first, and
    ["bot"] when the loop finds none. *)
Definition findRemainingPlayer_returns (g : GameState.t) (name : string)
    : Prop :=
  (∃ p, GameState.Players g !! name = Some p ∧ Player.IsBot p = false)
  ∨ ((∀ n p, GameState.Players g !! n = Some p → Player.IsBot p = true)
     ∧ name = "bot").

(** [findRemainingPlayer] under one iteration order, that of the keys. *)
Definition findRemainingPlayer (g : GameState.t) : string :=
  match filter (λ kv, Player.IsBot (snd kv) = false)
               (map_to_list (GameState.Players g)) with
  | kv :: _ => fst kv
  | [] => "bot"
  end.

(** The test of the sweep and the forfeit it applies; [pick] stands for
    [findRemainingPlayer]. *)
Definition isStale (m : Manager.t) (now : Z) (g : GameState.t) : bool :=
  negb (isFinished g)
  && (time_Sub now (GameState.LastMoveAt g) >? Manager.reconnectAfter m).

Definition forfeit (pick : GameState.t → string) (now : Z) (g : GameState.t)
    : GameState.t :=
  let g1 := withStatus g StatusFinished in
  let g2 := withWinner g1 (pick g1) in
  withEndedAt g2 now.

(** [SweepDisconnects]: the body of the loop acts on one session at a
    time, so the sessions are swept pointwise; the callback is called
    once for each session forfeited. *)
Definition SweepDisconnects (pick : GameState.t → string) (now : Z)
    (m : Manager.t) : Manager.t * list FinishCall :=
  let sweep g := if isStale m now g then forfeit pick now g else g in
  let stale := filter (λ kg, isStale m now (snd kg) = true)
                      (map_to_list (Manager.games m)) in
  (withGames m (sweep <$> Manager.games m),
   if Manager.onFinish m
   then (λ kg : string * GameState.t, (fst kg, forfeit pick now (snd kg))) <$> stale
   else []).

(** The registry states a client of the package can observe: the fields
    of [Manager] are unexported, a registry is built by [NewManager] and
    changed by the exported operations only. *)
Inductive reachable : Manager.t → Prop :=
| reach_NewManager w f : reachable (NewManager w f)
| reach_AssignPlayer gid t1 t2 u m :
    reachable m → reachable (fst (AssignPlayer gid t1 t2 u m))
| reach_StartBotGame gid t1 t2 u m :
    reachable m → reachable (fst (StartBotGame gid t1 t2 u m))
| reach_HandleMove t1 t2 mv m :
    reachable m → reachable (fst (fst (HandleMove t1 t2 mv m)))
| reach_Abandon u m : reachable m → reachable (Abandon u m)
| reach_MarkDisconnected now u m :
    reachable m → reachable (MarkDisconnected now u m)
| reach_SweepDisconnects pick now m :
    (∀ g, findRemainingPlayer_returns g (pick g)) →
    reachable m → reachable (fst (SweepDisconnects pick now m)).

(** The invariant of the specification: the turn mark of a session is the
    mark of one of its participants. *)
Definition turnNamesParticipant (g : GameState.t) : Prop :=
  ∃ name p, GameState.Players g !! name = Some p
            ∧ Player.Slot p = GameState.Turn g.

(** ** Vocabulary of the grid properties *)

Definition columnFull (b : Board) (col : Z) : Prop :=
  ∀ r, 0 <= r < Rows → get b r col ≠ CellEmpty.

(** [row] is the lowest empty row of column [col]. *)
Definition lowestEmpty (b : Board) (col row : Z) : Prop :=
  0 <= row < Rows ∧ get b row col = CellEmpty
  ∧ ∀ r, row < r < Rows → get b r col ≠ CellEmpty.

(** Grids in which no disc floats above an empty cell. *)
Definition settled (b : Board) : Prop :=
  ∀ r r' c, 0 <= r < Rows → r < r' < Rows → 0 <= c < Columns →
            get b r c ≠ CellEmpty → get b r' c ≠ CellEmpty.

(** Grids built from the empty grid by moves of marks other than
    [CellEmpty]. *)
Inductive played : Board → Prop :=
| played_zero : played zeroBoard
| played_move b col mark :
    played b → mark ≠ CellEmpty →
    played (fst (fst (ApplyMove b col mark))).

(** Discs dropped one after the other into one column; the errors of the
    calls are collected. *)
Fixpoint dropInto (b : Board) (col : Z) (marks : list Z)
    : Board * list (option GameError) :=
  match marks with
  | [] => (b, [])
  | mark :: marks' =>
      let '(b', _, err) := ApplyMove b col mark in
      let '(b'', errs) := dropInto b' col marks' in
      (b'', err :: errs)
  end.

(** Column [col] holds [k] discs, stacked from the bottom row. *)
Definition stacked (b : Board) (col k : Z) : Prop :=
  (∀ r, 0 <= r < Rows - k → get b r col = CellEmpty)
  ∧ (∀ r, Rows - k <= r < Rows → get b r col ≠ CellEmpty).


(** A grid of the type [Board] with one disc in the top cell of column 0
    and nothing below it. *)
Definition floatingBoard : Board :=
  boardOf [[1; 0; 0; 0; 0; 0; 0];
           [0; 0; 0; 0; 0; 0; 0];
           [0; 0; 0; 0; 0; 0; 0];
           [0; 0; 0; 0; 0; 0; 0];
           [0; 0; 0; 0; 0; 0; 0];
           [0; 0; 0; 0; 0; 0; 0]].

(** Purity as the specification words it: the receiver of [ApplyMove] is
    the same grid after the call. *)
Definition keepsReceiver (b : Board) (col mark : Z) : Prop :=
  fst (fst (ApplyMove b col mark)) = b.

(** ** Vocabulary of the opponent's rules *)

(** Column [col] is playable and placing [player] there, on a private
    copy of the grid, is reported by the grid engine as a win of
    [player]. *)
Definition winsAt (board : Board) (player col : Z) : bool :=
  canPlay board col
  && (MoveResult.Winner (snd (fst (ApplyMove (CopyBoard board) col player)))
      =? player).

(** No playable column wins at once for [player]. *)
Definition noImmediate (board : Board) (player : Z) : Prop :=
  ∀ col, 0 <= col < Columns → winsAt board player col = false.

(** [col] is the first column of [cols] the predicate [ok] accepts. *)
Definition firstOf (ok : Z → bool) (cols : list Z) (col : Z) : Prop :=
  ∃ i : nat, cols !! i = Some col ∧ ok col = true
             ∧ ∀ (j : nat) col', (j < i)%nat → cols !! j = Some col' →
                                 ok col' = false.

(** ** Vocabulary of the win and draw properties *)

(** The cells at steps [lo .. hi] from [(row, col)] along [(dx, dy)] are
    on the grid and hold [mark]: a contiguous run through [(row, col)]
    of length [hi - lo + 1]. *)
Definition runThrough (b : Board) (mark row col dx dy lo hi : Z) : Prop :=
  lo <= 0 <= hi
  ∧ ∀ k, lo <= k <= hi →
         inBounds (row + k * dx) (col + k * dy) = true
         ∧ get b (row + k * dx) (col + k * dy) = mark.

(** Four cells from [(r, c)] along [(dx, dy)] hold the same mark. *)
Definition fourFrom (b : Board) (r c dx dy : Z) : bool :=
  negb (get b r c =? CellEmpty)
  && forallb (λ k, inBounds (r + k * dx) (c + k * dy)
                   && (get b (r + k * dx) (c + k * dy) =? get b r c))
             [1; 2; 3].

(** The grid holds a line of four in one of the four directions. *)
Definition hasLineOfFour (b : Board) : bool :=
  existsb (λ r,
    existsb (λ c,
      existsb (λ d, fourFrom b r c (fst d) (snd d)) directions)
      (seqZ 0 Columns))
    (seqZ 0 Rows).

(** The grid holds a line of four cells of [mark]. *)
Definition fourOf (b : Board) (mark : Z) : bool :=
  existsb (λ r,
    existsb (λ c,
      (get b r c =? mark)
      && existsb (λ d, fourFrom b r c (fst d) (snd d)) directions)
      (seqZ 0 Columns))
    (seqZ 0 Rows).

(** An immediate win as the specification means it: column [col] is
    playable and the grid with [player] dropped into it holds a line of
    four of [player]. *)
Definition completesFour (board : Board) (player col : Z) : bool :=
  canPlay board col
  && fourOf (fst (fst (ApplyMove (CopyBoard board) col player))) player.

(** A game in which the first player comes to hold the three leftmost
    cells of the bottom row and is to move. *)
Definition threeInARowMoves : list Z := [0; 0; 1; 1; 2; 2].

Definition threeInARow : Board :=
  fst (fst (playMoves zeroBoard CellP1 threeInARowMoves)).

(** The first 41 moves of a game that fills the grid; the second player
    is to move and column 2 is the only one left. *)
Definition lastCellOpenMoves : list Z :=
  [3; 0; 0; 0; 6; 0; 0; 1; 0; 2; 1; 1; 1; 1; 2; 1; 6; 2; 2; 3; 2;
   4; 3; 5; 3; 6; 3; 3; 5; 5; 4; 4; 5; 4; 6; 4; 4; 5; 6; 6; 5].

Definition lastCellOpen : Board :=
  fst (fst (playMoves zeroBoard CellP1 lastCellOpenMoves)).

(** Every move of [cols], marks alternating from [player], is accepted
    and decides nothing: the game is still running in the registry. *)
Fixpoint undecided (b : Board) (player : Z) (cols : list Z) : bool :=
  match cols with
  | [] => true
  | col :: cols' =>
      let '(b', res, err) := ApplyMove b col player in
      match err with
      | Some _ => false
      | None =>
          (MoveResult.Winner res =? 0) && negb (MoveResult.IsDraw res)
          && undecided b' (opponentOf player) cols'
      end
  end.

(** ** Vocabulary of the registry properties *)

(** The error of a call of [HandleMove]. *)
Definition errorOf
    (out : Manager.t * (MoveResult.t * option GameState.t * option GameError)
           * list FinishCall) : option GameError :=
  snd (snd (fst out)).

(** The rule for outsiders as the specification words it: a move by an
    identity that is not a participant of the session is answered with
    [ErrInvalidTurn]. *)
Definition rejectsOutsider (tLast tEnd : Z) (move : Move.t) (m : Manager.t)
    : Prop :=
  ∀ g, Manager.games m !! Move.GameID move = Some g →
       GameState.Players g !! Move.Username move = None →
       errorOf (HandleMove tLast tEnd move m) = Some ErrInvalidTurn.

(** Two identities are paired and their session is forfeited by a sweep
    after the reconnection window (30 s) has passed. *)
Definition pairedRegistry : Manager.t :=
  let m := NewManager 30000000000 true in
  let m := fst (AssignPlayer "g0" 0 0 "alice" m) in
  fst (AssignPlayer "g1" 0 0 "bob" m).

Definition forfeitedRegistry : Manager.t :=
  fst (SweepDisconnects findRemainingPlayer 31000000000 pairedRegistry).

(** One identity is waiting. *)
Definition waitingRegistry : Manager.t :=
  fst (AssignPlayer "g0" 0 0 "alice" (NewManager 30000000000 true)).

(** The calls of the finish callback for the session registered under
    [id]. *)
Definition callsFor (id : string) (calls : list FinishCall)
    : list FinishCall :=
  filter (λ call, fst call = id) calls.

(** Sweeps at the instants [nows], one after the other. *)
Fixpoint sweeps (pick : GameState.t → string) (nows : list Z) (m : Manager.t)
    : Manager.t * list FinishCall :=
  match nows with
  | [] => (m, [])
  | now :: nows' =>
      let '(m1, calls1) := SweepDisconnects pick now m in
      let '(m2, calls2) := sweeps pick nows' m1 in
      (m2, calls1 ++ calls2)
  end.

(** The winner rule as the specification words it: a forfeited session
    without a human participant is left without a winner. *)
Definition winnerAbsentWithoutHuman (pick : GameState.t → string) (now : Z)
    (m : Manager.t) (id : string) : Prop :=
  ∀ g g', Manager.games m !! id = Some g →
          (∀ n p, GameState.Players g !! n = Some p → Player.IsBot p = true) →
          isStale m now g = true →
          Manager.games (fst (SweepDisconnects pick now m)) !! id = Some g' →
          GameState.Winner g' = EmptyString.

(** The fallback session of an identity that calls itself ["bot"]. *)
Definition botOnlyRegistry : Manager.t :=
  fst (StartBotGame "g2" 0 0 "bot" (NewManager 30000000000 true)).

(** A session with a participant on either mark whose turn is one of the
    two marks. *)
Definition hasMark (g : GameState.t) (mark : Z) : Prop :=
  ∃ name p, GameState.Players g !! name = Some p ∧ Player.Slot p = mark.

Definition bothMarks (g : GameState.t) : Prop :=
  hasMark g CellP1 ∧ hasMark g CellP2
  ∧ (GameState.Turn g = CellP1 ∨ GameState.Turn g = CellP2).

Definition allBothMarks (m : Manager.t) : Prop :=
  ∀ id g, Manager.games m !! id = Some g → bothMarks g.

(** ** Vocabulary of the further grid properties *)

(** Cell [(r, c)] is on the grid and holds [player]. *)
Definition own (b : Board) (player r c : Z) : bool :=
  inBounds r c && (get b r c =? player).

(** What the two scans of [winningCoords] amount to for a placed cell
    [(row, col)]: the cell ahead holds the mark and either the cell
    behind holds it too or the two cells further ahead do. *)
Definition detects (b : Board) (player row col dx dy : Z) : bool :=
  own b player (row + dx) (col + dy)
  && (own b player (row - dx) (col - dy)
      || (own b player (row + 2 * dx) (col + 2 * dy)
          && own b player (row + 3 * dx) (col + 3 * dy))).

(** ** manager.go: the read accessors *)

(** [GetGame]: the session and the [ok] flag as an option. *)
Definition GetGame (gameID : string) (m : Manager.t) : option GameState.t :=
  Manager.games m !! gameID.

Definition GameForUser (username fallback : string) (m : Manager.t)
    : string :=
  match Manager.userToGame m !! username with
  | Some id => id
  | None => fallback
  end.

Definition GetGameByUser (username : string) (m : Manager.t)
    : option GameState.t :=
  match Manager.userToGame m !! username with
  | Some id =>
      match Manager.games m !! id with
      | Some g => Some g
      | None => None
      end
  | None => None
  end.

(** ** server.go: the registry side of a move message *)

(** [playBotTurn], for the session the pointer [g] refers to, given by
    its key [id] in [games] (the callers hold a pointer to a registered
    session; the branch for a key without a session is not reached by
    them); the broadcast of the new state is left out.  Without an
    embedded opponent nothing happens. *)
Definition playBotTurn (tLast tEnd : Z) (id : string) (m : Manager.t)
    : Manager.t
      * option (MoveResult.t * option GameState.t * option GameError)
      * list FinishCall :=
  match Manager.games m !! id with
  | None => (m, None, [])
  | Some g =>
      match GameState.Bot g with
      | None => (m, None, [])
      | Some bot =>
          let col := ChooseMove bot (GameState.Board g) in
          let move := Move.mk "bot" (GameState.ID g) col in
          let '(m', out, calls) := HandleMove tLast tEnd move m in
          (m', Some out, calls)
      end
  end.

(** The test of [readPump] that lets the embedded opponent reply:
    [g.Bot != nil && g.Status == StatusActive &&
     g.Turn == g.Players["bot"].Slot].  [None] stands for the nil
    dereference of a session without a participant ["bot"]. *)
Definition botIsNext (g : GameState.t) : option bool :=
  match GameState.Bot g with
  | None => Some false
  | Some _ =>
      if bool_decide (GameState.Status g = StatusActive) then
        match GameState.Players g !! "bot" with
        | Some p => Some (GameState.Turn g =? Player.Slot p)
        | None => None
        end
      else Some false
  end.

(** ** Runs of the registry *)

Inductive Op : Type :=
| OpAssignPlayer (gid : string) (tStart tLast : Z) (username : string)
| OpStartBotGame (gid : string) (tStart tLast : Z) (human : string)
| OpHandleMove (tLast tEnd : Z) (move : Move.t)
| OpAbandon (username : string)
| OpMarkDisconnected (now : Z) (username : string)
| OpSweepDisconnects (pick : GameState.t → string) (now : Z).

(** The registry after an operation and the calls of the finish
    callback it makes. *)
Definition exec (op : Op) (m : Manager.t) : Manager.t * list FinishCall :=
  match op with
  | OpAssignPlayer gid tStart tLast username =>
      (fst (AssignPlayer gid tStart tLast username m), [])
  | OpStartBotGame gid tStart tLast human =>
      (fst (StartBotGame gid tStart tLast human m), [])
  | OpHandleMove tLast tEnd move =>
      (fst (fst (HandleMove tLast tEnd move m)),
       snd (HandleMove tLast tEnd move m))
  | OpAbandon username => (Abandon username m, [])
  | OpMarkDisconnected now username => (MarkDisconnected now username m, [])
  | OpSweepDisconnects pick now => SweepDisconnects pick now m
  end.

(** The id drawn for a new session is not the key of a session of the
    registry. *)
Definition freshOp (op : Op) (m : Manager.t) : Prop :=
  match op with
  | OpAssignPlayer gid _ _ _ => Manager.games m !! gid = None
  | OpStartBotGame gid _ _ _ => Manager.games m !! gid = None
  | _ => True
  end.

Fixpoint run (ops : list Op) (m : Manager.t) : Manager.t * list FinishCall :=
  match ops with
  | [] => (m, [])
  | op :: ops' =>
      let '(m1, calls1) := exec op m in
      let '(m2, calls2) := run ops' m1 in
      (m2, calls1 ++ calls2)
  end.

Fixpoint freshRun (ops : list Op) (m : Manager.t) : Prop :=
  match ops with
  | [] => True
  | op :: ops' => freshOp op m ∧ freshRun ops' (fst (exec op m))
  end.

(** A session and a later state of it: the same id, participants, start
    and embedded opponent, and every non-empty cell as it was. *)
Definition extends (g g' : GameState.t) : Prop :=
  GameState.ID g' = GameState.ID g
  ∧ GameState.Players g' = GameState.Players g
  ∧ GameState.StartedAt g' = GameState.StartedAt g
  ∧ GameState.Bot g' = GameState.Bot g
  ∧ ∀ r c, 0 <= r < Rows → 0 <= c < Columns →
           get (GameState.Board g) r c ≠ CellEmpty →
           get (GameState.Board g') r c = get (GameState.Board g) r c.

(** The session an accepted move leaves in the registry. *)
Definition movedSession (tLast tEnd : Z) (username : string)
    (g : GameState.t) (b' : Board) (res : MoveResult.t) : GameState.t :=
  let g1 := withLastMoveAt (withBoard g b') tLast in
  if negb (MoveResult.Winner res =? 0) then
    withEndedAt (withWinner (withStatus g1 StatusFinished) username) tEnd
  else if MoveResult.IsDraw res then
    withEndedAt (withStatus g1 StatusFinished) tEnd
  else if GameState.Turn g =? CellP1 then withTurn g1 CellP2
  else withTurn g1 CellP1.


(** A run that pairs two identities, plays a move, lets the window pass
    and sweeps twice. *)
Definition sampleRun : list Op :=
  [OpAssignPlayer "g0" 0 0 "alice";
   OpAssignPlayer "g1" 0 0 "bob";
   OpHandleMove 1 1 (Move.mk "alice" "g1" 3);
   OpSweepDisconnects findRemainingPlayer 40000000000;
   OpMarkDisconnected 41000000000 "bob";
   OpHandleMove 42000000000 42000000000 (Move.mk "bob" "g1" 3);
   OpSweepDisconnects findRemainingPlayer 90000000000].

(** ** Invariants of the registry *)

Definition sessionWellFormed (id : string) (g : GameState.t) : Prop :=
  GameState.ID g = id
  ∧ played (GameState.Board g)
  ∧ (GameState.Status g = StatusActive
     ∨ GameState.Status g = StatusFinished)
  ∧ (GameState.Turn g = CellP1 ∨ GameState.Turn g = CellP2)
  ∧ (∀ name p, GameState.Players g !! name = Some p →
               Player.Username p = name
               ∧ (Player.Slot p = CellP1 ∨ Player.Slot p = CellP2))
  ∧ (GameState.Status g = StatusActive →
     GameState.Winner g = EmptyString ∧ GameState.EndedAt g = 0)
  ∧ (GameState.Winner g = EmptyString ∨ GameState.Winner g = "bot"
     ∨ is_Some (GameState.Players g !! GameState.Winner g)).

Definition registryWellFormed (m : Manager.t) : Prop :=
  (∀ id g, Manager.games m !! id = Some g → sessionWellFormed id g)
  ∧ (∀ username id, Manager.userToGame m !! username = Some id →
                    is_Some (Manager.games m !! id))
  ∧ (∀ w, Manager.waiting m = Some w →
          Player.Slot w = CellP1 ∧ Player.IsBot w = false).

(** The handling of one move message by [readPump], on the registry:
    the move of [username] on the session [GameForUser] gives (or
    [gameID]), and, when it is accepted and the embedded opponent is
    next, the opponent's reply through [playBotTurn].  The result holds
    the registry, the outcome of the move, the outcome of the reply and
    the calls of the finish callback; [None] stands for a nil
    dereference.  The calls into the registry are taken one after the
    other, with no operation of another connection in between. *)
Definition readPump_move (tLast tEnd tLast' tEnd' : Z)
    (username gameID : string) (col : Z) (m : Manager.t)
    : option (Manager.t
              * (MoveResult.t * option GameState.t * option GameError)
              * option (MoveResult.t * option GameState.t * option GameError)
              * list FinishCall) :=
  let move := Move.mk username (GameForUser username gameID m) col in
  let '(m1, out, calls1) := HandleMove tLast tEnd move m in
  match snd out with
  | Some _ => Some (m1, out, None, calls1)
  | None =>
      match snd (fst out) with
      | None => None
      | Some g =>
          match botIsNext g with
          | None => None
          | Some false => Some (m1, out, None, calls1)
          | Some true =>
              let '(m2, reply, calls2) :=
                playBotTurn tLast' tEnd' (Move.GameID move) m1 in
              Some (m2, out, reply, calls1 ++ calls2)
          end
      end
  end.

(** A fallback session for one human, the human to move. *)
Definition fallbackRegistry : Manager.t :=
  fst (StartBotGame "g3" 0 0 "alice" (NewManager 30000000000 true)).

(** ** server.go: the fallback timer and the win table *)

(** The function armed by [readPump] with [time.AfterFunc] for a waiting
    identity, on the registry (the pushes to the connection are left
    out): if the identity is mapped to no registered session, start the
    fallback session and let the opponent move when it has the first
    turn. *)
Definition fallbackTimer (gid : string) (tStart tLast tLast' tEnd' : Z)
    (username : string) (m : Manager.t) : Manager.t * list FinishCall :=
  match GetGameByUser username m with
  | Some _ => (m, [])
  | None =>
      let '(m1, g) := StartBotGame gid tStart tLast username m in
      match GameState.Bot g with
      | Some _ =>
          if GameState.Turn g =? CellP2 then
            let '(m2, _, calls) :=
              playBotTurn tLast' tEnd' (GameState.ID g) m1 in
            (m2, calls)
          else (m1, [])
      | None => (m1, [])
      end
  end.

(** The in-memory win table of [Server.onFinish]; the calls to the store
    and to the event publisher are left out. *)
Definition Server_onFinish (inMemoryWins : gmap string Z) (g : GameState.t)
    : gmap string Z :=
  if negb (bool_decide (GameState.Winner g = EmptyString))
     && negb (bool_decide (GameState.Winner g = "bot"))
  then <[GameState.Winner g :=
           add64 (default 0 (inMemoryWins !! GameState.Winner g)) 1]>
         inMemoryWins
  else inMemoryWins.

(** ** Games of a fallback session *)

(** The move messages [cols] of [human], handled one after the other by
    [readPump_move], the embedded opponent replying to each. *)
Fixpoint readPump_moves (human gameID : string) (cols : list Z)
    (m : Manager.t) : option Manager.t :=
  match cols with
  | [] => Some m
  | col :: cols' =>
      match readPump_move 0 0 0 0 human gameID col m with
      | Some (m', _, _, _) => readPump_moves human gameID cols' m'
      | None => None
      end
  end.

(** The moves [cols] of a fallback session, the human on mark A moving
    first: every move of the opponent is the one [ChooseMove] makes on
    the grid it finds. *)
Fixpoint opponentChose (b : Board) (cols : list Z) : bool :=
  match cols with
  | human :: reply :: cols' =>
      let b1 := fst (fst (ApplyMove b human CellP1)) in
      (ChooseMove (NewBot CellP2) b1 =? reply)
      && opponentChose (fst (fst (ApplyMove b1 reply CellP2))) cols'
  | _ => true
  end.

(** The human, on mark A, comes to hold (5,3), (5,4) and (5,5), with
    (5,6) empty; the opponent, on mark B, is to move.  Its earlier moves
    are the ones [ChooseMove] makes. *)
Definition openThreatMoves : list Z := [3; 3; 1; 2; 4; 3; 5].

Definition openThreat : Board :=
  fst (fst (playMoves zeroBoard CellP1 openThreatMoves)).

(** The human holds (5,0) and (5,2), the opponent (5,3); the opponent is
    to move. *)
Definition noThreatMoves : list Z := [0; 3; 2].

Definition noThreat : Board :=
  fst (fst (playMoves zeroBoard CellP1 noThreatMoves)).

(** The opponent holds (3,3), (4,3) and (5,3), with (2,3) empty, and is
    to move; the human holds three cells of column 0. *)
Definition ownWinOpenMoves : list Z := [0; 3; 0; 3; 2; 1; 1; 3; 0].

Definition ownWinOpen : Board :=
  fst (fst (playMoves zeroBoard CellP1 ownWinOpenMoves)).

(** * Properties *)

(** ** Indexing the grid *)

Ltac split_col c :=
  let H := fresh "Hcase" in
  assert (c = 0 ∨ c = 1 ∨ c = 2 ∨ c = 3 ∨ c = 4 ∨ c = 5 ∨ c = 6) as H
    by (unfold Columns in *; lia);
  destruct H as [-> | [-> | [-> | [-> | [-> | [-> | ->]]]]]].

Ltac split_row r :=
  let H := fresh "Hcase" in
  assert (r = 0 ∨ r = 1 ∨ r = 2 ∨ r = 3 ∨ r = 4 ∨ r = 5) as H
    by (unfold Rows in *; lia);
  destruct H as [-> | [-> | [-> | [-> | [-> | ->]]]]].

Lemma wrap64_small z : - 2 ^ 63 <= z < 2 ^ 63 → wrap64 z = z.
Proof.
  intros Hz. unfold wrap64.
  rewrite Z.mod_small by lia. lia.
Qed.

Lemma lineGet_lineSet_eq l c v :
  0 <= c < Columns → lineGet (lineSet l c v) c = v.
Proof. intros Hc. split_col c; reflexivity. Qed.

Lemma lineGet_lineSet_ne l c c' v :
  0 <= c < Columns → 0 <= c' < Columns → c ≠ c' →
  lineGet (lineSet l c v) c' = lineGet l c'.
Proof.
  intros Hc Hc' Hne.
  split_col c; split_col c'; try reflexivity; contradiction.
Qed.

Lemma boardLine_set_eq b r c v :
  0 <= r < Rows → boardLine (set b r c v) r = lineSet (boardLine b r) c v.
Proof. intros Hr. split_row r; reflexivity. Qed.

Lemma boardLine_set_ne b r r' c v :
  0 <= r < Rows → 0 <= r' < Rows → r ≠ r' →
  boardLine (set b r c v) r' = boardLine b r'.
Proof.
  intros Hr Hr' Hne.
  split_row r; split_row r'; try reflexivity; contradiction.
Qed.

Lemma get_set_eq b r c v :
  0 <= r < Rows → 0 <= c < Columns → get (set b r c v) r c = v.
Proof.
  intros Hr Hc. unfold get.
  rewrite boardLine_set_eq by assumption.
  apply lineGet_lineSet_eq; assumption.
Qed.

Lemma get_set_other_row b r r' c c' v :
  0 <= r < Rows → 0 <= r' < Rows → r ≠ r' →
  get (set b r c v) r' c' = get b r' c'.
Proof.
  intros Hr Hr' Hne. unfold get.
  rewrite boardLine_set_ne by assumption. reflexivity.
Qed.

Lemma get_set_other_col b r c c' v :
  0 <= r < Rows → 0 <= c < Columns → 0 <= c' < Columns → c ≠ c' →
  get (set b r c v) r c' = get b r c'.
Proof.
  intros Hr Hc Hc' Hne. unfold get.
  rewrite boardLine_set_eq by assumption.
  apply lineGet_lineSet_ne; assumption.
Qed.

Lemma get_set_ne b r c r' c' v :
  0 <= r < Rows → 0 <= c < Columns →
  0 <= r' < Rows → 0 <= c' < Columns →
  (r, c) ≠ (r', c') →
  get (set b r c v) r' c' = get b r' c'.
Proof.
  intros Hr Hc Hr' Hc' Hne.
  destruct (decide (r = r')) as [<- | Hrr].
  - apply get_set_other_col; try assumption. congruence.
  - apply get_set_other_row; assumption.
Qed.

Lemma CopyBoard_eq src : CopyBoard src = src.
Proof. destruct src as [[] [] [] [] [] []]. reflexivity. Qed.

Lemma evaluate_Board board row col player :
  MoveResult.Board (evaluate board row col player) = board.
Proof.
  unfold evaluate.
  destruct (evaluate_directions directions board row col player); reflexivity.
Qed.

(** ** The gravity drop of [ApplyMove] *)

Lemma ApplyMove_rows_cases n b col player :
  ((∀ r, 0 <= r < Z.of_nat n → get b r col ≠ CellEmpty)
   ∧ ApplyMove_rows n b col player = (b, MoveResult.zero, Some ErrColumnFull))
  ∨ (∃ row, 0 <= row < Z.of_nat n ∧ get b row col = CellEmpty
            ∧ (∀ r, row < r < Z.of_nat n → get b r col ≠ CellEmpty)
            ∧ ApplyMove_rows n b col player
              = (set b row col player,
                 evaluate (set b row col player) row col player, None)).
Proof.
  induction n as [ | n IH].
  - left. split; [intros r Hr; lia | reflexivity].
  - cbn [ApplyMove_rows].
    destruct (get b (Z.of_nat n) col =? CellEmpty) eqn:Hcell.
    + apply Z.eqb_eq in Hcell. right. exists (Z.of_nat n).
      split; [lia | split; [assumption | split; [intros r Hr; lia | reflexivity]]].
    + apply Z.eqb_neq in Hcell.
      destruct IH as [[Hfull Heq] | (row & Hrow & Hempty & Habove & Heq)].
      * left. split; [ | exact Heq].
        intros r Hr. destruct (decide (r = Z.of_nat n)) as [-> | Hne];
          [exact Hcell | apply Hfull; lia].
      * right. exists row.
        split; [lia | split; [assumption | split; [ | exact Heq]]].
        intros r Hr. destruct (decide (r = Z.of_nat n)) as [-> | Hne];
          [exact Hcell | apply Habove; lia].
Qed.

Lemma ApplyMove_cases b col player :
  ((col < 0 ∨ Columns <= col)
   ∧ ApplyMove b col player = (b, MoveResult.zero, Some ErrInvalidCol))
  ∨ (0 <= col < Columns ∧ columnFull b col
     ∧ ApplyMove b col player = (b, MoveResult.zero, Some ErrColumnFull))
  ∨ (0 <= col < Columns
     ∧ ∃ row, lowestEmpty b col row
              ∧ ApplyMove b col player
                = (set b row col player,
                   evaluate (set b row col player) row col player, None)).
Proof.
  unfold ApplyMove.
  destruct ((col <? 0) || (col >=? Columns)) eqn:Hcol.
  - left. split; [ | reflexivity].
    apply orb_true_iff in Hcol. destruct Hcol as [H | H]; lia.
  - apply orb_false_iff in Hcol. destruct Hcol as [H1 H2].
    assert (0 <= col < Columns) as Hin by lia.
    right.
    destruct (ApplyMove_rows_cases (Z.to_nat Rows) b col player)
      as [[Hfull Heq] | (row & Hrow & Hempty & Habove & Heq)].
    + left. split; [exact Hin | split; [ | exact Heq]].
      intros r Hr. apply Hfull. unfold Rows in *. lia.
    + right. split; [exact Hin | ]. exists row. split; [ | exact Heq].
      unfold lowestEmpty, Rows in *.
      split; [lia | split; [assumption | ]].
      intros r Hr. apply Habove. lia.
Qed.

Lemma lowestEmpty_unique b col row row' :
  lowestEmpty b col row → lowestEmpty b col row' → row = row'.
Proof.
  intros (Hr & He & Ha) (Hr' & He' & Ha').
  destruct (Z.lt_trichotomy row row') as [Hlt | [Heq | Hgt]];
    [ | exact Heq | ].
  - exfalso. apply (Ha row'); [lia | exact He'].
  - exfalso. apply (Ha' row); [lia | exact He].
Qed.

Lemma ApplyMove_invalid b col player :
  col < 0 ∨ Columns <= col →
  ApplyMove b col player = (b, MoveResult.zero, Some ErrInvalidCol).
Proof.
  intros Hcol.
  destruct (ApplyMove_cases b col player)
    as [[_ Heq] | [(Hin & _) | (Hin & _)]]; [exact Heq | lia | lia].
Qed.

Lemma ApplyMove_full b col player :
  0 <= col < Columns → columnFull b col →
  ApplyMove b col player = (b, MoveResult.zero, Some ErrColumnFull).
Proof.
  intros Hcol Hfull.
  destruct (ApplyMove_cases b col player)
    as [[Hout _] | [(_ & _ & Heq) | (_ & row & (Hr & He & _) & _)]].
  - lia.
  - exact Heq.
  - exfalso. exact (Hfull row Hr He).
Qed.

Lemma ApplyMove_place b col player row :
  0 <= col < Columns → lowestEmpty b col row →
  ApplyMove b col player
  = (set b row col player,
     evaluate (set b row col player) row col player, None).
Proof.
  intros Hcol Hlow.
  destruct (ApplyMove_cases b col player)
    as [[Hout _] | [(_ & Hfull & _) | (_ & row' & Hlow' & Heq)]].
  - lia.
  - exfalso. destruct Hlow as (Hr & He & _). exact (Hfull row Hr He).
  - rewrite (lowestEmpty_unique _ _ _ _ Hlow Hlow'). exact Heq.
Qed.

(** A rejected move leaves the receiver as it was. *)
Lemma ApplyMove_error_unchanged b col player b' res e :
  ApplyMove b col player = (b', res, Some e) →
  b' = b ∧ res = MoveResult.zero ∧ (e = ErrInvalidCol ∨ e = ErrColumnFull).
Proof.
  intros Heq.
  destruct (ApplyMove_cases b col player)
    as [[_ H] | [(_ & _ & H) | (_ & row & _ & H)]];
    rewrite H in Heq; inversion Heq; subst; auto.
Qed.

Lemma settled_zeroBoard : settled zeroBoard.
Proof.
  intros r r' c Hr Hr' Hc Hne. exfalso. apply Hne.
  split_row r; split_col c; reflexivity.
Qed.

Lemma settled_ApplyMove b col mark :
  settled b → mark ≠ CellEmpty → settled (fst (fst (ApplyMove b col mark))).
Proof.
  intros Hs Hmark.
  destruct (ApplyMove_cases b col mark)
    as [[_ H] | [(_ & _ & H) | (Hcol & row & (Hrow & Hempty & Habove) & H)]];
    rewrite H; cbn [fst]; try exact Hs.
  intros r r' c Hr Hr' Hc Hne.
  destruct (decide ((row, col) = (r', c))) as [Heq | Hdiff].
  - inversion Heq; subst. rewrite get_set_eq by lia. exact Hmark.
  - rewrite get_set_ne by (assumption || lia).
    destruct (decide ((row, col) = (r, c))) as [Heq | Hdiff'].
    + inversion Heq; subst. apply Habove. lia.
    + rewrite get_set_ne in Hne by (assumption || lia).
      exact (Hs r r' c Hr Hr' Hc Hne).
Qed.

Lemma played_settled b : played b → settled b.
Proof.
  induction 1 as [ | b col mark _ IH Hmark].
  - exact settled_zeroBoard.
  - apply settled_ApplyMove; assumption.
Qed.

Lemma settled_top_columnFull b col :
  settled b → 0 <= col < Columns → get b 0 col ≠ CellEmpty →
  columnFull b col.
Proof.
  intros Hs Hcol Htop r Hr.
  destruct (decide (r = 0)) as [-> | Hne]; [exact Htop | ].
  apply (Hs 0 r col); unfold Rows in *; first [lia | exact Htop].
Qed.

Lemma stacked_zeroBoard col : 0 <= col < Columns → stacked zeroBoard col 0.
Proof.
  intros Hc. split.
  - intros r Hr. split_row r; split_col col; reflexivity.
  - intros r Hr. lia.
Qed.

Lemma stacked_drop b col k mark :
  0 <= col < Columns → 0 <= k < Rows → mark ≠ CellEmpty →
  stacked b col k →
  ApplyMove b col mark
  = (set b (Rows - 1 - k) col mark,
     evaluate (set b (Rows - 1 - k) col mark) (Rows - 1 - k) col mark, None)
  ∧ stacked (set b (Rows - 1 - k) col mark) col (k + 1).
Proof.
  intros Hcol Hk Hmark [Hlow Hhigh]. split.
  - apply ApplyMove_place; [exact Hcol | ].
    split; [lia | split].
    + apply Hlow. lia.
    + intros r Hr. apply Hhigh. lia.
  - split.
    + intros r Hr. rewrite get_set_other_row by lia. apply Hlow. lia.
    + intros r Hr. destruct (decide (r = Rows - 1 - k)) as [-> | Hne].
      * rewrite get_set_eq by lia. exact Hmark.
      * rewrite get_set_other_row by lia. apply Hhigh. lia.
Qed.

Lemma stacked_full b col : stacked b col Rows → columnFull b col.
Proof. intros [_ Hhigh] r Hr. apply Hhigh. lia. Qed.

Lemma dropInto_stacked col extra marks :
  0 <= col < Columns →
  ∀ b k, 0 <= k → k + Z.of_nat (length marks) = Rows →
         Forall (λ mark, mark ≠ CellEmpty) marks →
         stacked b col k →
         snd (dropInto b col (marks ++ [extra]))
         = replicate (length marks) None ++ [Some ErrColumnFull].
Proof.
  intros Hcol. induction marks as [ | mark marks IH]; intros b k Hk Hlen Hall Hst.
  - cbn [length Z.of_nat] in Hlen. assert (k = Rows) as -> by lia.
    cbn [app dropInto].
    rewrite (ApplyMove_full b col extra Hcol (stacked_full _ _ Hst)).
    reflexivity.
  - cbn [length] in Hlen. inversion Hall as [ | ? ? Hmark Hall']; subst.
    destruct (stacked_drop b col k mark Hcol ltac:(lia) Hmark Hst)
      as [Heq Hst'].
    cbn [app dropInto]. rewrite Heq.
    specialize (IH _ (k + 1) ltac:(lia) ltac:(lia) Hall' Hst').
    destruct (dropInto (set b (Rows - 1 - k) col mark) col (marks ++ [extra]))
      as [b'' errs].
    cbn [snd] in IH |- *. rewrite IH. reflexivity.
Qed.

Lemma top_empty_lowestEmpty b col :
  0 <= col < Columns → get b 0 col = CellEmpty →
  ∃ row, lowestEmpty b col row.
Proof.
  intros Hcol Htop.
  destruct (ApplyMove_cases b col CellP1)
    as [[Hout _] | [(_ & Hfull & _) | (_ & row & Hlow & _)]].
  - lia.
  - exfalso. apply (Hfull 0); [unfold Rows; lia | exact Htop].
  - exists row. exact Hlow.
Qed.

(** Discs of non-empty marks dropped into one column of a grid built by
    play leave a grid built by play. *)
Lemma played_dropInto col marks :
  Forall (λ mark, mark ≠ CellEmpty) marks →
  ∀ b, played b → played (fst (dropInto b col marks)).
Proof.
  induction 1 as [ | mark marks Hmark _ IH]; intros b Hb; [exact Hb | ].
  cbn [dropInto].
  pose proof (played_move b col mark Hb Hmark) as Hnext.
  destruct (ApplyMove b col mark) as [[b' res] err]. cbn [fst] in Hnext.
  specialize (IH b' Hnext).
  destruct (dropInto b' col marks) as [b'' errs]. exact IH.
Qed.

(** C2: [ApplyMove] fails with [ErrInvalidCol] when the column is
    outside [0, Columns).  On a grid built from the empty grid by moves
    of non-empty marks, as every grid of a session is, it fails with
    [ErrColumnFull] when the top cell of the column is occupied (the
    code scans the column for an empty cell and fails when it has none).
    The grid is unchanged in both cases.  Otherwise the top cell is
    empty, the column has a lowest empty row, and the mark is written
    into it, every other cell staying as it was.  Dropping [Rows]
    non-empty marks into one column of the empty grid succeeds [Rows]
    times and the next attempt fails with [ErrColumnFull]. *)
Theorem ApplyMove_gravity_drop (b : Board) (col mark : Z) :
  (col < 0 ∨ Columns <= col →
   ApplyMove b col mark = (b, MoveResult.zero, Some ErrInvalidCol))
  ∧ (0 <= col < Columns → columnFull b col →
     ApplyMove b col mark = (b, MoveResult.zero, Some ErrColumnFull))
  ∧ (0 <= col < Columns → played b → get b 0 col ≠ CellEmpty →
     ApplyMove b col mark = (b, MoveResult.zero, Some ErrColumnFull))
  ∧ (0 <= col < Columns → ∀ row, lowestEmpty b col row →
     ApplyMove b col mark
     = (set b row col mark, evaluate (set b row col mark) row col mark, None)
     ∧ get (set b row col mark) row col = mark
     ∧ ∀ r c, 0 <= r < Rows → 0 <= c < Columns → (row, col) ≠ (r, c) →
              get (set b row col mark) r c = get b r c)
  ∧ (0 <= col < Columns → get b 0 col = CellEmpty →
     ∃ row, lowestEmpty b col row)
  ∧ (0 <= col < Columns → ∀ marks extra,
     length marks = Z.to_nat Rows →
     Forall (λ mark, mark ≠ CellEmpty) marks →
     snd (dropInto zeroBoard col (marks ++ [extra]))
     = replicate (Z.to_nat Rows) None ++ [Some ErrColumnFull]).
Proof.
  split; [apply ApplyMove_invalid | ].
  split; [apply ApplyMove_full | ].
  split.
  { intros Hcol Hplayed Htop. apply ApplyMove_full; [exact Hcol | ].
    apply settled_top_columnFull; try assumption.
    apply played_settled. exact Hplayed. }
  split.
  { intros Hcol row Hlow. split; [apply ApplyMove_place; assumption | ].
    destruct Hlow as (Hrow & _). split.
    - apply get_set_eq; assumption.
    - intros r c Hr Hc Hne. apply get_set_ne; assumption. }
  split; [apply top_empty_lowestEmpty | ].
  intros Hcol marks extra Hlen Hall.
  rewrite <- Hlen.
  apply (dropInto_stacked col extra marks Hcol zeroBoard 0);
    [lia | rewrite Hlen; reflexivity | exact Hall | ].
  apply stacked_zeroBoard. exact Hcol.
Qed.

Lemma ApplyMove_gravity_drop_witness :
  ApplyMove zeroBoard 7 CellP1
  = (zeroBoard, MoveResult.zero, Some ErrInvalidCol)
  ∧ ApplyMove (fst (dropInto zeroBoard 3 [1; 2; 1; 2; 1; 2])) 3 CellP1
    = (fst (dropInto zeroBoard 3 [1; 2; 1; 2; 1; 2]), MoveResult.zero,
       Some ErrColumnFull)
  ∧ get (set zeroBoard 5 3 CellP1) 5 3 = CellP1
  ∧ snd (dropInto zeroBoard 3 ([1; 2; 1; 2; 1; 2] ++ [1]))
    = replicate (Z.to_nat Rows) None ++ [Some ErrColumnFull].
Proof.
  destruct (ApplyMove_gravity_drop zeroBoard 7 CellP1) as (Hinv & _).
  destruct (ApplyMove_gravity_drop
              (fst (dropInto zeroBoard 3 [1; 2; 1; 2; 1; 2])) 3 CellP1)
    as (_ & _ & Htop & _).
  destruct (ApplyMove_gravity_drop zeroBoard 3 CellP1)
    as (_ & _ & _ & Hplace & _ & Hfill).
  split; [apply Hinv; right; unfold Columns; lia | ].
  split.
  { apply Htop.
    - unfold Columns; lia.
    - apply played_dropInto; [ | exact played_zero].
      repeat constructor; unfold CellEmpty; lia.
    - vm_compute. discriminate. }
  split.
  - refine (proj1 (proj2 (Hplace _ 5 _))).
    + unfold Columns; lia.
    + split; [unfold Rows; lia | ].
      split; [reflexivity | ]. intros r Hr. unfold Rows in Hr. lia.
  - apply Hfill.
    + unfold Columns; lia.
    + reflexivity.
    + repeat constructor; unfold CellEmpty; lia.
Defined.

(** C8, as worded, fails: a successful call writes into its receiver. *)
Lemma keepsReceiver_counterexample : ¬ keepsReceiver zeroBoard 3 CellP1.
Proof. unfold keepsReceiver. vm_compute. discriminate. Qed.

(** C8 (amended): the outcome of [ApplyMove] is a function of the grid
    and its inputs only, and a rejected call leaves its receiver as it
    was; an accepted call writes the mark into its receiver in place, so
    that the receiver afterwards is the grid of the returned
    [MoveResult] and, for a non-empty mark, differs from the grid
    before.  A lookahead therefore runs on a private copy: [CopyBoard]
    returns an equal grid, on which [ApplyMove] gives the same outcome. *)
Theorem ApplyMove_receiver_effect (b : Board) (col mark : Z) :
  ∀ b' res err, ApplyMove b col mark = (b', res, err) →
  (err ≠ None → b' = b ∧ res = MoveResult.zero)
  ∧ (err = None →
     MoveResult.Board res = b'
     ∧ ∃ row, lowestEmpty b col row ∧ b' = set b row col mark
              ∧ (mark ≠ CellEmpty → b' ≠ b))
  ∧ CopyBoard b = b
  ∧ ApplyMove (CopyBoard b) col mark = (b', res, err).
Proof.
  intros b' res err Heq. split; [ | split; [ | split]].
  - intros Herr. destruct err as [e | ]; [ | congruence].
    destruct (ApplyMove_error_unchanged _ _ _ _ _ _ Heq) as (H1 & H2 & _).
    split; assumption.
  - intros ->.
    destruct (ApplyMove_cases b col mark)
      as [[_ H] | [(_ & _ & H) | (Hcol & row & Hlow & H)]];
      rewrite H in Heq; inversion Heq; subst.
    split; [apply evaluate_Board | ].
    exists row. split; [exact Hlow | split; [reflexivity | ]].
    intros Hmark Hsame. destruct Hlow as (Hrow & Hempty & _).
    assert (get (set b row col mark) row col = mark) as Hget
      by (apply get_set_eq; assumption).
    rewrite Hsame in Hget. congruence.
  - apply CopyBoard_eq.
  - rewrite CopyBoard_eq. exact Heq.
Qed.

Lemma ApplyMove_receiver_effect_witness :
  MoveResult.Board (evaluate (set zeroBoard 5 3 CellP1) 5 3 CellP1)
  = set zeroBoard 5 3 CellP1
  ∧ set zeroBoard 5 3 CellP1 ≠ zeroBoard.
Proof.
  destruct (ApplyMove_receiver_effect zeroBoard 3 CellP1 _ _ _ eq_refl)
    as (_ & Hok & _).
  destruct (Hok eq_refl) as (Hboard & row & _ & Hset & Hdiff).
  split; [exact Hboard | ].
  apply Hdiff. unfold CellP1, CellEmpty. lia.
Defined.

(** ** The opponent: [findImmediate] and [ChooseMove] *)

Lemma findImmediate_cols_find cols board player :
  findImmediate_cols cols board player
  = match list_find (λ col, winsAt board player col = true) cols with
    | Some (_, col) => (col, true)
    | None => (-1, false)
    end.
Proof.
  induction cols as [ | col cols IH]; [reflexivity | ].
  cbn [findImmediate_cols list_find].
  destruct (decide (winsAt board player col = true)) as [Hw | Hw].
  - unfold winsAt in Hw. apply andb_true_iff in Hw. destruct Hw as [Hplay Hwin].
    rewrite Hplay. cbn [negb].
    destruct (ApplyMove (CopyBoard board) col player) as [[b' res] err].
    cbn [fst snd] in Hwin. rewrite Hwin. reflexivity.
  - apply not_true_is_false in Hw. unfold winsAt in Hw.
    assert (findImmediate_cols cols board player
            = match prod_map S id
                      <$> list_find (λ c, winsAt board player c = true) cols with
              | Some (_, c) => (c, true)
              | None => (-1, false)
              end) as Hrest.
    { rewrite IH. destruct (list_find _ cols) as [[i c] | ]; reflexivity. }
    destruct (canPlay board col); cbn [negb andb] in Hw |- *; [ | exact Hrest].
    destruct (ApplyMove (CopyBoard board) col player) as [[b' res] err].
    cbn [fst snd] in Hw. rewrite Hw. exact Hrest.
Qed.

Lemma firstPlayable_find cols board :
  firstPlayable cols board
  = snd <$> list_find (λ col, canPlay board col = true) cols.
Proof.
  induction cols as [ | col cols IH]; [reflexivity | ].
  cbn [firstPlayable list_find].
  destruct (canPlay board col) eqn:Hplay.
  - rewrite decide_True by reflexivity. reflexivity.
  - rewrite decide_False by discriminate. rewrite IH.
    destruct (list_find _ cols) as [[i c] | ]; reflexivity.
Qed.

Lemma firstOf_find ok cols col :
  firstOf ok cols col →
  ∃ i, list_find (λ c, ok c = true) cols = Some (i, col).
Proof.
  intros (i & Hi & Hok & Hbefore). exists i.
  apply list_find_Some. split; [exact Hi | split; [exact Hok | ]].
  intros j y Hj Hlt. rewrite (Hbefore j y Hlt Hj). discriminate.
Qed.

Lemma firstOf_columns ok col :
  0 <= col < Columns → ok col = true →
  (∀ col', 0 <= col' < col → ok col' = false) →
  firstOf ok (seqZ 0 Columns) col.
Proof.
  intros Hcol Hok Hbefore. exists (Z.to_nat col).
  split; [ | split; [exact Hok | ]].
  - rewrite lookup_seqZ_lt by lia. f_equal. lia.
  - intros j col' Hlt Hj. apply lookup_seqZ in Hj. destruct Hj as [-> _].
    apply Hbefore. lia.
Qed.

Lemma findImmediate_first board player col :
  firstOf (winsAt board player) (seqZ 0 Columns) col →
  findImmediate board player = (col, true).
Proof.
  intros Hfirst. unfold findImmediate. rewrite findImmediate_cols_find.
  destruct (firstOf_find _ _ _ Hfirst) as [i ->]. reflexivity.
Qed.

Lemma findImmediate_none board player :
  noImmediate board player → findImmediate board player = (-1, false).
Proof.
  intros Hnone. unfold findImmediate. rewrite findImmediate_cols_find.
  assert (list_find (λ col, winsAt board player col = true) (seqZ 0 Columns)
          = None) as ->; [ | reflexivity].
  apply list_find_None, Forall_forall. intros col Hin.
  apply elem_of_seqZ in Hin. rewrite (Hnone col) by lia. discriminate.
Qed.

Lemma firstPlayable_first cols board col :
  firstOf (canPlay board) cols col → firstPlayable cols board = Some col.
Proof.
  intros Hfirst. rewrite firstPlayable_find.
  destruct (firstOf_find _ _ _ Hfirst) as [i ->]. reflexivity.
Qed.

Lemma firstPlayable_none cols board :
  (∀ col, col ∈ cols → canPlay board col = false) →
  firstPlayable cols board = None.
Proof.
  intros Hnone. rewrite firstPlayable_find.
  assert (list_find (λ col, canPlay board col = true) cols = None) as ->;
    [ | reflexivity].
  apply list_find_None, Forall_forall. intros col Hin.
  rewrite (Hnone col Hin). discriminate.
Qed.

(** The order of the tests of [ChooseMove], in terms of what
    [findImmediate] tests ([winsAt]: the grid engine reports the mark as
    winner of the simulated move).  The lowest playable column that
    passes the test for the opponent's own mark is returned; when there
    is none, the lowest one that passes it for the adversary's mark;
    when there is none either, the first playable column of the order
    3, 2, 4, 1, 5, 0, 6. *)
Lemma ChooseMove_tests_in_order (b : Bot.t) (board : Board) :
  (∀ col, 0 <= col < Columns →
          winsAt board (Bot.Player b) col = true →
          (∀ col', 0 <= col' < col → winsAt board (Bot.Player b) col' = false) →
          ChooseMove b board = col)
  ∧ (noImmediate board (Bot.Player b) →
     ∀ col, 0 <= col < Columns →
            winsAt board (opponentOf (Bot.Player b)) col = true →
            (∀ col', 0 <= col' < col →
                     winsAt board (opponentOf (Bot.Player b)) col' = false) →
            ChooseMove b board = col)
  ∧ (noImmediate board (Bot.Player b) →
     noImmediate board (opponentOf (Bot.Player b)) →
     ∀ col, firstOf (canPlay board) [3; 2; 4; 1; 5; 0; 6] col →
            ChooseMove b board = col)
  ∧ (noImmediate board (Bot.Player b) →
     noImmediate board (opponentOf (Bot.Player b)) →
     canPlay board 3 = true → ChooseMove b board = 3)
  ∧ opponentOf CellP1 = CellP2 ∧ opponentOf CellP2 = CellP1.
Proof.
  assert (∀ col,
             noImmediate board (Bot.Player b) →
             noImmediate board (opponentOf (Bot.Player b)) →
             firstOf (canPlay board) preferred col →
             ChooseMove b board = col) as Hcenter.
  { intros col Hown Hadv Hfirst. unfold ChooseMove.
    rewrite (findImmediate_none _ _ Hown), (findImmediate_none _ _ Hadv).
    rewrite (firstPlayable_first _ _ _ Hfirst). reflexivity. }
  split; [ | split; [ | split; [ | split; [ | split; reflexivity]]]].
  - intros col Hcol Hwin Hbefore. unfold ChooseMove.
    rewrite (findImmediate_first board (Bot.Player b) col); [reflexivity | ].
    apply firstOf_columns; assumption.
  - intros Hown col Hcol Hwin Hbefore. unfold ChooseMove.
    rewrite (findImmediate_none _ _ Hown).
    rewrite (findImmediate_first board (opponentOf (Bot.Player b)) col);
      [reflexivity | ].
    apply firstOf_columns; assumption.
  - intros Hown Hadv col Hfirst. apply Hcenter; assumption.
  - intros Hown Hadv Hplay. apply Hcenter; try assumption.
    exists 0%nat. split; [reflexivity | split; [exact Hplay | ]].
    intros j col' Hlt. lia.
Qed.

(** C10: on a grid whose top row has no empty cell, [ChooseMove] returns
    column 0. *)
Theorem ChooseMove_full_grid (b : Bot.t) (board : Board) :
  (∀ col, 0 <= col < Columns → get board 0 col ≠ CellEmpty) →
  ChooseMove b board = 0.
Proof.
  intros Hfull.
  assert (∀ col, 0 <= col < Columns → canPlay board col = false) as Hno.
  { intros col Hcol. unfold canPlay. apply Z.eqb_neq, Hfull, Hcol. }
  assert (∀ player, noImmediate board player) as Hnone.
  { intros player col Hcol. unfold winsAt. rewrite (Hno col Hcol).
    reflexivity. }
  unfold ChooseMove. rewrite !findImmediate_none by apply Hnone.
  rewrite !firstPlayable_none; [reflexivity | | ].
  - intros col Hin. apply Hno. apply elem_of_seqZ in Hin. lia.
  - intros col Hin. apply Hno. unfold preferred in Hin.
    repeat (apply elem_of_cons in Hin; destruct Hin as [-> | Hin];
            [unfold Columns; lia | ]).
    apply elem_of_nil in Hin. contradiction.
Qed.

(** ** The scans of [winningCoords] *)

Lemma check_out_of_bounds fuel board player dx dy r c coords :
  inBounds r c = false → check fuel board player dx dy r c coords = coords.
Proof. intros Hout. destruct fuel; cbn [check]; [ | rewrite Hout]; reflexivity. Qed.

Lemma check_fuel_rows board player dy fuel :
  ∀ fuel' r c coords,
    (fuel <= fuel')%nat → Rows - r < Z.of_nat fuel →
    check fuel' board player 1 dy r c coords
    = check fuel board player 1 dy r c coords.
Proof.
  induction fuel as [ | fuel IH]; intros fuel' r c coords Hle Hr.
  - rewrite !check_out_of_bounds; [reflexivity | | ];
      unfold inBounds, Rows in *; lia.
  - destruct fuel' as [ | fuel']; [lia | ]. cbn [check].
    destruct (inBounds r c) eqn:Hin; [ | reflexivity].
    destruct (negb (get board r c =? player)); [reflexivity | ].
    apply IH; [lia | ].
    unfold add64. rewrite wrap64_small; unfold inBounds, Rows in *; lia.
Qed.

Lemma check_fuel_columns board player fuel :
  ∀ fuel' r c coords,
    (fuel <= fuel')%nat → Columns - c < Z.of_nat fuel →
    check fuel' board player 0 1 r c coords
    = check fuel board player 0 1 r c coords.
Proof.
  induction fuel as [ | fuel IH]; intros fuel' r c coords Hle Hc.
  - rewrite !check_out_of_bounds; [reflexivity | | ];
      unfold inBounds, Columns in *; lia.
  - destruct fuel' as [ | fuel']; [lia | ]. cbn [check].
    destruct (inBounds r c) eqn:Hin; [ | reflexivity].
    destruct (negb (get board r c =? player)); [reflexivity | ].
    apply IH; [lia | ].
    unfold add64. rewrite wrap64_small; unfold inBounds, Columns in *; lia.
Qed.

(** In the four directions of [evaluate] a scan has left the grid before
    [scanFuel] iterations: more iterations give the same slice. *)
Lemma check_fuel_irrelevant board player d fuel r c coords :
  d ∈ directions → (scanFuel <= fuel)%nat →
  check fuel board player (fst d) (snd d) r c coords
  = check scanFuel board player (fst d) (snd d) r c coords.
Proof.
  intros Hd Hfuel.
  destruct (inBounds r c) eqn:Hin;
    [ | rewrite !check_out_of_bounds by exact Hin; reflexivity].
  unfold directions in Hd.
  repeat (apply elem_of_cons in Hd; destruct Hd as [-> | Hd]);
    [ | | | | apply elem_of_nil in Hd; contradiction]; cbn [fst snd].
  - apply check_fuel_rows; [exact Hfuel | ].
    unfold inBounds, Rows, scanFuel in *; lia.
  - apply check_fuel_columns; [exact Hfuel | ].
    unfold inBounds, Columns, scanFuel in *; lia.
  - apply check_fuel_rows; [exact Hfuel | ].
    unfold inBounds, Rows, scanFuel in *; lia.
  - apply check_fuel_rows; [exact Hfuel | ].
    unfold inBounds, Rows, scanFuel in *; lia.
Qed.

(** ** Win and draw detection *)

Lemma evaluate_isDraw_true cols board :
  evaluate_isDraw cols board = true
  ↔ ∀ c, c ∈ cols → get board 0 c ≠ CellEmpty.
Proof.
  induction cols as [ | c cols IH]; cbn [evaluate_isDraw].
  - split; [intros _ c Hc; apply elem_of_nil in Hc; contradiction | reflexivity].
  - destruct (get board 0 c =? CellEmpty) eqn:Hcell.
    + apply Z.eqb_eq in Hcell. split; [discriminate | ].
      intros Hall. exfalso. apply (Hall c); [left | exact Hcell].
    + apply Z.eqb_neq in Hcell. rewrite IH. split.
      * intros Hall x Hx. apply elem_of_cons in Hx.
        destruct Hx as [-> | Hx]; [exact Hcell | apply Hall, Hx].
      * intros Hall x Hx. apply Hall. right. exact Hx.
Qed.

(** The draw flag of [evaluate]: set when none of the four scans yields
    four coordinates and the top row has no empty cell; the outcome then
    names no winner. *)
Lemma evaluate_draw_flag board row col player :
  MoveResult.IsDraw (evaluate board row col player) = true
  ↔ evaluate_directions directions board row col player = None
    ∧ ∀ c, 0 <= c < Columns → get board 0 c ≠ CellEmpty.
Proof.
  unfold evaluate.
  destruct (evaluate_directions directions board row col player) as [cs | ];
    cbn [MoveResult.IsDraw].
  - split; [discriminate | intros [H _]; discriminate H].
  - rewrite evaluate_isDraw_true. split.
    + intros Hall. split; [reflexivity | ].
      intros c Hc. apply Hall, elem_of_seqZ. lia.
    + intros [_ Hall] c Hc. apply Hall. apply elem_of_seqZ in Hc. lia.
Qed.

Lemma evaluate_no_winner_no_draw board row col player :
  evaluate_directions directions board row col player = None →
  MoveResult.Winner (evaluate board row col player) = 0
  ∧ MoveResult.Winning (evaluate board row col player) = [].
Proof. intros Hnone. unfold evaluate. rewrite Hnone. split; reflexivity. Qed.

(** C1 (defect of the code): the first player holds cells (5,0), (5,1)
    and (5,2) and plays column 3.  The move completes the run (5,0) ..
    (5,3) of four, and [ApplyMove] reports no winner and no coordinates:
    the second scan of [winningCoords] starts one cell behind the placed
    cell and then walks forward again, so a run that extends behind the
    placed cell by more than one cell is not counted. *)
Theorem ApplyMove_misses_run_behind :
  ∃ b' res,
    ApplyMove threeInARow 3 CellP1 = (b', res, None)
    ∧ undecided zeroBoard CellP1 threeInARowMoves = true
    ∧ lowestEmpty threeInARow 3 5
    ∧ runThrough b' CellP1 5 3 0 1 (-3) 0
    ∧ MoveResult.Winner res = 0
    ∧ MoveResult.Winning res = []
    ∧ MoveResult.IsDraw res = false
    ∧ winningCoords b' 5 3 CellP1 0 1 = []
    ∧ check scanFuel b' CellP1 0 1 5 2 [(5, 3)] = [(5, 3); (5, 2); (5, 3)].
Proof.
  eexists _, _. split; [vm_compute; reflexivity | ].
  split; [vm_compute; reflexivity | ].
  split.
  { split; [unfold Rows; lia | split; [reflexivity | ]].
    intros r Hr. unfold Rows in Hr. lia. }
  split.
  { split; [lia | ]. intros k Hk.
    assert (k = -3 ∨ k = -2 ∨ k = -1 ∨ k = 0) as Hcase by lia.
    destruct Hcase as [-> | [-> | [-> | ->]]]; split; reflexivity. }
  repeat split; vm_compute; reflexivity.
Qed.

(** C9 (defect of the code): the second player fills the last cell,
    (0,2), of a grid; the full grid holds no line of four, and
    [ApplyMove] reports the second player as the winner and no draw.
    The placed cell has a cell of the same mark on either side, which
    the two scans of [winningCoords] count as five coordinates. *)
Theorem ApplyMove_full_grid_reports_winner :
  ∃ b' res,
    ApplyMove lastCellOpen 2 CellP2 = (b', res, None)
    ∧ undecided zeroBoard CellP1 lastCellOpenMoves = true
    ∧ (∀ r c, 0 <= r < Rows → 0 <= c < Columns → get b' r c ≠ CellEmpty)
    ∧ hasLineOfFour b' = false
    ∧ MoveResult.Winner res = CellP2
    ∧ MoveResult.IsDraw res = false
    ∧ MoveResult.Winning res = [(0, 2); (0, 3); (0, 1); (0, 2); (0, 3)].
Proof.
  eexists _, _. split; [vm_compute; reflexivity | ].
  split; [vm_compute; reflexivity | ].
  split.
  { intros r c Hr Hc. split_row r; split_col c; vm_compute; discriminate. }
  repeat split; vm_compute; reflexivity.
Qed.

(** C7 (defect of the code): the rules of [ChooseMove] rest on
    [findImmediate], which takes the report of the grid engine for an
    immediate win, and the report is wrong in both ways (see C1 and
    C9).  Three games of a fallback session, the human on mark A, every
    earlier move of the opponent being its own choice, show it.
    (1) The opponent holds (3,3), (4,3), (5,3) and column 3 completes
    its line of four; it returns column 2, which completes nothing.
    (2) The human holds (5,3), (5,4), (5,5) and column 6 is the only
    column that completes a line of four; the opponent has no winning
    move and returns column 3, and after its reply column 6 still
    completes the human's line.  (3) No column completes a line of four
    for either mark and column 3 is playable; the opponent returns
    column 1. *)
Theorem ChooseMove_overlooks_lines_of_four :
  (undecided zeroBoard CellP1 ownWinOpenMoves = true
   ∧ opponentChose zeroBoard ownWinOpenMoves = true
   ∧ completesFour ownWinOpen CellP2 3 = true
   ∧ completesFour ownWinOpen CellP2 2 = false
   ∧ ChooseMove (NewBot CellP2) ownWinOpen = 2)
  ∧ (undecided zeroBoard CellP1 openThreatMoves = true
     ∧ opponentChose zeroBoard openThreatMoves = true
     ∧ (∀ col, 0 <= col < Columns →
               completesFour openThreat CellP2 col = false)
     ∧ (∀ col, 0 <= col < Columns →
               completesFour openThreat CellP1 col = true ↔ col = 6)
     ∧ ChooseMove (NewBot CellP2) openThreat = 3
     ∧ ∃ m g,
         readPump_moves "alice" "g3" [3; 1; 4; 5] fallbackRegistry = Some m
         ∧ Manager.games m !! "g3" = Some g
         ∧ GameState.Status g = StatusActive
         ∧ GameState.Turn g = CellP1
         ∧ GameState.Board g = fst (fst (ApplyMove openThreat 3 CellP2))
         ∧ completesFour (GameState.Board g) CellP1 6 = true)
  ∧ (undecided zeroBoard CellP1 noThreatMoves = true
     ∧ opponentChose zeroBoard noThreatMoves = true
     ∧ (∀ col, 0 <= col < Columns →
               completesFour noThreat CellP1 col = false
               ∧ completesFour noThreat CellP2 col = false)
     ∧ canPlay noThreat 3 = true
     ∧ ChooseMove (NewBot CellP2) noThreat = 1).
Proof.
  split; [ | split].
  - repeat split; vm_compute; reflexivity.
  - split; [vm_compute; reflexivity | ].
    split; [vm_compute; reflexivity | ].
    split; [intros col Hcol; split_col col; vm_compute; reflexivity | ].
    split.
    { intros col Hcol. split.
      - split_col col; vm_compute; intros H; first [reflexivity | discriminate H].
      - intros ->. vm_compute. reflexivity. }
    split; [vm_compute; reflexivity | ].
    eexists _, _. split; [vm_compute; reflexivity | ].
    split; [vm_compute; reflexivity | ].
    repeat split; vm_compute; reflexivity.
  - split; [vm_compute; reflexivity | ].
    split; [vm_compute; reflexivity | ].
    split; [intros col Hcol; split_col col; split; vm_compute; reflexivity | ].
    split; vm_compute; reflexivity.
Qed.

Lemma ChooseMove_full_grid_witness :
  ChooseMove (NewBot CellP2) (fst (fst (ApplyMove lastCellOpen 2 CellP2))) = 0.
Proof.
  apply ChooseMove_full_grid.
  intros col Hcol. split_col col; vm_compute; discriminate.
Defined.

(** ** The registry: [HandleMove] *)

Lemma withBoard_same g : withBoard g (GameState.Board g) = g.
Proof. destruct g; reflexivity. Qed.

Lemma withGames_same m : withGames m (Manager.games m) = m.
Proof. destruct m; reflexivity. Qed.

Lemma store_same m id g :
  Manager.games m !! id = Some g →
  withGames m (<[id := g]> (Manager.games m)) = m.
Proof. intros Hg. rewrite insert_id by exact Hg. apply withGames_same. Qed.

Lemma isFinished_true g :
  isFinished g = true ↔ GameState.Status g = StatusFinished.
Proof. unfold isFinished. apply bool_decide_eq_true. Qed.

Lemma isFinished_false g :
  isFinished g = false ↔ GameState.Status g ≠ StatusFinished.
Proof. unfold isFinished. apply bool_decide_eq_false. Qed.

Lemma findRemainingPlayer_valid g :
  findRemainingPlayer_returns g (findRemainingPlayer g).
Proof.
  unfold findRemainingPlayer, findRemainingPlayer_returns.
  destruct (filter _ (map_to_list (GameState.Players g))) as [ | kv rest]
    eqn:Hfilter.
  - right. split; [ | reflexivity]. intros n p Hp.
    destruct (Player.IsBot p) eqn:Hbot; [reflexivity | exfalso].
    assert ((n, p) ∈ filter (λ kv, Player.IsBot (snd kv) = false)
                            (map_to_list (GameState.Players g))) as Hin.
    { apply list_elem_of_filter. split; [exact Hbot | ].
      apply elem_of_map_to_list. exact Hp. }
    rewrite Hfilter in Hin. apply elem_of_nil in Hin. exact Hin.
  - left. assert (kv ∈ filter (λ kv, Player.IsBot (snd kv) = false)
                              (map_to_list (GameState.Players g))) as Hin
      by (rewrite Hfilter; left).
    apply list_elem_of_filter in Hin. destruct Hin as [Hbot Hin].
    destruct kv as [n p]. apply elem_of_map_to_list in Hin.
    exists p. split; assumption.
Qed.

(** C3, as worded, fails: a move by an outsider on a finished session is
    answered with [ErrGameFinished], the status being tested before the
    participant. *)
Lemma rejectsOutsider_counterexample :
  reachable forfeitedRegistry
  ∧ errorOf (HandleMove 0 0 (Move.mk "carol" "g1" 3) forfeitedRegistry)
    = Some ErrGameFinished
  ∧ ¬ rejectsOutsider 0 0 (Move.mk "carol" "g1" 3) forfeitedRegistry.
Proof.
  split; [ | split].
  - apply reach_SweepDisconnects; [exact findRemainingPlayer_valid | ].
    apply reach_AssignPlayer, reach_AssignPlayer, reach_NewManager.
  - vm_compute. reflexivity.
  - intros H.
    assert (∃ g, Manager.games forfeitedRegistry !! "g1" = Some g
                 ∧ GameState.Players g !! "carol" = None) as (g & Hg & Hout).
    { eexists. split; vm_compute; reflexivity. }
    specialize (H g Hg Hout). vm_compute in H. discriminate H.
Qed.

(** C3 (amended): [HandleMove] returns [ErrInvalidTurn] when the session
    id is unknown and, for a session that is not finished, when the
    identity is not a participant of it or when it is not the turn of
    the participant's mark; it returns [ErrGameFinished] whenever the
    session exists and is finished, whoever moves; an error of the grid
    engine is returned as it is.  In every error case the registry, and
    with it the grid, status, turn, winner and timestamps of the
    session, is the same after the call, no callback is called and the
    outcome is the zero [MoveResult]. *)
Theorem HandleMove_errors (tLast tEnd : Z) (move : Move.t) (m : Manager.t) :
  ∀ m' res session err calls,
    HandleMove tLast tEnd move m = (m', (res, session, err), calls) →
    (Manager.games m !! Move.GameID move = None →
     err = Some ErrInvalidTurn ∧ session = None)
    ∧ (∀ g, Manager.games m !! Move.GameID move = Some g →
            GameState.Status g = StatusFinished →
            err = Some ErrGameFinished)
    ∧ (∀ g, Manager.games m !! Move.GameID move = Some g →
            GameState.Status g ≠ StatusFinished →
            GameState.Players g !! Move.Username move = None →
            err = Some ErrInvalidTurn)
    ∧ (∀ g p, Manager.games m !! Move.GameID move = Some g →
              GameState.Status g ≠ StatusFinished →
              GameState.Players g !! Move.Username move = Some p →
              GameState.Turn g ≠ Player.Slot p →
              err = Some ErrInvalidTurn)
    ∧ (∀ g p, Manager.games m !! Move.GameID move = Some g →
              GameState.Status g ≠ StatusFinished →
              GameState.Players g !! Move.Username move = Some p →
              GameState.Turn g = Player.Slot p →
              err = snd (ApplyMove (GameState.Board g) (Move.Column move)
                                   (Player.Slot p)))
    ∧ (err ≠ None → m' = m ∧ calls = [] ∧ res = MoveResult.zero).
Proof.
  intros m' res session err calls Heq. unfold HandleMove in Heq.
  destruct (Manager.games m !! Move.GameID move) as [g | ] eqn:Hgame.
  2:{ inversion Heq; subst. repeat split; intros; simplify_eq. }
  destruct (isFinished g) eqn:Hfin.
  { apply isFinished_true in Hfin. inversion Heq; subst.
    repeat split; intros; simplify_eq; reflexivity. }
  apply isFinished_false in Hfin.
  destruct (GameState.Players g !! Move.Username move) as [p | ] eqn:Hplayer.
  2:{ inversion Heq; subst. repeat split; intros; simplify_eq; reflexivity. }
  destruct (GameState.Turn g =? Player.Slot p) eqn:Hturn; cbn [negb] in Heq.
  2:{ apply Z.eqb_neq in Hturn. inversion Heq; subst.
      repeat split; intros; simplify_eq; reflexivity. }
  apply Z.eqb_eq in Hturn.
  destruct (ApplyMove (GameState.Board g) (Move.Column move) (Player.Slot p))
    as [[b' r] e] eqn:Happly.
  destruct e as [e | ].
  - destruct (ApplyMove_error_unchanged _ _ _ _ _ _ Happly) as (-> & _ & _).
    rewrite withBoard_same in Heq. rewrite (store_same m _ g Hgame) in Heq.
    inversion Heq; subst.
    repeat split; intros; simplify_eq; try reflexivity.
    rewrite Happly. reflexivity.
  - assert (err = None) as ->.
    { destruct (negb (MoveResult.Winner r =? 0));
        [inversion Heq; reflexivity | ].
      destruct (MoveResult.IsDraw r); inversion Heq; reflexivity. }
    repeat split; intros; simplify_eq; try contradiction.
    rewrite Happly. reflexivity.
Qed.

Lemma HandleMove_errors_witness :
  errorOf (HandleMove 1 1 (Move.mk "bob" "g1" 3) pairedRegistry)
  = Some ErrInvalidTurn
  ∧ fst (fst (HandleMove 1 1 (Move.mk "bob" "g1" 3) pairedRegistry))
    = pairedRegistry
  ∧ errorOf (HandleMove 1 1 (Move.mk "bob" "g7" 3) pairedRegistry)
    = Some ErrInvalidTurn.
Proof.
  destruct (HandleMove 1 1 (Move.mk "bob" "g1" 3) pairedRegistry)
    as [[m1 [[res1 session1] err1]] calls1] eqn:Hturn.
  destruct (HandleMove 1 1 (Move.mk "bob" "g7" 3) pairedRegistry)
    as [[m2 [[res2 session2] err2]] calls2] eqn:Hunknown.
  destruct (HandleMove_errors _ _ _ _ _ _ _ _ _ Hturn)
    as (_ & _ & _ & Hother & _ & Hsame).
  destruct (HandleMove_errors _ _ _ _ _ _ _ _ _ Hunknown) as (Hnone & _).
  assert (err1 = Some ErrInvalidTurn) as Herr.
  { eapply Hother.
    - vm_compute. reflexivity.
    - vm_compute. discriminate.
    - vm_compute. reflexivity.
    - vm_compute. discriminate. }
  unfold errorOf. cbn [fst snd]. split; [exact Herr | split].
  - apply Hsame. rewrite Herr. discriminate.
  - apply Hnone. vm_compute. reflexivity.
Defined.

(** ** The registry: pairing *)

Lemma HandleMove_waiting tLast tEnd move m :
  Manager.waiting (fst (fst (HandleMove tLast tEnd move m)))
  = Manager.waiting m.
Proof.
  unfold HandleMove.
  destruct (Manager.games m !! Move.GameID move) as [g | ]; [ | reflexivity].
  destruct (isFinished g); [reflexivity | ].
  destruct (GameState.Players g !! Move.Username move) as [p | ];
    [ | reflexivity].
  destruct (negb (GameState.Turn g =? Player.Slot p)); [reflexivity | ].
  destruct (ApplyMove _ _ _) as [[b' r] [e | ]]; [reflexivity | ].
  destruct (negb (MoveResult.Winner r =? 0)); [reflexivity | ].
  destruct (MoveResult.IsDraw r); reflexivity.
Qed.

(** The waiting slot of a registry holds an entry made by [AssignPlayer]:
    mark A, not algorithmic. *)
Lemma reachable_waiting m :
  reachable m →
  ∀ w, Manager.waiting m = Some w →
       Player.Slot w = CellP1 ∧ Player.IsBot w = false.
Proof.
  induction 1 as [ w f | gid t1 t2 u m _ IH | gid t1 t2 u m _ IH
                 | t1 t2 mv m _ IH | u m _ IH | now u m _ IH
                 | pick now m _ _ IH ]; intros w' Hw'.
  - discriminate Hw'.
  - unfold AssignPlayer in Hw'.
    destruct (rejoinGame m u); [exact (IH _ Hw') | ].
    destruct (Manager.waiting m) as [opp | ]; cbn in Hw'.
    + discriminate Hw'.
    + inversion Hw'; subst. split; reflexivity.
  - unfold StartBotGame in Hw'.
    destruct (rejoinGame m u); exact (IH _ Hw').
  - rewrite HandleMove_waiting in Hw'. exact (IH _ Hw').
  - unfold Abandon in Hw'. cbn in Hw'.
    destruct (Manager.waiting m) as [opp | ] eqn:Hopp; cbn in Hw'.
    + destruct (bool_decide (Player.Username opp = u)); cbn in Hw';
        [discriminate Hw' | ].
      rewrite Hopp in Hw'. exact (IH _ Hw').
    + rewrite Hopp in Hw'. discriminate Hw'.
  - unfold MarkDisconnected in Hw'.
    destruct (Manager.userToGame m !! u) as [id | ]; [ | exact (IH _ Hw')].
    destruct (Manager.games m !! id); exact (IH _ Hw').
  - exact (IH _ Hw').
Qed.

(** C5: on a registry in which a distinct identity is waiting,
    [AssignPlayer] for a new identity creates an active session under a
    new id, with the waiting identity on mark A and the new identity on
    mark B, turn A, the empty grid and no winner; both identities are
    mapped to the session in the index, the waiting slot is cleared and
    the call returns the session, the participant of the new identity
    and [false].  When no one is waiting, the identity becomes the
    waiting entry and the call returns [true] and no session. *)
Theorem AssignPlayer_pairs (gid : string) (tStart tLast : Z) (u : string)
    (m : Manager.t) :
  reachable m → rejoinGame m u = None →
  (∀ w, Manager.waiting m = Some w → Player.Username w ≠ u →
        ∃ game m',
          AssignPlayer gid tStart tLast u m
          = (m', (Some game, Some (Player.mk u CellP2 false), false))
          ∧ game
            = GameState.mk gid zeroBoard StatusActive EmptyString tStart 0 CellP1 tLast
                (<[u := Player.mk u CellP2 false]>
                   {[Player.Username w := w]}) None
          ∧ Player.Slot w = CellP1
          ∧ GameState.Players game !! Player.Username w = Some w
          ∧ GameState.Players game !! u = Some (Player.mk u CellP2 false)
          ∧ dom (GameState.Players game) = {[Player.Username w; u]}
          ∧ Manager.games m' !! gid = Some game
          ∧ Manager.userToGame m' !! u = Some gid
          ∧ Manager.userToGame m' !! Player.Username w = Some gid
          ∧ Manager.waiting m' = None)
  ∧ (Manager.waiting m = None →
     AssignPlayer gid tStart tLast u m
     = (withWaiting m (Some (Player.mk u CellP1 false)),
        (None, Some (Player.mk u CellP1 false), true))).
Proof.
  intros Hreach Hnew. split.
  - intros w Hw Hdistinct.
    destruct (reachable_waiting m Hreach w Hw) as [Hslot _].
    unfold AssignPlayer. rewrite Hnew, Hw. cbn.
    eexists _, _. split.
    { rewrite lookup_insert_eq. reflexivity. }
    split; [reflexivity | ]. split; [exact Hslot | ]. cbn.
    split.
    { rewrite lookup_insert_ne by congruence. apply lookup_insert_eq. }
    split; [apply lookup_insert_eq | ].
    split.
    { rewrite !dom_insert_L, dom_empty_L, union_empty_r_L.
      apply union_comm_L. }
    split; [apply lookup_insert_eq | ].
    split.
    { rewrite lookup_insert_ne by exact Hdistinct. apply lookup_insert_eq. }
    split; [apply lookup_insert_eq | reflexivity].
  - intros Hw. unfold AssignPlayer. rewrite Hnew, Hw. reflexivity.
Qed.

Lemma AssignPlayer_pairs_witness :
  snd (AssignPlayer "g0" 0 0 "alice" (NewManager 30000000000 true))
  = (None, Some (Player.mk "alice" CellP1 false), true)
  ∧ ∃ game m',
      AssignPlayer "g1" 5 6 "bob" waitingRegistry
      = (m', (Some game, Some (Player.mk "bob" CellP2 false), false))
      ∧ GameState.Turn game = CellP1
      ∧ GameState.Players game !! "alice"
        = Some (Player.mk "alice" CellP1 false)
      ∧ Manager.waiting m' = None.
Proof.
  split.
  - destruct (AssignPlayer_pairs "g0" 0 0 "alice"
                (NewManager 30000000000 true)
                (reach_NewManager _ _) eq_refl) as [_ Hfirst].
    rewrite (Hfirst eq_refl). reflexivity.
  - assert (reachable waitingRegistry) as Hreach
      by apply reach_AssignPlayer, reach_NewManager.
    destruct (AssignPlayer_pairs "g1" 5 6 "bob" waitingRegistry Hreach eq_refl)
      as [Hpair _].
    destruct (Hpair (Player.mk "alice" CellP1 false) eq_refl
                    ltac:(discriminate))
      as (game & m' & Heq & Hgame & _ & Halice & _ & _ & _ & _ & _ & Hwait).
    exists game, m'. split; [exact Heq | ].
    split; [rewrite Hgame; reflexivity | ].
    split; [exact Halice | exact Hwait].
Defined.

Lemma lonely_session g name p :
  GameState.Players g = {[name := p]} →
  Player.Slot p ≠ GameState.Turn g → ¬ turnNamesParticipant g.
Proof.
  intros Hplayers Hslot (name' & p' & Hp' & Hturn).
  rewrite Hplayers in Hp'. apply lookup_singleton_Some in Hp'.
  destruct Hp' as [_ <-]. contradiction.
Qed.

(** C6 (defect of the code): an identity that asks for a session twice
    while it waits is paired with itself.  The session holds one
    participant, on mark B, and its turn is mark A: the turn names no
    participant, and no move is ever accepted.  [StartBotGame] for the
    identity ["bot"] yields such a session as well. *)
Theorem AssignPlayer_self_pairing :
  ∃ m' game,
    AssignPlayer "g1" 1 1 "alice" waitingRegistry
    = (m', (Some game, Some (Player.mk "alice" CellP2 false), false))
    ∧ reachable m'
    ∧ Manager.games m' !! "g1" = Some game
    ∧ GameState.Status game = StatusActive
    ∧ GameState.Turn game = CellP1
    ∧ GameState.Players game = {["alice" := Player.mk "alice" CellP2 false]}
    ∧ ¬ turnNamesParticipant game
    ∧ errorOf (HandleMove 2 2 (Move.mk "alice" "g1" 3) m')
      = Some ErrInvalidTurn
    ∧ ¬ turnNamesParticipant
          (snd (StartBotGame "g2" 1 1 "bot" (NewManager 30000000000 true))).
Proof.
  eexists _, _. split; [vm_compute; reflexivity | ].
  split.
  { apply (reach_AssignPlayer "g1" 1 1 "alice" waitingRegistry).
    apply reach_AssignPlayer, reach_NewManager. }
  split; [vm_compute; reflexivity | ].
  split; [reflexivity | ]. split; [reflexivity | ].
  split; [vm_compute; reflexivity | ].
  split.
  { apply (lonely_session _ "alice" (Player.mk "alice" CellP2 false));
      [vm_compute; reflexivity | discriminate]. }
  split; [vm_compute; reflexivity | ].
  apply (lonely_session _ "bot" (Player.mk "bot" CellP2 true));
    [vm_compute; reflexivity | discriminate].
Qed.

(** ** The registry: [SweepDisconnects] *)

Lemma SweepDisconnects_lookup pick now m id :
  Manager.games (fst (SweepDisconnects pick now m)) !! id
  = (λ g, if isStale m now g then forfeit pick now g else g)
      <$> Manager.games m !! id.
Proof. unfold SweepDisconnects. cbn. apply lookup_fmap. Qed.

Lemma SweepDisconnects_config pick now m :
  Manager.reconnectAfter (fst (SweepDisconnects pick now m))
  = Manager.reconnectAfter m
  ∧ Manager.onFinish (fst (SweepDisconnects pick now m)) = Manager.onFinish m.
Proof. split; reflexivity. Qed.

Lemma callsFor_entries id (stale : GameState.t → bool)
    (change : GameState.t → GameState.t) (l : list (string * GameState.t)) :
  NoDup (fst <$> l) →
  (∀ g, (id, g) ∈ l →
        callsFor id ((λ kg : string * GameState.t, (fst kg, change (snd kg)))
                       <$> filter (λ kg, stale (snd kg) = true) l)
        = if stale g then [(id, change g)] else [])
  ∧ (id ∉ fst <$> l →
     callsFor id ((λ kg : string * GameState.t, (fst kg, change (snd kg)))
                    <$> filter (λ kg, stale (snd kg) = true) l)
     = []).
Proof.
  unfold callsFor.
  induction l as [ | [k g0] l IH]; intros Hnodup.
  - split; [intros g Hin; apply elem_of_nil in Hin; contradiction | reflexivity].
  - cbn [fmap list_fmap fst] in Hnodup. apply NoDup_cons in Hnodup.
    destruct Hnodup as [Hk Hnodup]. destruct (IH Hnodup) as [IHin IHout].
    assert (∀ rest,
              filter (λ call : FinishCall, fst call = id)
                     ((λ kg : string * GameState.t, (fst kg, change (snd kg)))
                        <$> filter (λ kg, stale (snd kg) = true)
                                   ((k, g0) :: rest))
              = (if decide (k = id)
                 then if stale g0 then [(k, change g0)] else []
                 else [])
                ++ filter (λ call : FinishCall, fst call = id)
                     ((λ kg : string * GameState.t, (fst kg, change (snd kg)))
                        <$> filter (λ kg, stale (snd kg) = true) rest))
      as Hcons.
    { intros rest. rewrite filter_cons. cbn [snd].
      destruct (stale g0) eqn:Hstale.
      - rewrite decide_True by reflexivity. rewrite fmap_cons, filter_cons.
        cbn [fst snd]. destruct (decide (k = id)); reflexivity.
      - rewrite decide_False by discriminate.
        destruct (decide (k = id)); reflexivity. }
    split.
    + intros g Hin. rewrite Hcons. apply elem_of_cons in Hin.
      destruct Hin as [Heq | Hin].
      * inversion Heq; subst. rewrite decide_True by reflexivity.
        rewrite (IHout Hk). apply app_nil_r.
      * assert (k ≠ id) as Hne.
        { intros ->. apply Hk. apply list_elem_of_fmap.
          exists (id, g). split; [reflexivity | exact Hin]. }
        rewrite decide_False by exact Hne. apply (IHin g Hin).
    + intros Hout. rewrite Hcons. cbn [fmap list_fmap fst] in Hout.
      apply not_elem_of_cons in Hout. destruct Hout as [Hne Hout].
      rewrite decide_False by congruence. apply (IHout Hout).
Qed.

Lemma callsFor_SweepDisconnects pick now m id :
  callsFor id (snd (SweepDisconnects pick now m))
  = if Manager.onFinish m then
      match Manager.games m !! id with
      | Some g => if isStale m now g then [(id, forfeit pick now g)] else []
      | None => []
      end
    else [].
Proof.
  unfold SweepDisconnects. cbn [snd].
  destruct (Manager.onFinish m); [ | reflexivity].
  destruct (callsFor_entries id (isStale m now) (forfeit pick now)
              (map_to_list (Manager.games m))
              (NoDup_fst_map_to_list _)) as [Hin Hout].
  destruct (Manager.games m !! id) as [g | ] eqn:Hg.
  - apply Hin. apply elem_of_map_to_list. exact Hg.
  - apply Hout. intros Hk. apply list_elem_of_fmap in Hk.
    destruct Hk as ([k g] & -> & Hk). apply elem_of_map_to_list in Hk.
    cbn [fst] in Hg. congruence.
Qed.

Lemma isStale_finished m now g :
  GameState.Status g = StatusFinished → isStale m now g = false.
Proof.
  intros Hfin. unfold isStale.
  rewrite (proj2 (isFinished_true g) Hfin). reflexivity.
Qed.

(** A finished session is left alone by every later sweep. *)
Lemma sweeps_finished pick id g nows :
  GameState.Status g = StatusFinished →
  ∀ m, Manager.games m !! id = Some g →
       callsFor id (snd (sweeps pick nows m)) = []
       ∧ Manager.games (fst (sweeps pick nows m)) !! id = Some g.
Proof.
  intros Hfin. induction nows as [ | now nows IH]; intros m Hg.
  - split; [reflexivity | exact Hg].
  - cbn [sweeps].
    pose proof (SweepDisconnects_lookup pick now m id) as Hlook.
    pose proof (callsFor_SweepDisconnects pick now m id) as Hcalls.
    rewrite Hg in Hlook, Hcalls. cbn [fmap option_fmap option_map] in Hlook.
    rewrite (isStale_finished m now g Hfin) in Hlook, Hcalls.
    destruct (SweepDisconnects pick now m) as [m1 calls1].
    cbn [fst snd] in Hlook, Hcalls.
    destruct (IH m1 Hlook) as [IHcalls IHlook].
    destruct (sweeps pick nows m1) as [m2 calls2].
    cbn [fst snd] in *. split; [ | exact IHlook].
    unfold callsFor in *. rewrite filter_app, IHcalls.
    destruct (Manager.onFinish m); rewrite Hcalls; reflexivity.
Qed.

(** C4, as worded, fails for a session without a human participant: the
    sweep names ["bot"] as its winner. *)
Lemma winnerAbsentWithoutHuman_counterexample :
  reachable botOnlyRegistry
  ∧ (∃ g', Manager.games
             (fst (SweepDisconnects findRemainingPlayer 31000000000
                     botOnlyRegistry)) !! "g2" = Some g'
           ∧ GameState.Winner g' = "bot")
  ∧ ¬ winnerAbsentWithoutHuman findRemainingPlayer 31000000000
        botOnlyRegistry "g2".
Proof.
  split; [apply reach_StartBotGame, reach_NewManager | ].
  split; [eexists; split; vm_compute; reflexivity | ].
  intros H.
  assert (∃ g, Manager.games botOnlyRegistry !! "g2" = Some g
               ∧ GameState.Players g
                 = {["bot" := Player.mk "bot" CellP2 true]}
               ∧ isStale botOnlyRegistry 31000000000 g = true)
    as (g & Hg & Hplayers & Hstale).
  { eexists. split; [vm_compute; reflexivity | ].
    split; vm_compute; reflexivity. }
  assert (∃ g', Manager.games
                  (fst (SweepDisconnects findRemainingPlayer 31000000000
                          botOnlyRegistry)) !! "g2" = Some g'
                ∧ GameState.Winner g' = "bot") as (g' & Hg' & Hwinner).
  { eexists. split; vm_compute; reflexivity. }
  specialize (H g g' Hg).
  rewrite H in Hwinner; [discriminate Hwinner | | exact Hstale | exact Hg'].
  intros n p Hp. rewrite Hplayers in Hp.
  apply lookup_singleton_Some in Hp. destruct Hp as [_ <-]. reflexivity.
Qed.

(** C4 (amended): a sweep turns every session that is not finished and
    whose last-activity age exceeds the reconnection window into a
    finished session with ended-at set to the instant of the sweep and
    the other fields as they were.  When the session has exactly one
    participant that is not algorithmic, this participant is the winner;
    when it has none, the winner is the identity ["bot"].  When a finish
    callback is installed it is called once for the session, with the
    finished session, and no later sweep calls it for this session again
    or changes the session. *)
Theorem SweepDisconnects_forfeits (pick : GameState.t → string) (now : Z)
    (m : Manager.t) (id : string) (g : GameState.t) :
  (∀ g, findRemainingPlayer_returns g (pick g)) →
  Manager.games m !! id = Some g →
  GameState.Status g ≠ StatusFinished →
  time_Sub now (GameState.LastMoveAt g) > Manager.reconnectAfter m →
  ∃ g' winner,
    Manager.games (fst (SweepDisconnects pick now m)) !! id = Some g'
    ∧ g' = withEndedAt (withWinner (withStatus g StatusFinished) winner) now
    ∧ GameState.Status g' = StatusFinished
    ∧ GameState.Winner g' = winner
    ∧ GameState.EndedAt g' = now
    ∧ (∀ name p,
         GameState.Players g !! name = Some p → Player.IsBot p = false →
         (∀ name' p', GameState.Players g !! name' = Some p' →
                      Player.IsBot p' = false → name' = name) →
         winner = name)
    ∧ ((∀ name p, GameState.Players g !! name = Some p →
                  Player.IsBot p = true) →
       winner = "bot")
    ∧ callsFor id (snd (SweepDisconnects pick now m))
      = (if Manager.onFinish m then [(id, g')] else [])
    ∧ ∀ pick' nows,
        callsFor id
          (snd (sweeps pick' nows (fst (SweepDisconnects pick now m)))) = []
        ∧ Manager.games
            (fst (sweeps pick' nows (fst (SweepDisconnects pick now m))))
          !! id = Some g'.
Proof.
  intros Hpick Hg Hstatus Hage.
  assert (isStale m now g = true) as Hstale.
  { unfold isStale. rewrite (proj2 (isFinished_false g) Hstatus).
    cbn [negb andb]. apply Z.gtb_lt. lia. }
  pose (winner := pick (withStatus g StatusFinished)).
  assert (findRemainingPlayer_returns g winner) as Hwinner.
  { exact (Hpick (withStatus g StatusFinished)). }
  assert (Manager.games (fst (SweepDisconnects pick now m)) !! id
          = Some (forfeit pick now g)) as Hlook.
  { rewrite SweepDisconnects_lookup, Hg.
    cbn [fmap option_fmap option_map]. rewrite Hstale. reflexivity. }
  exists (forfeit pick now g), winner.
  split; [exact Hlook | ]. split; [reflexivity | ].
  split; [reflexivity | ]. split; [reflexivity | ].
  split; [reflexivity | ].
  split.
  { intros name p Hp Hhuman Hsole.
    destruct Hwinner as [(p' & Hp' & Hhuman') | [Hbots _]].
    - exact (Hsole _ _ Hp' Hhuman').
    - rewrite (Hbots _ _ Hp) in Hhuman. discriminate Hhuman. }
  split.
  { intros Hbots.
    destruct Hwinner as [(p' & Hp' & Hhuman') | [_ Heq]]; [ | exact Heq].
    rewrite (Hbots _ _ Hp') in Hhuman'. discriminate Hhuman'. }
  split.
  { rewrite callsFor_SweepDisconnects, Hg, Hstale. reflexivity. }
  intros pick' nows. apply sweeps_finished; [reflexivity | exact Hlook].
Qed.

Lemma SweepDisconnects_forfeits_witness :
  ∃ g',
    Manager.games
      (fst (SweepDisconnects findRemainingPlayer 31000000000
              (fst (StartBotGame "g3" 0 0 "alice"
                      (NewManager 30000000000 true))))) !! "g3" = Some g'
    ∧ GameState.Status g' = StatusFinished
    ∧ GameState.Winner g' = "alice".
Proof.
  pose (m := fst (StartBotGame "g3" 0 0 "alice" (NewManager 30000000000 true))).
  pose (g := snd (StartBotGame "g3" 0 0 "alice" (NewManager 30000000000 true))).
  destruct (SweepDisconnects_forfeits findRemainingPlayer 31000000000 m "g3" g
              findRemainingPlayer_valid)
    as (g' & winner & Hlook & _ & Hstatus & Hw & _ & Hsole & _).
  - vm_compute. reflexivity.
  - vm_compute. discriminate.
  - vm_compute. reflexivity.
  - exists g'. split; [exact Hlook | ]. split; [exact Hstatus | ].
    rewrite Hw.
    apply (Hsole "alice" (Player.mk "alice" CellP1 false)).
    + vm_compute. reflexivity.
    + reflexivity.
    + intros name' p' Hp' Hhuman.
      change (GameState.Players g)
        with (<["bot" := Player.mk "bot" CellP2 true]>
                (<["alice" := Player.mk "alice" CellP1 false]>
                   (∅ : gmap string Player.t))) in Hp'.
      apply lookup_insert_Some in Hp'.
      destruct Hp' as [[_ <-] | [_ Hp']]; [discriminate Hhuman | ].
      apply lookup_insert_Some in Hp'.
      destruct Hp' as [[<- _] | [_ Hp']]; [reflexivity | ].
      rewrite lookup_empty in Hp'. discriminate Hp'.
Defined.

(** ** The turn of a session *)

Lemma bothMarks_turn g : bothMarks g → turnNamesParticipant g.
Proof.
  intros ((n1 & p1 & Hp1 & Hs1) & (n2 & p2 & Hp2 & Hs2) & [Ht | Ht]).
  - exists n1, p1. split; [exact Hp1 | congruence].
  - exists n2, p2. split; [exact Hp2 | congruence].
Qed.

Lemma bothMarks_ext g g' :
  GameState.Players g' = GameState.Players g →
  GameState.Turn g' = CellP1 ∨ GameState.Turn g' = CellP2 →
  bothMarks g → bothMarks g'.
Proof.
  intros Hplayers Hturn (H1 & H2 & _). unfold bothMarks, hasMark.
  rewrite Hplayers. split; [exact H1 | split; [exact H2 | exact Hturn]].
Qed.

Lemma allBothMarks_store m id g :
  allBothMarks m → bothMarks g →
  allBothMarks (withGames m (<[id := g]> (Manager.games m))).
Proof.
  intros Hall Hg id' g' Hlook. cbn in Hlook.
  apply lookup_insert_Some in Hlook.
  destruct Hlook as [[_ <-] | [_ Hlook]]; [exact Hg | exact (Hall _ _ Hlook)].
Qed.

(** The operations that create no session keep a participant on either
    mark and the turn on one of the two marks. *)
Lemma HandleMove_allBothMarks tLast tEnd move m :
  allBothMarks m → allBothMarks (fst (fst (HandleMove tLast tEnd move m))).
Proof.
  intros Hall. unfold HandleMove.
  destruct (Manager.games m !! Move.GameID move) as [g | ] eqn:Hg;
    [ | exact Hall].
  pose proof (Hall _ _ Hg) as Hboth.
  destruct (isFinished g); [exact Hall | ].
  destruct (GameState.Players g !! Move.Username move) as [p | ];
    [ | exact Hall].
  destruct (negb (GameState.Turn g =? Player.Slot p)); [exact Hall | ].
  destruct (ApplyMove _ _ _) as [[b' r] [e | ]]; cbn [fst].
  { apply allBothMarks_store; [exact Hall | ].
    apply (bothMarks_ext g); [reflexivity | apply Hboth | exact Hboth]. }
  destruct (negb (MoveResult.Winner r =? 0)); cbn [fst].
  { apply allBothMarks_store; [exact Hall | ].
    apply (bothMarks_ext g); [reflexivity | apply Hboth | exact Hboth]. }
  destruct (MoveResult.IsDraw r); cbn [fst].
  { apply allBothMarks_store; [exact Hall | ].
    apply (bothMarks_ext g); [reflexivity | apply Hboth | exact Hboth]. }
  apply allBothMarks_store; [exact Hall | ].
  apply (bothMarks_ext g); [ | | exact Hboth].
  - cbn. destruct (GameState.Turn g =? CellP1); reflexivity.
  - cbn. destruct (GameState.Turn g =? CellP1); [right | left]; reflexivity.
Qed.

Lemma SweepDisconnects_allBothMarks pick now m :
  allBothMarks m → allBothMarks (fst (SweepDisconnects pick now m)).
Proof.
  intros Hall id g' Hlook. rewrite SweepDisconnects_lookup in Hlook.
  destruct (Manager.games m !! id) as [g | ] eqn:Hg; [ | discriminate Hlook].
  cbn [fmap option_fmap option_map] in Hlook. inversion Hlook; subst g'.
  pose proof (Hall _ _ Hg) as Hboth.
  destruct (isStale m now g); [ | exact Hboth].
  apply (bothMarks_ext g); [reflexivity | apply Hboth | exact Hboth].
Qed.

Lemma MarkDisconnected_allBothMarks now u m :
  allBothMarks m → allBothMarks (MarkDisconnected now u m).
Proof.
  intros Hall. unfold MarkDisconnected.
  destruct (Manager.userToGame m !! u) as [id | ]; [ | exact Hall].
  destruct (Manager.games m !! id) as [g | ] eqn:Hg; [ | exact Hall].
  apply allBothMarks_store; [exact Hall | ].
  pose proof (Hall _ _ Hg) as Hboth.
  apply (bothMarks_ext g); [reflexivity | apply Hboth | exact Hboth].
Qed.

Lemma Abandon_allBothMarks u m : allBothMarks m → allBothMarks (Abandon u m).
Proof.
  intros Hall. unfold Abandon. cbn.
  destruct (Manager.waiting m) as [w | ]; [ | exact Hall].
  destruct (bool_decide (Player.Username w = u)); exact Hall.
Qed.

(** Pairing two distinct identities, and a fallback session for a human
    not called ["bot"], create a session with a participant on either
    mark. *)
Lemma AssignPlayer_allBothMarks gid t1 t2 u m :
  reachable m → allBothMarks m →
  (∀ w, Manager.waiting m = Some w → Player.Username w ≠ u) →
  allBothMarks (fst (AssignPlayer gid t1 t2 u m)).
Proof.
  intros Hreach Hall Hdistinct. unfold AssignPlayer.
  destruct (rejoinGame m u); [exact Hall | ].
  destruct (Manager.waiting m) as [w | ] eqn:Hw; [ | exact Hall].
  destruct (reachable_waiting m Hreach w Hw) as [Hslot _].
  specialize (Hdistinct w eq_refl).
  intros id g Hlook. cbn in Hlook. apply lookup_insert_Some in Hlook.
  destruct Hlook as [[_ <-] | [_ Hlook]]; [ | exact (Hall _ _ Hlook)].
  split; [ | split; [ | left; reflexivity]].
  - exists (Player.Username w), w. split; [ | exact Hslot]. cbn.
    rewrite lookup_insert_ne by congruence. apply lookup_insert_eq.
  - exists u, (Player.mk u CellP2 false). split; [ | reflexivity]. cbn.
    apply lookup_insert_eq.
Qed.

Lemma StartBotGame_allBothMarks gid t1 t2 human m :
  allBothMarks m → human ≠ "bot" →
  allBothMarks (fst (StartBotGame gid t1 t2 human m)).
Proof.
  intros Hall Hname. unfold StartBotGame.
  destruct (rejoinGame m human); [exact Hall | ].
  intros id g Hlook. cbn in Hlook. apply lookup_insert_Some in Hlook.
  destruct Hlook as [[_ <-] | [_ Hlook]]; [ | exact (Hall _ _ Hlook)].
  split; [ | split; [ | left; reflexivity]].
  - exists human, (Player.mk human CellP1 false). split; [ | reflexivity]. cbn.
    rewrite lookup_insert_ne by congruence. apply lookup_insert_eq.
  - exists "bot", (Player.mk "bot" CellP2 true). split; [ | reflexivity]. cbn.
    apply lookup_insert_eq.
Qed.

(** With two human participants either of them can be the winner of a
    forfeit: the loop of [findRemainingPlayer] returns the first one the
    map iteration meets. *)
Lemma findRemainingPlayer_either :
  ∃ g, Manager.games pairedRegistry !! "g1" = Some g
       ∧ findRemainingPlayer_returns g "alice"
       ∧ findRemainingPlayer_returns g "bob".
Proof.
  eexists. split; [vm_compute; reflexivity | ].
  split; left; eexists; split; vm_compute; reflexivity.
Qed.

(** * Further properties of the grid engine *)

Lemma check_app fuel board player dx dy :
  ∀ r c coords,
    check fuel board player dx dy r c coords
    = coords ++ check fuel board player dx dy r c [].
Proof.
  induction fuel as [ | fuel IH]; intros r c coords; cbn [check].
  - symmetry. apply app_nil_r.
  - destruct (inBounds r c); [ | symmetry; apply app_nil_r].
    destruct (negb (get board r c =? player)); [symmetry; apply app_nil_r | ].
    rewrite IH. rewrite (IH _ _ ([] ++ [(r, c)])).
    rewrite <- app_assoc. reflexivity.
Qed.

Lemma check_step fuel board player dx dy r c :
  check (S fuel) board player dx dy r c []
  = if own board player r c
    then (r, c) :: check fuel board player dx dy (add64 r dx) (add64 c dy) []
    else [].
Proof.
  cbn [check]. unfold own.
  destruct (inBounds r c); [ | reflexivity]. cbn [andb].
  destruct (get board r c =? player); cbn [negb]; [ | reflexivity].
  rewrite check_app. reflexivity.
Qed.

Lemma own_inBounds board player r c :
  own board player r c = true →
  0 <= r < Rows ∧ 0 <= c < Columns ∧ get board r c = player.
Proof.
  unfold own, inBounds. intros H.
  apply andb_true_iff in H. destruct H as [Hb Hcell].
  apply Z.eqb_eq in Hcell.
  repeat (apply andb_true_iff in Hb; destruct Hb as [Hb ?]).
  repeat split; try lia; exact Hcell.
Qed.

Lemma add64_step z d : 0 <= z < Columns → -1 <= d <= 1 → add64 z d = z + d.
Proof.
  intros Hz Hd. unfold add64. apply wrap64_small. unfold Columns in Hz. lia.
Qed.

Lemma sub64_step z d : 0 <= z < Columns → -1 <= d <= 1 → sub64 z d = z - d.
Proof.
  intros Hz Hd. unfold sub64. apply wrap64_small. unfold Columns in Hz. lia.
Qed.

(** Every coordinate a scan appends is a cell of the grid that holds the
    mark. *)
Lemma check_all_own fuel board player dx dy :
  ∀ r c, Forall (λ rc, own board player (fst rc) (snd rc) = true)
                (check fuel board player dx dy r c []).
Proof.
  induction fuel as [ | fuel IH]; intros r c; [constructor | ].
  rewrite check_step. destruct (own board player r c) eqn:Hown;
    [ | constructor].
  constructor; [exact Hown | apply IH].
Qed.

(** The length of the first scan, by the cells ahead. *)
Lemma scan_length fuel board player dx dy r c :
  -1 <= dx <= 1 → -1 <= dy <= 1 →
  let n := length (check (S (S (S fuel))) board player dx dy r c []) in
  (own board player r c = false → n = 0%nat)
  ∧ (own board player r c = true →
     own board player (r + dx) (c + dy) = false → n = 1%nat)
  ∧ (own board player r c = true →
     own board player (r + dx) (c + dy) = true →
     own board player (r + 2 * dx) (c + 2 * dy) = false → n = 2%nat)
  ∧ (own board player r c = true →
     own board player (r + dx) (c + dy) = true →
     own board player (r + 2 * dx) (c + 2 * dy) = true → (3 <= n)%nat).
Proof.
  intros Hdx Hdy n. subst n. rewrite check_step.
  destruct (own board player r c) eqn:H0.
  2:{ repeat split; intros; (reflexivity || discriminate). }
  destruct (own_inBounds _ _ _ _ H0) as (Hr & Hc & _).
  rewrite (add64_step r dx), (add64_step c dy)
    by (unfold Rows, Columns in *; lia).
  rewrite check_step.
  destruct (own board player (r + dx) (c + dy)) eqn:H1.
  2:{ repeat split; intros; (reflexivity || discriminate). }
  destruct (own_inBounds _ _ _ _ H1) as (Hr1 & Hc1 & _).
  rewrite (add64_step (r + dx) dx), (add64_step (c + dy) dy)
    by (unfold Rows, Columns in *; lia).
  replace (r + dx + dx) with (r + 2 * dx) by lia.
  replace (c + dy + dy) with (c + 2 * dy) by lia.
  rewrite check_step.
  destruct (own board player (r + 2 * dx) (c + 2 * dy)) eqn:H2.
  2:{ repeat split; intros; (reflexivity || discriminate). }
  repeat split; intros; try discriminate. cbn [length]. lia.
Qed.

(** Less fuel is enough for a scan that starts one step inside the
    grid. *)
Lemma check_enough board player d fuel fuel' r c coords :
  d ∈ directions → (fuel <= fuel')%nat →
  (if fst d =? 1 then Rows - r else Columns - c) < Z.of_nat fuel →
  check fuel' board player (fst d) (snd d) r c coords
  = check fuel board player (fst d) (snd d) r c coords.
Proof.
  intros Hd Hle Hmeasure. unfold directions in Hd.
  repeat (apply elem_of_cons in Hd; destruct Hd as [-> | Hd]);
    [ | | | | apply elem_of_nil in Hd; contradiction];
    cbn [fst snd] in *.
  - apply check_fuel_rows; [exact Hle | exact Hmeasure].
  - apply check_fuel_columns; [exact Hle | exact Hmeasure].
  - apply check_fuel_rows; [exact Hle | exact Hmeasure].
  - apply check_fuel_rows; [exact Hle | exact Hmeasure].
Qed.

Lemma direction_steps d :
  d ∈ directions →
  0 <= fst d <= 1 ∧ -1 <= snd d <= 1 ∧ (fst d = 1 ∨ (fst d = 0 ∧ snd d = 1)).
Proof.
  intros Hd. unfold directions in Hd.
  repeat (apply elem_of_cons in Hd; destruct Hd as [-> | Hd]);
    [ | | | | apply elem_of_nil in Hd; contradiction];
    cbn [fst snd]; lia.
Qed.

(** The number of coordinates the two scans collect around a placed
    cell: the placed cell, the run ahead and, when the cell behind holds
    the mark, that cell, the placed cell again and the run ahead again. *)
Lemma scans_length board player d row col :
  d ∈ directions → 0 <= row < Rows → 0 <= col < Columns →
  get board row col = player →
  let ahead :=
    check scanFuel board player (fst d) (snd d)
          (row + fst d) (col + snd d) [] in
  check scanFuel board player (fst d) (snd d)
        (sub64 row (fst d)) (sub64 col (snd d))
        (check scanFuel board player (fst d) (snd d)
               (add64 row (fst d)) (add64 col (snd d)) [(row, col)])
  = (row, col) :: ahead
    ++ (if own board player (row - fst d) (col - snd d)
        then (row - fst d, col - snd d) :: (row, col) :: ahead
        else []).
Proof.
  intros Hd Hrow Hcol Hcell ahead.
  destruct (direction_steps d Hd) as (Hdx & Hdy & Hshape).
  rewrite (add64_step row), (add64_step col), (sub64_step row),
    (sub64_step col) by (unfold Rows, Columns in *; lia).
  rewrite check_app. rewrite (check_app _ _ _ _ _ _ _ [(row, col)]).
  fold ahead. cbn [app]. f_equal. f_equal.
  unfold scanFuel. rewrite check_step.
  destruct (own board player (row - fst d) (col - snd d)) eqn:Hback;
    [ | reflexivity].
  destruct (own_inBounds _ _ _ _ Hback) as (Hr & Hc & _).
  rewrite (add64_step (row - fst d)), (add64_step (col - snd d))
    by (unfold Rows, Columns in *; lia).
  replace (row - fst d + fst d) with row by lia.
  replace (col - snd d + snd d) with col by lia.
  f_equal. rewrite check_step.
  assert (own board player row col = true) as ->.
  { unfold own, inBounds. rewrite Hcell, Z.eqb_refl.
    unfold Rows, Columns in *.
    repeat (apply andb_true_iff; split); lia. }
  f_equal.
  rewrite (add64_step row), (add64_step col)
    by (unfold Rows, Columns in *; lia).
  unfold ahead, scanFuel. symmetry.
  apply (check_enough board player d 6 8); [exact Hd | lia | ].
  destruct Hshape as [-> | [Hzero Hone]].
  - cbn. unfold Rows in *. lia.
  - rewrite Hzero, Hone in *. cbn. unfold Columns in *. lia.
Qed.

Lemma winningCoords_scans board row col player dx dy :
  winningCoords board row col player dx dy
  = let coords :=
      check scanFuel board player dx dy (sub64 row dx) (sub64 col dy)
        (check scanFuel board player dx dy (add64 row dx) (add64 col dy)
               [(row, col)]) in
    if 4 <=? Z.of_nat (length coords) then coords else [].
Proof. reflexivity. Qed.

Lemma winningCoords_length_detects board player d row col :
  d ∈ directions → 0 <= row < Rows → 0 <= col < Columns →
  get board row col = player →
  (4 <=? Z.of_nat
           (length (winningCoords board row col player (fst d) (snd d))))
  = detects board player row col (fst d) (snd d).
Proof.
  intros Hd Hrow Hcol Hcell.
  destruct (direction_steps d Hd) as (Hdx & Hdy & _).
  rewrite winningCoords_scans. cbv zeta.
  rewrite (scans_length board player d row col Hd Hrow Hcol Hcell).
  cbv zeta.
  destruct (scan_length 5 board player (fst d) (snd d)
              (row + fst d) (col + snd d) ltac:(lia) Hdy)
    as (F0 & F1 & F2 & F3).
  fold scanFuel in F0, F1, F2, F3.
  replace (row + fst d + fst d) with (row + 2 * fst d) in * by lia.
  replace (col + snd d + snd d) with (col + 2 * snd d) in * by lia.
  replace (row + fst d + 2 * fst d) with (row + 3 * fst d) in * by lia.
  replace (col + snd d + 2 * snd d) with (col + 3 * snd d) in * by lia.
  unfold detects.
  set (ahead := check scanFuel board player (fst d) (snd d)
                      (row + fst d) (col + snd d) []) in *.
  assert (∀ l : list (Z * Z),
            (4 <=? Z.of_nat (length (if 4 <=? Z.of_nat (length l)
                                     then l else [])))
            = (4 <=? Z.of_nat (length l))) as Hif.
  { intros l. destruct (4 <=? Z.of_nat (length l)) eqn:Hl;
      [exact Hl | reflexivity]. }
  rewrite Hif. cbn [length]. rewrite length_app.
  destruct (own board player (row + fst d) (col + snd d)) eqn:H1;
    cbn [andb].
  - destruct (own board player (row - fst d) (col - snd d)) eqn:Hb;
      cbn [orb length].
    + assert (1 <= length ahead)%nat as Hone.
      { destruct (own board player (row + 2 * fst d) (col + 2 * snd d))
          eqn:H2;
          [ | rewrite (F1 eq_refl eq_refl); lia].
        destruct (own board player (row + 3 * fst d) (col + 3 * snd d))
          eqn:H3;
          [specialize (F3 eq_refl eq_refl eq_refl); lia
          | rewrite (F2 eq_refl eq_refl eq_refl); lia]. }
      apply Z.leb_le. lia.
    + destruct (own board player (row + 2 * fst d) (col + 2 * snd d)) eqn:H2;
        cbn [andb].
      * destruct (own board player (row + 3 * fst d) (col + 3 * snd d)) eqn:H3.
        -- specialize (F3 eq_refl eq_refl eq_refl). apply Z.leb_le. lia.
        -- specialize (F2 eq_refl eq_refl eq_refl). apply Z.leb_gt. lia.
      * specialize (F1 eq_refl eq_refl). apply Z.leb_gt. lia.
  - specialize (F0 eq_refl). rewrite F0.
    destruct (own board player (row - fst d) (col - snd d));
      cbn [length]; apply Z.leb_gt; lia.
Qed.

Lemma evaluate_directions_None ds board row col player :
  evaluate_directions ds board row col player = None
  ↔ ∀ d, d ∈ ds →
         (4 <=? Z.of_nat
                  (length (winningCoords board row col player (fst d) (snd d))))
         = false.
Proof.
  induction ds as [ | d ds IH]; cbn [evaluate_directions].
  - split; [intros _ d Hd; apply elem_of_nil in Hd; contradiction | reflexivity].
  - destruct (4 <=? Z.of_nat (length (winningCoords board row col player
                                                     (fst d) (snd d))))
      eqn:Hlen.
    + split; [discriminate | ]. intros Hall.
      rewrite (Hall d) in Hlen by left. discriminate Hlen.
    + rewrite IH. split.
      * intros Hall d' Hd'. apply elem_of_cons in Hd'.
        destruct Hd' as [-> | Hd']; [exact Hlen | apply Hall, Hd'].
      * intros Hall d' Hd'. apply Hall. right. exact Hd'.
Qed.

Lemma evaluate_directions_Some ds board row col player coords :
  evaluate_directions ds board row col player = Some coords →
  ∃ d, d ∈ ds
       ∧ coords = winningCoords board row col player (fst d) (snd d)
       ∧ 4 <= Z.of_nat (length coords).
Proof.
  induction ds as [ | d ds IH]; cbn [evaluate_directions]; [discriminate | ].
  destruct (4 <=? Z.of_nat (length (winningCoords board row col player
                                                   (fst d) (snd d))))
    eqn:Hlen.
  - intros Heq. inversion Heq; subst. exists d.
    split; [left | split; [reflexivity | apply Z.leb_le, Hlen]].
  - intros Heq. destruct (IH Heq) as (d' & Hd' & H1 & H2).
    exists d'. split; [right; exact Hd' | split; assumption].
Qed.

Lemma evaluate_winner_detects board row col player :
  0 <= row < Rows → 0 <= col < Columns →
  get board row col = player → player ≠ CellEmpty →
  MoveResult.Winner (evaluate board row col player) = player
  ↔ ∃ d, d ∈ directions
         ∧ detects board player row col (fst d) (snd d) = true.
Proof.
  intros Hrow Hcol Hcell Hplayer. unfold evaluate.
  destruct (evaluate_directions directions board row col player)
    as [coords | ] eqn:Hdirs; cbn [MoveResult.Winner].
  - split; [intros _ | reflexivity].
    destruct (evaluate_directions_Some _ _ _ _ _ _ Hdirs)
      as (d & Hd & -> & Hlen).
    exists d. split; [exact Hd | ].
    rewrite <- (winningCoords_length_detects board player d row col)
      by assumption.
    apply Z.leb_le, Hlen.
  - split.
    + intros Hzero. exfalso. apply Hplayer. symmetry. exact Hzero.
    + intros (d & Hd & Hdet). exfalso.
      rewrite <- (winningCoords_length_detects board player d row col)
        in Hdet by assumption.
      rewrite (proj1 (evaluate_directions_None _ _ _ _ _) Hdirs d Hd) in Hdet.
      discriminate Hdet.
Qed.

Lemma lowestEmpty_placed b col row player :
  0 <= col < Columns → lowestEmpty b col row →
  0 <= row < Rows ∧ get (set b row col player) row col = player.
Proof.
  intros Hcol (Hrow & _). split; [exact Hrow | ].
  apply get_set_eq; assumption.
Qed.

(** X1: what [ApplyMove] reports as a win.  An accepted move of a
    non-empty mark is reported as a win of that mark exactly when, in
    one of the four directions, the cell next to the placed cell holds
    the mark and either the cell on the opposite side holds it too or
    the next two cells in the direction do.  (Three in a row around the
    placed cell count as a win, four in a row ending in the placed cell
    count only along the direction of the scan.) *)
Theorem ApplyMove_reports_win_iff (b : Board) (col player row : Z) :
  0 <= col < Columns → lowestEmpty b col row → player ≠ CellEmpty →
  MoveResult.Winner (snd (fst (ApplyMove b col player))) = player
  ↔ ∃ d, d ∈ [(1, 0); (0, 1); (1, 1); (1, -1)]
         ∧ detects (set b row col player) player row col (fst d) (snd d)
           = true.
Proof.
  intros Hcol Hlow Hplayer.
  rewrite (ApplyMove_place b col player row Hcol Hlow). cbn [fst snd].
  destruct (lowestEmpty_placed b col row player Hcol Hlow) as [Hrow Hcell].
  apply evaluate_winner_detects; assumption.
Qed.

Lemma ApplyMove_reports_win_iff_witness :
  MoveResult.Winner (snd (fst (ApplyMove threeInARow 3 CellP1))) ≠ CellP1
  ∧ MoveResult.Winner (snd (fst (ApplyMove lastCellOpen 2 CellP2))) = CellP2.
Proof.
  split.
  - intros Hwin.
    apply (ApplyMove_reports_win_iff threeInARow 3 CellP1 5) in Hwin.
    + destruct Hwin as (d & Hd & Hdet).
      repeat (apply elem_of_cons in Hd; destruct Hd as [-> | Hd]);
        [ | | | | apply elem_of_nil in Hd; contradiction];
        vm_compute in Hdet; discriminate Hdet.
    + unfold Columns; lia.
    + split; [unfold Rows; lia | split; [reflexivity | ]].
      intros r Hr. unfold Rows in Hr. lia.
    + discriminate.
  - apply (ApplyMove_reports_win_iff lastCellOpen 2 CellP2 0).
    + unfold Columns; lia.
    + split; [unfold Rows; lia | split; [reflexivity | ]].
      intros r Hr. split_row r; try lia; vm_compute; discriminate.
    + discriminate.
    + exists (0, 1). split; [right; left | reflexivity].
Defined.

(** X2: a run of three ahead of the placed cell is always reported.
    When the three cells that follow the placed cell in one of the four
    directions (below it, to its right, diagonally below to the right
    or to the left) hold the mark, the move is reported as a win of the
    mark, with at least four coordinates; in particular a vertical four
    is always detected. *)
Theorem ApplyMove_run_ahead_wins (b : Board) (col player row : Z)
    (d : Z * Z) :
  0 <= col < Columns → lowestEmpty b col row → player ≠ CellEmpty →
  d ∈ [(1, 0); (0, 1); (1, 1); (1, -1)] →
  (∀ k, 1 <= k <= 3 →
        inBounds (row + k * fst d) (col + k * snd d) = true
        ∧ get b (row + k * fst d) (col + k * snd d) = player) →
  MoveResult.Winner (snd (fst (ApplyMove b col player))) = player
  ∧ 4 <= Z.of_nat (length (MoveResult.Winning
                             (snd (fst (ApplyMove b col player))))).
Proof.
  intros Hcol Hlow Hplayer Hd Hrun.
  assert (MoveResult.Winner (snd (fst (ApplyMove b col player))) = player)
    as Hwin.
  { rewrite (ApplyMove_place b col player row Hcol Hlow). cbn [fst snd].
    destruct (lowestEmpty_placed b col row player Hcol Hlow) as [Hrow' Hcell'].
    apply (evaluate_winner_detects _ _ _ _ Hrow' Hcol Hcell' Hplayer).
    exists d. split; [exact Hd | ].
    destruct (direction_steps d Hd) as (Hdx & Hdy & Hshape).
    destruct Hlow as (Hrow & _).
    assert (∀ k, 1 <= k <= 3 →
                 own (set b row col player) player
                     (row + k * fst d) (col + k * snd d) = true) as Hown.
    { intros k Hk. destruct (Hrun k Hk) as [Hin Hcell]. unfold own.
      rewrite Hin. cbn [andb]. apply Z.eqb_eq.
      rewrite get_set_ne; [exact Hcell | exact Hrow | exact Hcol | | | ].
      - unfold inBounds in Hin.
        repeat (apply andb_true_iff in Hin; destruct Hin as [Hin ?]). lia.
      - unfold inBounds in Hin.
        repeat (apply andb_true_iff in Hin; destruct Hin as [Hin ?]). lia.
      - intros Heq. inversion Heq as [[Heqr Heqc]].
        destruct Hshape as [Hs | [Hs0 Hs1]]; lia. }
    unfold detects.
    replace (row + fst d) with (row + 1 * fst d) by lia.
    replace (col + snd d) with (col + 1 * snd d) by lia.
    rewrite !Hown by lia. cbn [andb]. apply orb_true_r. }
  split; [exact Hwin | ].
  rewrite (ApplyMove_place b col player row Hcol Hlow) in Hwin |- *.
  cbn [fst snd] in Hwin |- *. unfold evaluate in Hwin |- *.
  destruct (evaluate_directions directions (set b row col player) row col
              player) as [coords | ] eqn:Hdirs;
    cbn [MoveResult.Winner MoveResult.Winning] in Hwin |- *.
  - destruct (evaluate_directions_Some _ _ _ _ _ _ Hdirs) as (_ & _ & _ & H).
    exact H.
  - exfalso. apply Hplayer. symmetry. exact Hwin.
Qed.

Lemma ApplyMove_run_ahead_wins_witness :
  MoveResult.Winner
    (snd (fst (ApplyMove
                 (fst (fst (playMoves zeroBoard CellP1 [3; 4; 3; 4; 3; 4])))
                 3 CellP1))) = CellP1.
Proof.
  refine (proj1 (ApplyMove_run_ahead_wins
                   (fst (fst (playMoves zeroBoard CellP1 [3; 4; 3; 4; 3; 4])))
                   3 CellP1 2 (1, 0) _ _ _ _ _)).
  - unfold Columns; lia.
  - split; [unfold Rows; lia | split; [reflexivity | ]].
    intros r Hr. unfold Rows in Hr.
    assert (r = 3 ∨ r = 4 ∨ r = 5) as [-> | [-> | ->]] by lia;
      vm_compute; discriminate.
  - discriminate.
  - left.
  - intros k Hk. assert (k = 1 ∨ k = 2 ∨ k = 3) as [-> | [-> | ->]] by lia;
      split; reflexivity.
Defined.

Lemma evaluate_isDraw_false cols board :
  evaluate_isDraw cols board = false →
  ∃ c, c ∈ cols ∧ get board 0 c = CellEmpty.
Proof.
  induction cols as [ | c cols IH]; cbn [evaluate_isDraw]; [discriminate | ].
  destruct (get board 0 c =? CellEmpty) eqn:Hcell.
  - intros _. exists c. split; [left | apply Z.eqb_eq, Hcell].
  - intros Hrest. destruct (IH Hrest) as (c' & Hin & Hc').
    exists c'. split; [right; exact Hin | exact Hc'].
Qed.

Lemma check_keeps_own fuel board player dx dy r c coords :
  Forall (λ rc, own board player (fst rc) (snd rc) = true) coords →
  Forall (λ rc, own board player (fst rc) (snd rc) = true)
         (check fuel board player dx dy r c coords).
Proof.
  intros Hcoords. rewrite check_app. apply Forall_app.
  split; [exact Hcoords | apply check_all_own].
Qed.

Lemma winningCoords_shape board row col player dx dy :
  own board player row col = true →
  4 <= Z.of_nat (length (winningCoords board row col player dx dy)) →
  head (winningCoords board row col player dx dy) = Some (row, col)
  ∧ Forall (λ rc, own board player (fst rc) (snd rc) = true)
           (winningCoords board row col player dx dy).
Proof.
  intros Hown Hlen. rewrite winningCoords_scans in Hlen |- *.
  cbv zeta in Hlen |- *.
  destruct (4 <=? Z.of_nat (length _)) eqn:Hfour;
    [ | cbn [length] in Hlen; lia].
  split.
  - rewrite check_app. rewrite (check_app _ _ _ _ _ _ _ [(row, col)]).
    reflexivity.
  - apply check_keeps_own, check_keeps_own.
    constructor; [exact Hown | constructor].
Qed.

(** X3: the shape of the outcome of an accepted move of a non-empty
    mark.  The outcome carries the grid after the move.  Either it names
    no winner and no coordinates, or it names the mover's mark, is not a
    draw and carries at least four coordinates, the first being the
    placed cell and each one a cell of the grid holding the mark.  A draw
    is flagged only when the top row has no empty cell; an outcome with
    neither winner nor draw leaves a column whose top cell is empty. *)
Theorem ApplyMove_outcome_shape (b : Board) (col player : Z) :
  ∀ b' res, player ≠ CellEmpty → ApplyMove b col player = (b', res, None) →
  ∃ row,
    lowestEmpty b col row
    ∧ MoveResult.Board res = b'
    ∧ ((MoveResult.Winner res = 0 ∧ MoveResult.Winning res = [])
       ∨ (MoveResult.Winner res = player
          ∧ MoveResult.IsDraw res = false
          ∧ 4 <= Z.of_nat (length (MoveResult.Winning res))
          ∧ head (MoveResult.Winning res) = Some (row, col)
          ∧ Forall (λ rc, own b' player (fst rc) (snd rc) = true)
                   (MoveResult.Winning res)))
    ∧ (MoveResult.IsDraw res = true →
       MoveResult.Winner res = 0
       ∧ ∀ c, 0 <= c < Columns → get b' 0 c ≠ CellEmpty)
    ∧ (MoveResult.IsDraw res = false → MoveResult.Winner res = 0 →
       ∃ c, 0 <= c < Columns ∧ get b' 0 c = CellEmpty).
Proof.
  intros b' res Hplayer Heq.
  destruct (ApplyMove_cases b col player)
    as [[_ H] | [(_ & _ & H) | (Hcol & row & Hlow & H)]];
    rewrite H in Heq; inversion Heq; subst. clear Heq.
  exists row. split; [exact Hlow | ].
  split; [apply evaluate_Board | ].
  destruct (lowestEmpty_placed b col row player Hcol Hlow) as [Hrow Hcell].
  assert (own (set b row col player) player row col = true) as Hown.
  { unfold own, inBounds. rewrite Hcell, Z.eqb_refl.
    unfold Rows, Columns in *. repeat (apply andb_true_iff; split); lia. }
  unfold evaluate.
  destruct (evaluate_directions directions (set b row col player) row col
              player) as [coords | ] eqn:Hdirs;
    cbn [MoveResult.Winner MoveResult.Winning MoveResult.IsDraw].
  - destruct (evaluate_directions_Some _ _ _ _ _ _ Hdirs)
      as (d & Hd & -> & Hlen).
    destruct (winningCoords_shape _ _ _ _ _ _ Hown Hlen) as [Hhead Hall].
    split; [right; repeat split; assumption | ].
    split; [discriminate | ]. intros _ Hzero. exfalso.
    apply Hplayer. exact Hzero.
  - split; [left; split; reflexivity | ]. split.
    + intros Hdraw. split; [reflexivity | ].
      intros c Hc.
      apply (proj1 (evaluate_isDraw_true _ _) Hdraw), elem_of_seqZ. lia.
    + intros Hdraw _. destruct (evaluate_isDraw_false _ _ Hdraw)
        as (c & Hin & Hc).
      exists c. split; [apply elem_of_seqZ in Hin; lia | exact Hc].
Qed.

Lemma ApplyMove_outcome_shape_witness :
  ∃ row, lowestEmpty zeroBoard 3 row
         ∧ MoveResult.Board (snd (fst (ApplyMove zeroBoard 3 CellP1)))
           = fst (fst (ApplyMove zeroBoard 3 CellP1)).
Proof.
  destruct (ApplyMove_outcome_shape zeroBoard 3 CellP1 _ _
              ltac:(discriminate) eq_refl) as (row & Hlow & Hboard & _).
  exists row. split; [exact Hlow | exact Hboard].
Defined.

(** ** Further properties of the opponent *)

Lemma findImmediate_true board player col :
  findImmediate board player = (col, true) →
  0 <= col < Columns ∧ winsAt board player col = true.
Proof.
  unfold findImmediate. rewrite findImmediate_cols_find.
  destruct (list_find _ (seqZ 0 Columns)) as [[i c] | ] eqn:Hfind;
    [ | discriminate].
  intros Heq. inversion Heq; subst c.
  apply list_find_Some in Hfind. destruct Hfind as (Hi & Hwin & _).
  split; [ | exact Hwin].
  apply lookup_seqZ in Hi. lia.
Qed.

Lemma firstPlayable_Some cols board col :
  firstPlayable cols board = Some col →
  col ∈ cols ∧ canPlay board col = true.
Proof.
  rewrite firstPlayable_find.
  destruct (list_find _ cols) as [[i c] | ] eqn:Hfind; [ | discriminate].
  cbn. intros Heq. inversion Heq; subst c.
  apply list_find_Some in Hfind. destruct Hfind as (Hi & Hplay & _).
  split; [ | exact Hplay].
  apply list_elem_of_lookup. exists i. exact Hi.
Qed.

Lemma firstPlayable_None cols board :
  firstPlayable cols board = None →
  ∀ col, col ∈ cols → canPlay board col = false.
Proof.
  rewrite firstPlayable_find.
  destruct (list_find _ cols) as [[i c] | ] eqn:Hfind; [discriminate | ].
  intros _ col Hin. apply list_find_None in Hfind.
  rewrite Forall_forall in Hfind. specialize (Hfind col Hin).
  destruct (canPlay board col); [contradiction | reflexivity].
Qed.

Lemma preferred_covers col : 0 <= col < Columns → col ∈ preferred.
Proof.
  intros Hcol. unfold preferred.
  split_col col; repeat first [left | right].
Qed.

Lemma preferred_in_range col : col ∈ preferred → 0 <= col < Columns.
Proof.
  unfold preferred. intros Hin.
  repeat (apply elem_of_cons in Hin; destruct Hin as [-> | Hin];
          [unfold Columns; lia | ]).
  apply elem_of_nil in Hin. contradiction.
Qed.

Lemma ChooseMove_choice (b : Bot.t) (board : Board) :
  0 <= ChooseMove b board < Columns
  ∧ ((∃ col, 0 <= col < Columns ∧ get board 0 col = CellEmpty) →
     get board 0 (ChooseMove b board) = CellEmpty
     ∧ ∀ mark, snd (ApplyMove board (ChooseMove b board) mark) = None).
Proof.
  assert (0 <= ChooseMove b board < Columns
          ∧ ((∃ col, 0 <= col < Columns ∧ get board 0 col = CellEmpty) →
             canPlay board (ChooseMove b board) = true)) as [Hrange Hplay].
  { unfold ChooseMove.
    destruct (findImmediate board (Bot.Player b)) as [move [ | ]] eqn:Hown.
    { destruct (findImmediate_true _ _ _ Hown) as [Hr Hw].
      split; [exact Hr | intros _].
      unfold winsAt in Hw. apply andb_true_iff in Hw. apply Hw. }
    destruct (findImmediate board (opponentOf (Bot.Player b)))
      as [move' [ | ]] eqn:Hadv.
    { destruct (findImmediate_true _ _ _ Hadv) as [Hr Hw].
      split; [exact Hr | intros _].
      unfold winsAt in Hw. apply andb_true_iff in Hw. apply Hw. }
    destruct (firstPlayable preferred board) as [col | ] eqn:Hpref.
    { destruct (firstPlayable_Some _ _ _ Hpref) as [Hin Hp].
      split; [apply preferred_in_range, Hin | intros _; exact Hp]. }
    pose proof (firstPlayable_None _ _ Hpref) as Hnone.
    destruct (firstPlayable (seqZ 0 Columns) board) as [col | ] eqn:Hseq.
    { destruct (firstPlayable_Some _ _ _ Hseq) as [Hin Hp].
      split; [apply elem_of_seqZ in Hin; lia | intros _; exact Hp]. }
    split; [unfold Columns; lia | ].
    intros (col & Hcol & Hempty). exfalso.
    specialize (Hnone col (preferred_covers col Hcol)).
    unfold canPlay in Hnone. apply Z.eqb_neq in Hnone. contradiction. }
  split; [exact Hrange | ]. intros Hsome.
  specialize (Hplay Hsome). unfold canPlay in Hplay.
  apply Z.eqb_eq in Hplay. split; [exact Hplay | ]. intros mark.
  destruct (top_empty_lowestEmpty board _ Hrange Hplay) as [row Hlow].
  rewrite (ApplyMove_place board _ mark row Hrange Hlow). reflexivity.
Qed.

(** X4: [ChooseMove] always returns a column of the grid, and as long as
    some column has an empty top cell it returns such a column: the move
    it chooses is accepted by [ApplyMove], whatever the mark. *)
Theorem ChooseMove_playable (b : Bot.t) (board : Board) :
  0 <= ChooseMove b board < Columns
  ∧ ((∃ col, 0 <= col < Columns ∧ get board 0 col = CellEmpty) →
     get board 0 (ChooseMove b board) = CellEmpty
     ∧ ∀ mark, snd (ApplyMove board (ChooseMove b board) mark) = None).
Proof. apply ChooseMove_choice. Qed.

Lemma ChooseMove_playable_witness :
  get floatingBoard 0 (ChooseMove (NewBot CellP2) floatingBoard) = CellEmpty.
Proof.
  destruct (ChooseMove_playable (NewBot CellP2) floatingBoard) as [_ Hplay].
  apply Hplay. exists 3. split; [unfold Columns; lia | reflexivity].
Defined.

(** X5: every grid built from the empty grid by moves of non-empty
    marks is without floating discs; on a grid without floating discs
    [ApplyMove] accepts a move into a column of the grid exactly when
    [canPlay] holds for the column, and the grid after a move of a
    non-empty mark has no floating disc either. *)
Theorem ApplyMove_accepts_iff_canPlay (b : Board) (col mark : Z) :
  (played b → settled b)
  ∧ (settled b → 0 <= col < Columns →
     (snd (ApplyMove b col mark) = None ↔ canPlay b col = true)
     ∧ (mark ≠ CellEmpty → settled (fst (fst (ApplyMove b col mark))))).
Proof.
  split; [apply played_settled | ].
  intros Hsettled Hcol. split.
  - unfold canPlay. split.
    + intros Hok. apply Z.eqb_eq.
      destruct (decide (get b 0 col = CellEmpty)) as [Hempty | Hfull];
        [exact Hempty | exfalso].
      rewrite (ApplyMove_full b col mark Hcol
                 (settled_top_columnFull b col Hsettled Hcol Hfull)) in Hok.
      discriminate Hok.
    + intros Hempty. apply Z.eqb_eq in Hempty.
      destruct (top_empty_lowestEmpty b col Hcol Hempty) as [row Hlow].
      rewrite (ApplyMove_place b col mark row Hcol Hlow). reflexivity.
  - intros Hmark. apply settled_ApplyMove; assumption.
Qed.

Lemma ApplyMove_accepts_iff_canPlay_witness :
  settled threeInARow
  ∧ (snd (ApplyMove threeInARow 3 CellP1) = None
     ↔ canPlay threeInARow 3 = true)
  ∧ settled (fst (fst (ApplyMove threeInARow 3 CellP1))).
Proof.
  destruct (ApplyMove_accepts_iff_canPlay threeInARow 3 CellP1)
    as [Hplayed Hmove].
  assert (played threeInARow) as Hgrid.
  { assert (Forall (λ mark, mark ≠ CellEmpty) [1; 2]) as Hmarks
      by (repeat constructor; unfold CellEmpty; lia).
    pose proof (played_dropInto 0 [1; 2] Hmarks zeroBoard played_zero) as H0.
    pose proof (played_dropInto 1 [1; 2] Hmarks _ H0) as H1.
    exact (played_dropInto 2 [1; 2] Hmarks _ H1). }
  specialize (Hplayed Hgrid).
  destruct (Hmove Hplayed ltac:(unfold Columns; lia)) as [Hiff Hnext].
  split; [exact Hplayed | ]. split; [exact Hiff | ].
  apply Hnext. unfold CellP1, CellEmpty. lia.
Defined.

(** * Further properties of the registry *)

Lemma HandleMove_accept tLast tEnd move m g p b' res :
  Manager.games m !! Move.GameID move = Some g →
  GameState.Status g ≠ StatusFinished →
  GameState.Players g !! Move.Username move = Some p →
  GameState.Turn g = Player.Slot p →
  ApplyMove (GameState.Board g) (Move.Column move) (Player.Slot p)
  = (b', res, None) →
  HandleMove tLast tEnd move m
  = (withGames m
       (<[Move.GameID move :=
            movedSession tLast tEnd (Move.Username move) g b' res]>
          (Manager.games m)),
     (res, Some (movedSession tLast tEnd (Move.Username move) g b' res), None),
     if negb (MoveResult.Winner res =? 0) || MoveResult.IsDraw res
     then fireOnFinish m (Move.GameID move)
            (movedSession tLast tEnd (Move.Username move) g b' res)
     else []).
Proof.
  intros Hg Hstatus Hp Hturn Happly. unfold HandleMove, movedSession.
  rewrite Hg, (proj2 (isFinished_false g) Hstatus), Hp.
  rewrite (proj2 (Z.eqb_eq _ _) Hturn). cbn [negb]. rewrite Happly.
  destruct (negb (MoveResult.Winner res =? 0)); cbn [orb]; [reflexivity | ].
  destruct (MoveResult.IsDraw res); [reflexivity | ].
  cbn. destruct (GameState.Turn g =? CellP1); reflexivity.
Qed.

Lemma HandleMove_accepted_inv tLast tEnd move m m' res session calls :
  HandleMove tLast tEnd move m = (m', (res, session, None), calls) →
  ∃ g p b',
    Manager.games m !! Move.GameID move = Some g
    ∧ GameState.Status g ≠ StatusFinished
    ∧ GameState.Players g !! Move.Username move = Some p
    ∧ GameState.Turn g = Player.Slot p
    ∧ ApplyMove (GameState.Board g) (Move.Column move) (Player.Slot p)
      = (b', res, None).
Proof.
  intros Heq. unfold HandleMove in Heq.
  destruct (Manager.games m !! Move.GameID move) as [g | ] eqn:Hg;
    [ | discriminate Heq].
  destruct (isFinished g) eqn:Hfin; [discriminate Heq | ].
  apply isFinished_false in Hfin.
  destruct (GameState.Players g !! Move.Username move) as [p | ] eqn:Hp;
    [ | discriminate Heq].
  destruct (GameState.Turn g =? Player.Slot p) eqn:Hturn;
    cbn [negb] in Heq; [ | discriminate Heq].
  apply Z.eqb_eq in Hturn.
  destruct (ApplyMove (GameState.Board g) (Move.Column move) (Player.Slot p))
    as [[b' r] [e | ]] eqn:Happly; [discriminate Heq | ].
  assert (r = res) as ->.
  { destruct (negb (MoveResult.Winner r =? 0)); [congruence | ].
    destruct (MoveResult.IsDraw r); congruence. }
  exists g, p, b'. repeat split; assumption.
Qed.

(** X6: what an accepted move does.  [HandleMove] accepts a move only
    from a participant of an unfinished session whose mark has the
    turn; the mark is dropped into the session's grid by [ApplyMove] and
    the last-activity instant is refreshed.  On a win the session is
    finished with the mover as winner, on a draw it is finished with the
    winner field as it was, and in both cases ended-at is set and the
    finish callback, when installed, is called once with the session;
    otherwise the turn passes to the other mark.  Nothing else of the
    registry changes: no other session, not the index, not the waiting
    slot. *)
Theorem HandleMove_accepted (tLast tEnd : Z) (move : Move.t)
    (m : Manager.t) :
  ∀ m' res session calls,
    HandleMove tLast tEnd move m = (m', (res, session, None), calls) →
    ∃ g p g',
      Manager.games m !! Move.GameID move = Some g
      ∧ GameState.Status g ≠ StatusFinished
      ∧ GameState.Players g !! Move.Username move = Some p
      ∧ GameState.Turn g = Player.Slot p
      ∧ ApplyMove (GameState.Board g) (Move.Column move) (Player.Slot p)
        = (GameState.Board g', res, None)
      ∧ Manager.games m' !! Move.GameID move = Some g'
      ∧ session = Some g'
      ∧ GameState.LastMoveAt g' = tLast
      ∧ GameState.ID g' = GameState.ID g
      ∧ GameState.Players g' = GameState.Players g
      ∧ GameState.StartedAt g' = GameState.StartedAt g
      ∧ GameState.Bot g' = GameState.Bot g
      ∧ (MoveResult.Winner res ≠ 0 →
         GameState.Status g' = StatusFinished
         ∧ GameState.Winner g' = Move.Username move
         ∧ GameState.EndedAt g' = tEnd
         ∧ GameState.Turn g' = GameState.Turn g
         ∧ calls = (if Manager.onFinish m
                    then [(Move.GameID move, g')] else []))
      ∧ (MoveResult.Winner res = 0 → MoveResult.IsDraw res = true →
         GameState.Status g' = StatusFinished
         ∧ GameState.Winner g' = GameState.Winner g
         ∧ GameState.EndedAt g' = tEnd
         ∧ GameState.Turn g' = GameState.Turn g
         ∧ calls = (if Manager.onFinish m
                    then [(Move.GameID move, g')] else []))
      ∧ (MoveResult.Winner res = 0 → MoveResult.IsDraw res = false →
         GameState.Status g' = GameState.Status g
         ∧ GameState.Winner g' = GameState.Winner g
         ∧ GameState.EndedAt g' = GameState.EndedAt g
         ∧ GameState.Turn g' ≠ GameState.Turn g
         ∧ (GameState.Turn g' = CellP1 ∨ GameState.Turn g' = CellP2)
         ∧ calls = [])
      ∧ (∀ id, id ≠ Move.GameID move →
               Manager.games m' !! id = Manager.games m !! id)
      ∧ Manager.waiting m' = Manager.waiting m
      ∧ Manager.userToGame m' = Manager.userToGame m
      ∧ Manager.reconnectAfter m' = Manager.reconnectAfter m
      ∧ Manager.onFinish m' = Manager.onFinish m.
Proof.
  intros m' res session calls Heq.
  destruct (HandleMove_accepted_inv _ _ _ _ _ _ _ _ Heq)
    as (g & p & b' & Hg & Hstatus & Hp & Hturn & Happly).
  rewrite (HandleMove_accept _ _ _ _ _ _ _ _ Hg Hstatus Hp Hturn Happly)
    in Heq.
  inversion Heq; subst m' session calls. clear Heq.
  exists g, p, (movedSession tLast tEnd (Move.Username move) g b' res).
  split; [exact Hg | ]. split; [exact Hstatus | ].
  split; [exact Hp | ]. split; [exact Hturn | ].
  unfold movedSession, fireOnFinish.
  destruct (MoveResult.Winner res =? 0) eqn:Hwin; cbn [negb orb];
    [apply Z.eqb_eq in Hwin | apply Z.eqb_neq in Hwin].
  - destruct (MoveResult.IsDraw res) eqn:Hdraw.
    + cbn. rewrite lookup_insert_eq. repeat split; intros;
        first [ reflexivity | assumption | congruence
              | apply lookup_insert_ne; congruence ].
    + destruct (GameState.Turn g =? CellP1) eqn:Hone;
        [apply Z.eqb_eq in Hone | apply Z.eqb_neq in Hone];
        cbn; rewrite lookup_insert_eq; repeat split; intros;
        first [ reflexivity | assumption | congruence
              | left; reflexivity | right; reflexivity
              | apply lookup_insert_ne; congruence
              | unfold CellP1, CellP2 in *; congruence ].
  - cbn. rewrite lookup_insert_eq. repeat split; intros;
      first [ reflexivity | assumption | congruence
            | apply lookup_insert_ne; congruence ].
Qed.

Lemma HandleMove_accepted_witness :
  ∃ g',
    Manager.games
      (fst (fst (HandleMove 1 1 (Move.mk "alice" "g1" 3) pairedRegistry)))
    !! "g1" = Some g'
    ∧ GameState.LastMoveAt g' = 1.
Proof.
  destruct (HandleMove 1 1 (Move.mk "alice" "g1" 3) pairedRegistry)
    as [[m' [[res session] err]] calls] eqn:Hmove.
  assert (err = None) as -> by (vm_compute in Hmove; congruence).
  destruct (HandleMove_accepted _ _ _ _ _ _ _ _ Hmove)
    as (g & p & g' & _ & _ & _ & _ & _ & Hlook & _ & Hlast & _).
  exists g'. split; [exact Hlook | exact Hlast].
Defined.

(** X7: nobody moves twice in a row.  After an accepted move, a further
    move of the same identity on the session is rejected, whatever the
    column: with [ErrInvalidTurn] when the first move decided nothing,
    with [ErrGameFinished] when it won or drew; the registry stays as
    the first move left it. *)
Theorem HandleMove_no_double_move (tLast tEnd : Z) (move : Move.t)
    (m : Manager.t) :
  ∀ m' res session calls,
    HandleMove tLast tEnd move m = (m', (res, session, None), calls) →
    ∀ tLast' tEnd' col,
      HandleMove tLast' tEnd'
        (Move.mk (Move.Username move) (Move.GameID move) col) m'
      = (m',
         (MoveResult.zero, session,
          Some (if (MoveResult.Winner res =? 0)
                   && negb (MoveResult.IsDraw res)
                then ErrInvalidTurn else ErrGameFinished)),
         []).
Proof.
  intros m' res session calls Heq tLast' tEnd' col.
  destruct (HandleMove_accepted_inv _ _ _ _ _ _ _ _ Heq)
    as (g & p & b' & Hg & Hstatus & Hp & Hturn & Happly).
  rewrite (HandleMove_accept _ _ _ _ _ _ _ _ Hg Hstatus Hp Hturn Happly)
    in Heq.
  inversion Heq; subst m' session calls. clear Heq.
  unfold HandleMove. cbn [Move.GameID Move.Username Manager.games withGames].
  rewrite lookup_insert_eq. unfold movedSession.
  destruct (MoveResult.Winner res =? 0) eqn:Hwin; cbn [negb andb].
  - destruct (MoveResult.IsDraw res) eqn:Hdraw; cbn [negb].
    + reflexivity.
    + assert (isFinished g = false) as Hfin
        by (apply isFinished_false, Hstatus).
      destruct (GameState.Turn g =? CellP1) eqn:Hone.
      * unfold isFinished in *. cbn -[Z.eqb]. rewrite Hfin, Hp.
        apply Z.eqb_eq in Hone. rewrite <- Hturn, Hone. reflexivity.
      * unfold isFinished in *. cbn -[Z.eqb]. rewrite Hfin, Hp.
        rewrite <- Hturn.
        rewrite (proj2 (Z.eqb_neq CellP1 (GameState.Turn g)));
          [reflexivity | ].
        apply Z.eqb_neq in Hone. congruence.
  - reflexivity.
Qed.

Lemma HandleMove_no_double_move_witness :
  errorOf
    (HandleMove 2 2 (Move.mk "alice" "g1" 4)
       (fst (fst (HandleMove 1 1 (Move.mk "alice" "g1" 3) pairedRegistry))))
  = Some ErrInvalidTurn.
Proof.
  destruct (HandleMove 1 1 (Move.mk "alice" "g1" 3) pairedRegistry)
    as [[m' [[res session] err]] calls] eqn:Hmove.
  assert (err = None ∧ MoveResult.Winner res = 0
          ∧ MoveResult.IsDraw res = false) as (-> & Hwin & Hdraw).
  { vm_compute in Hmove. inversion Hmove. repeat split; reflexivity. }
  cbn [fst]. unfold errorOf.
  pose proof (HandleMove_no_double_move _ _ _ _ _ _ _ _ Hmove 2 2 4)
    as Hagain.
  cbn [Move.Username Move.GameID] in Hagain. rewrite Hagain.
  cbn [fst snd]. rewrite Hwin, Hdraw. reflexivity.
Defined.

Lemma isStale_fresh m now g :
  time_Sub now (GameState.LastMoveAt g) <= Manager.reconnectAfter m →
  isStale m now g = false.
Proof.
  intros Hage. unfold isStale.
  rewrite Z.gtb_ltb, (proj2 (Z.ltb_ge _ _) Hage). apply andb_false_r.
Qed.

Lemma isStale_forfeit m now pick now' g :
  isStale m now (forfeit pick now' g) = false.
Proof. apply isStale_finished. reflexivity. Qed.

Lemma filter_none {A} (P : A → Prop) `{∀ x, Decision (P x)} (l : list A) :
  (∀ x, x ∈ l → ¬ P x) → filter P l = [].
Proof.
  induction l as [ | x l IH]; intros Hnone; [reflexivity | ].
  rewrite filter_cons. rewrite decide_False by (apply Hnone; left).
  apply IH. intros y Hy. apply Hnone. right. exact Hy.
Qed.

(** X8: [MarkDisconnected] restarts the countdown of the forfeit.  It
    sets the last-activity instant of the session the identity is mapped
    to and changes nothing else, so that a sweep within the reconnection
    window after that instant leaves the session as it is and calls no
    callback for it, however old the last move is.  For an identity that
    is not mapped, or mapped to an id without a session, it does
    nothing. *)
Theorem MarkDisconnected_restarts_countdown (now : Z) (username : string)
    (m : Manager.t) :
  (∀ id g,
     Manager.userToGame m !! username = Some id →
     Manager.games m !! id = Some g →
     MarkDisconnected now username m
     = withGames m (<[id := withLastMoveAt g now]> (Manager.games m))
     ∧ ∀ pick now',
         time_Sub now' now <= Manager.reconnectAfter m →
         Manager.games
           (fst (SweepDisconnects pick now'
                   (MarkDisconnected now username m))) !! id
         = Some (withLastMoveAt g now)
         ∧ callsFor id
             (snd (SweepDisconnects pick now'
                     (MarkDisconnected now username m))) = [])
  ∧ (Manager.userToGame m !! username = None →
     MarkDisconnected now username m = m)
  ∧ (∀ id, Manager.userToGame m !! username = Some id →
           Manager.games m !! id = None →
           MarkDisconnected now username m = m).
Proof.
  split; [ | split].
  - intros id g Hid Hg. unfold MarkDisconnected. rewrite Hid, Hg.
    split; [reflexivity | ]. intros pick now' Hage.
    set (m1 := withGames m (<[id := withLastMoveAt g now]> (Manager.games m))).
    assert (Manager.games m1 !! id = Some (withLastMoveAt g now)) as Hlook
      by apply lookup_insert_eq.
    assert (isStale m1 now' (withLastMoveAt g now) = false) as Hfresh
      by (apply isStale_fresh; exact Hage).
    split.
    + rewrite SweepDisconnects_lookup, Hlook.
      cbn [fmap option_fmap option_map]. rewrite Hfresh. reflexivity.
    + rewrite callsFor_SweepDisconnects, Hlook, Hfresh.
      destruct (Manager.onFinish m1); reflexivity.
  - intros Hnone. unfold MarkDisconnected. rewrite Hnone. reflexivity.
  - intros id Hid Hnone. unfold MarkDisconnected. rewrite Hid, Hnone.
    reflexivity.
Qed.

Lemma MarkDisconnected_restarts_countdown_witness :
  ∃ g,
    Manager.games
      (fst (SweepDisconnects findRemainingPlayer 50000000000
              (MarkDisconnected 25000000000 "alice" pairedRegistry)))
    !! "g1" = Some g
    ∧ GameState.Status g = StatusActive.
Proof.
  destruct (MarkDisconnected_restarts_countdown 25000000000 "alice"
              pairedRegistry) as [Hmark _].
  assert (∃ g, Manager.games pairedRegistry !! "g1" = Some g
               ∧ GameState.Status g = StatusActive) as (g & Hg & Hactive).
  { eexists. split; vm_compute; reflexivity. }
  destruct (Hmark "g1" g eq_refl Hg) as [_ Hsweep].
  destruct (Hsweep findRemainingPlayer 50000000000) as [Hlook _];
    [vm_compute; discriminate | ].
  exists (withLastMoveAt g 25000000000). split; [exact Hlook | exact Hactive].
Defined.

(** X9: a sweep keeps the set of sessions, the index and the waiting
    slot; it leaves alone every session that is finished or whose age is
    within the window; and a second sweep at the same instant changes
    nothing and calls no callback. *)
Theorem SweepDisconnects_idempotent (pick pick' : GameState.t → string)
    (now : Z) (m : Manager.t) :
  SweepDisconnects pick' now (fst (SweepDisconnects pick now m))
  = (fst (SweepDisconnects pick now m), [])
  ∧ dom (Manager.games (fst (SweepDisconnects pick now m)))
    = dom (Manager.games m)
  ∧ Manager.userToGame (fst (SweepDisconnects pick now m))
    = Manager.userToGame m
  ∧ Manager.waiting (fst (SweepDisconnects pick now m)) = Manager.waiting m
  ∧ (∀ id g, Manager.games m !! id = Some g →
             GameState.Status g = StatusFinished
             ∨ time_Sub now (GameState.LastMoveAt g)
               <= Manager.reconnectAfter m →
             Manager.games (fst (SweepDisconnects pick now m)) !! id
             = Some g).
Proof.
  split; [ | split; [ | split; [reflexivity | split; [reflexivity | ]]]].
  - unfold SweepDisconnects at 1. cbn [fst].
    set (m1 := fst (SweepDisconnects pick now m)).
    assert (∀ g', isStale m1 now g' = isStale m now g') as Hsame
      by reflexivity.
    assert (∀ k g', Manager.games m1 !! k = Some g' →
                    isStale m1 now g' = false) as Hdone.
    { intros k g' Hk. unfold m1 in Hk.
      rewrite SweepDisconnects_lookup in Hk.
      destruct (Manager.games m !! k) as [g | ]; [ | discriminate Hk].
      cbn [fmap option_fmap option_map] in Hk. inversion Hk; subst g'.
      rewrite Hsame. destruct (isStale m now g) eqn:Hstale;
        [apply isStale_forfeit | exact Hstale]. }
    f_equal.
    + transitivity (withGames m1 (Manager.games m1));
        [ | apply withGames_same].
      f_equal. apply map_eq. intros k. rewrite lookup_fmap.
      destruct (Manager.games m1 !! k) as [g' | ] eqn:Hk; [ | reflexivity].
      cbn [fmap option_fmap option_map]. rewrite (Hdone k g' Hk).
      reflexivity.
    + rewrite (filter_none _ (map_to_list (Manager.games m1))).
      * destruct (Manager.onFinish m1); reflexivity.
      * intros [k g'] Hin. apply elem_of_map_to_list in Hin. cbn [snd].
        rewrite (Hdone k g' Hin). discriminate.
  - unfold SweepDisconnects. cbn. apply dom_fmap_L.
  - intros id g Hg Hquiet. rewrite SweepDisconnects_lookup, Hg.
    cbn [fmap option_fmap option_map].
    destruct Hquiet as [Hfin | Hage];
      [rewrite (isStale_finished m now g Hfin)
      | rewrite (isStale_fresh m now g Hage)]; reflexivity.
Qed.

Lemma SweepDisconnects_idempotent_witness :
  Manager.games
    (fst (SweepDisconnects findRemainingPlayer 1000 pairedRegistry)) !! "g1"
  = Manager.games pairedRegistry !! "g1".
Proof.
  destruct (SweepDisconnects_idempotent findRemainingPlayer
              findRemainingPlayer 1000 pairedRegistry)
    as (_ & _ & _ & _ & Hquiet).
  assert (∃ g, Manager.games pairedRegistry !! "g1" = Some g
               ∧ GameState.LastMoveAt g = 0) as (g & Hg & Hlast).
  { eexists. split; vm_compute; reflexivity. }
  rewrite Hg. apply Hquiet; [exact Hg | ].
  right. rewrite Hlast. vm_compute. discriminate.
Defined.

Lemma rejoinGame_unmapped m username :
  Manager.userToGame m !! username = None → rejoinGame m username = None.
Proof. intros Hnone. unfold rejoinGame. rewrite Hnone. reflexivity. Qed.

Lemma rejoinGame_active m username id g :
  Manager.userToGame m !! username = Some id →
  Manager.games m !! id = Some g →
  GameState.Status g ≠ StatusFinished →
  rejoinGame m username = Some g.
Proof.
  intros Hid Hg Hstatus. unfold rejoinGame. rewrite Hid, Hg.
  rewrite (proj2 (isFinished_false g) Hstatus). reflexivity.
Qed.

Lemma Abandon_games username m :
  Manager.games (Abandon username m) = Manager.games m.
Proof.
  unfold Abandon. cbn. destruct (Manager.waiting m) as [w | ];
    [destruct (bool_decide (Player.Username w = username)) | ];
    reflexivity.
Qed.

(** X10: [Abandon] makes the registry forget an identity and keeps its
    sessions.  Afterwards the identity is mapped to no session
    ([GetGameByUser] finds none, [GameForUser] returns the fallback,
    [AssignPlayer] treats it as new) and is not in the waiting slot,
    while [games], the other entries of the index and another waiting
    identity are as before.  In particular an identity that was put
    into the waiting slot of a registry in which it was unknown and
    nobody waited leaves the registry as it was. *)
Theorem Abandon_forgets (username : string) (m : Manager.t) :
  Manager.games (Abandon username m) = Manager.games m
  ∧ Manager.userToGame (Abandon username m)
    = delete username (Manager.userToGame m)
  ∧ GetGameByUser username (Abandon username m) = None
  ∧ (∀ fallback, GameForUser username fallback (Abandon username m)
                 = fallback)
  ∧ rejoinGame (Abandon username m) username = None
  ∧ (∀ w, Manager.waiting (Abandon username m) = Some w ↔
          Manager.waiting m = Some w ∧ Player.Username w ≠ username)
  ∧ (Manager.userToGame m !! username = None →
     Manager.waiting m = None →
     ∀ gid tStart tLast,
       Abandon username (fst (AssignPlayer gid tStart tLast username m))
       = m).
Proof.
  assert (Manager.userToGame (Abandon username m)
          = delete username (Manager.userToGame m)) as Hindex.
  { unfold Abandon. cbn. destruct (Manager.waiting m) as [w | ];
      [destruct (bool_decide (Player.Username w = username)) | ];
      reflexivity. }
  split.
  { unfold Abandon. cbn. destruct (Manager.waiting m) as [w | ];
      [destruct (bool_decide (Player.Username w = username)) | ];
      reflexivity. }
  split; [exact Hindex | ].
  split.
  { unfold GetGameByUser. rewrite Hindex, lookup_delete_eq. reflexivity. }
  split.
  { intros fallback. unfold GameForUser.
    rewrite Hindex, lookup_delete_eq. reflexivity. }
  split.
  { apply rejoinGame_unmapped. rewrite Hindex. apply lookup_delete_eq. }
  split.
  { intros w. unfold Abandon. cbn.
    destruct (Manager.waiting m) as [w0 | ] eqn:Hw; cbn.
    - destruct (bool_decide (Player.Username w0 = username)) eqn:Hsame; cbn.
      + apply bool_decide_eq_true in Hsame. split; [discriminate | ].
        intros [Heq Hne]. inversion Heq; subst. contradiction.
      + apply bool_decide_eq_false in Hsame. rewrite Hw. split.
        * intros Heq. inversion Heq; subst. split; [reflexivity | exact Hsame].
        * intros [Heq _]. exact Heq.
    - rewrite Hw. split; [discriminate | intros [Heq _]; discriminate Heq]. }
  intros Hunknown Hnobody gid tStart tLast.
  unfold AssignPlayer. rewrite (rejoinGame_unmapped m username Hunknown).
  rewrite Hnobody. cbn [fst]. unfold Abandon. cbn.
  rewrite bool_decide_eq_true_2 by reflexivity.
  rewrite delete_id by exact Hunknown.
  destruct m as [w gs idx ra cb]. cbn in *. subst w. reflexivity.
Qed.

Lemma Abandon_forgets_witness :
  Abandon "alice" waitingRegistry = NewManager 30000000000 true.
Proof.
  destruct (Abandon_forgets "alice" (NewManager 30000000000 true))
    as (_ & _ & _ & _ & _ & _ & Hback).
  apply (Hback eq_refl eq_refl "g0" 0 0).
Defined.

(** X11: [StartBotGame] is idempotent.  A second call for the same
    human, whatever the id and the instants drawn, returns the session
    of the first call and leaves the registry as the first call left
    it. *)
Theorem StartBotGame_idempotent (gid gid' : string)
    (tStart tLast tStart' tLast' : Z) (human : string) (m : Manager.t) :
  StartBotGame gid' tStart' tLast' human
    (fst (StartBotGame gid tStart tLast human m))
  = StartBotGame gid tStart tLast human m.
Proof.
  unfold StartBotGame at 2 3.
  destruct (rejoinGame m human) as [g | ] eqn:Hrejoin; cbn [fst].
  - unfold StartBotGame. rewrite Hrejoin. reflexivity.
  - unfold StartBotGame.
    rewrite (rejoinGame_active _ human gid
               (GameState.mk gid zeroBoard StatusActive EmptyString tStart 0
                  CellP1 tLast
                  (<["bot" := Player.mk "bot" CellP2 true]>
                     (<[human := Player.mk human CellP1 false]> ∅))
                  (Some (NewBot CellP2)))).
    + reflexivity.
    + cbn. apply lookup_insert_eq.
    + cbn. apply lookup_insert_eq.
    + discriminate.
Qed.

(** X12: the session [StartBotGame] creates.  For a human that has no
    unfinished session and is not called ["bot"], the call registers,
    under the id drawn, an active session with the empty grid, the human
    on mark A, the participant ["bot"], flagged algorithmic, on mark B,
    an embedded opponent playing mark B, and the turn on mark A; it maps
    the human, and only the human, to the session.  The waiting slot is
    left as it is. *)
Theorem StartBotGame_creates (gid : string) (tStart tLast : Z)
    (human : string) (m : Manager.t) :
  rejoinGame m human = None → human ≠ "bot" →
  ∃ m' game,
    StartBotGame gid tStart tLast human m = (m', game)
    ∧ game
      = GameState.mk gid zeroBoard StatusActive EmptyString tStart 0 CellP1
          tLast
          (<["bot" := Player.mk "bot" CellP2 true]>
             {[human := Player.mk human CellP1 false]})
          (Some (NewBot CellP2))
    ∧ GameState.Players game !! human = Some (Player.mk human CellP1 false)
    ∧ GameState.Players game !! "bot" = Some (Player.mk "bot" CellP2 true)
    ∧ dom (GameState.Players game) = {[human; "bot"]}
    ∧ botIsNext game = Some false
    ∧ Manager.games m' !! gid = Some game
    ∧ (∀ id, id ≠ gid → Manager.games m' !! id = Manager.games m !! id)
    ∧ GetGameByUser human m' = Some game
    ∧ Manager.userToGame m' = <[human := gid]> (Manager.userToGame m)
    ∧ Manager.userToGame m' !! "bot" = Manager.userToGame m !! "bot"
    ∧ Manager.waiting m' = Manager.waiting m.
Proof.
  intros Hnew Hname. unfold StartBotGame. rewrite Hnew.
  eexists _, _. split; [reflexivity | ].
  split; [reflexivity | ]. cbn.
  split; [rewrite lookup_insert_ne by congruence; apply lookup_insert_eq | ].
  split; [apply lookup_insert_eq | ].
  split.
  { rewrite !dom_insert_L, dom_empty_L, union_empty_r_L.
    apply union_comm_L. }
  split.
  { unfold botIsNext. cbn. rewrite lookup_insert_eq. reflexivity. }
  split; [apply lookup_insert_eq | ].
  split; [intros id Hid; apply lookup_insert_ne; congruence | ].
  split.
  { unfold GetGameByUser. cbn. rewrite !lookup_insert_eq. reflexivity. }
  split; [reflexivity | ].
  split; [apply lookup_insert_ne; exact Hname | reflexivity].
Qed.

Lemma StartBotGame_creates_witness :
  ∃ m' game,
    StartBotGame "g3" 0 0 "alice" waitingRegistry = (m', game)
    ∧ Manager.waiting m' = Some (Player.mk "alice" CellP1 false)
    ∧ GameState.Turn game = CellP1.
Proof.
  destruct (StartBotGame_creates "g3" 0 0 "alice" waitingRegistry eq_refl
              ltac:(discriminate))
    as (m' & game & Heq & Hgame & _ & _ & _ & _ & _ & _ & _ & _ & _ & Hwait).
  exists m', game. split; [exact Heq | ].
  split; [rewrite Hwait; reflexivity | rewrite Hgame; reflexivity].
Defined.

(** X13: pairing is stable under reconnection.  After [AssignPlayer]
    has paired a new identity with a distinct waiting identity, a
    further [AssignPlayer] of either of the two returns their session
    and the caller's participant with [isWaiting = false], and leaves
    the registry as it is: no second session, no waiting entry. *)
Theorem AssignPlayer_rejoins_after_pairing (gid : string) (tStart tLast : Z)
    (u : string) (m : Manager.t) (w : Player.t) :
  rejoinGame m u = None → Manager.waiting m = Some w →
  Player.Username w ≠ u →
  ∃ m' game,
    AssignPlayer gid tStart tLast u m
    = (m', (Some game, GameState.Players game !! u, false))
    ∧ ∀ gid' tStart' tLast' v,
        v = u ∨ v = Player.Username w →
        AssignPlayer gid' tStart' tLast' v m'
        = (m', (Some game, GameState.Players game !! v, false))
        ∧ is_Some (GameState.Players game !! v).
Proof.
  intros Hnew Hw Hdistinct. unfold AssignPlayer at 1.
  rewrite Hnew, Hw.
  pose (game := GameState.mk gid zeroBoard StatusActive EmptyString tStart 0
                  CellP1 tLast
                  (<[u := Player.mk u CellP2 false]>
                     (<[Player.Username w := w]> ∅)) None).
  eexists _, game. split; [reflexivity | ].
  intros gid' tStart' tLast' v Hv. unfold AssignPlayer.
  rewrite (rejoinGame_active _ v gid game).
  - split; [reflexivity | ]. cbn.
    destruct Hv as [-> | ->].
    + rewrite lookup_insert_eq. eexists; reflexivity.
    + rewrite lookup_insert_ne by congruence. rewrite lookup_insert_eq.
      eexists; reflexivity.
  - cbn. destruct Hv as [-> | ->].
    + rewrite lookup_insert_ne by exact Hdistinct. apply lookup_insert_eq.
    + apply lookup_insert_eq.
  - cbn. apply lookup_insert_eq.
  - discriminate.
Qed.

Lemma AssignPlayer_rejoins_after_pairing_witness :
  AssignPlayer "g9" 7 7 "alice" pairedRegistry
  = (pairedRegistry,
     (Manager.games pairedRegistry !! "g1",
      Some (Player.mk "alice" CellP1 false), false)).
Proof.
  destruct (AssignPlayer_rejoins_after_pairing "g1" 0 0 "bob" waitingRegistry
              (Player.mk "alice" CellP1 false) eq_refl eq_refl
              ltac:(discriminate))
    as (m' & game & Hpair & Hagain).
  assert (m' = pairedRegistry) as Hm by (inversion Hpair; reflexivity).
  assert (Some game = Manager.games pairedRegistry !! "g1") as Hg
    by (inversion Hpair; vm_compute; reflexivity).
  destruct (Hagain "g9" 7 7 "alice" (or_intror eq_refl)) as [Heq _].
  cbn [Player.Username] in Heq. rewrite Hm in Heq. rewrite Heq.
  rewrite <- Hg. f_equal. f_equal. f_equal.
  inversion Hpair. vm_compute. reflexivity.
Defined.

(** X14: [StartBotGame] does not take the human out of the waiting slot.
    An identity that waited and then got its fallback session against
    the opponent is still the waiting entry; the next new identity is
    paired with it in a second session, to which the index of the first
    identity now points, while the fallback session stays registered and
    active and no identity is mapped to it that was not before. *)
Theorem StartBotGame_keeps_waiting (g0 g1 g2 : string)
    (t0 t0' t1 t1' t2 t2' : Z) (u v : string) (m : Manager.t) :
  Manager.waiting m = None →
  Manager.userToGame m !! u = None → Manager.userToGame m !! v = None →
  u ≠ v → g1 ≠ g2 →
  let m1 := fst (AssignPlayer g0 t0 t0' u m) in
  let m2 := fst (StartBotGame g1 t1 t1' u m1) in
  let out := AssignPlayer g2 t2 t2' v m2 in
  Manager.waiting m2 = Some (Player.mk u CellP1 false)
  ∧ GetGameByUser u m2 = Some (snd (StartBotGame g1 t1 t1' u m1))
  ∧ ∃ paired,
      snd out = (Some paired, Some (Player.mk v CellP2 false), false)
      ∧ GameState.Players paired
        = <[v := Player.mk v CellP2 false]>
            {[u := Player.mk u CellP1 false]}
      ∧ GetGameByUser u (fst out) = Some paired
      ∧ GetGameByUser v (fst out) = Some paired
      ∧ Manager.games (fst out) !! g1
        = Some (snd (StartBotGame g1 t1 t1' u m1))
      ∧ GameState.Status (snd (StartBotGame g1 t1 t1' u m1)) = StatusActive
      ∧ ∀ name, Manager.userToGame (fst out) !! name = Some g1 →
                Manager.userToGame m !! name = Some g1.
Proof.
  intros Hnobody Hu Hv Huv Hids m1 m2 out.
  assert (m1 = withWaiting m (Some (Player.mk u CellP1 false))) as Hm1.
  { unfold m1, AssignPlayer.
    rewrite (rejoinGame_unmapped m u Hu), Hnobody. reflexivity. }
  assert (rejoinGame m1 u = None) as Hnew1.
  { apply rejoinGame_unmapped. rewrite Hm1. exact Hu. }
  set (botGame := GameState.mk g1 zeroBoard StatusActive EmptyString t1 0
                    CellP1 t1'
                    (<["bot" := Player.mk "bot" CellP2 true]>
                       (<[u := Player.mk u CellP1 false]> ∅))
                    (Some (NewBot CellP2))).
  assert (StartBotGame g1 t1 t1' u m1
          = (withUserToGame
               (withGames m1 (<[g1 := botGame]> (Manager.games m1)))
               (<[u := g1]> (Manager.userToGame m1)), botGame)) as Hbot.
  { unfold StartBotGame. rewrite Hnew1. reflexivity. }
  assert (rejoinGame m2 v = None) as Hnew2.
  { apply rejoinGame_unmapped. unfold m2. rewrite Hbot, Hm1. cbn.
    rewrite lookup_insert_ne by exact Huv. exact Hv. }
  assert (Manager.waiting m2 = Some (Player.mk u CellP1 false)) as Hw2.
  { unfold m2. rewrite Hbot, Hm1. reflexivity. }
  split; [exact Hw2 | ].
  split.
  { unfold GetGameByUser, m2. rewrite Hbot. cbn.
    rewrite !lookup_insert_eq. reflexivity. }
  unfold out, AssignPlayer. rewrite Hnew2, Hw2. cbn.
  eexists. split.
  { rewrite lookup_insert_eq. reflexivity. }
  split; [reflexivity | ].
  split.
  { unfold GetGameByUser. cbn. rewrite !lookup_insert_eq. reflexivity. }
  split.
  { unfold GetGameByUser. cbn.
    rewrite lookup_insert_ne by exact Huv. rewrite !lookup_insert_eq.
    reflexivity. }
  split.
  { rewrite lookup_insert_ne by congruence.
    unfold m2. rewrite Hbot. cbn. apply lookup_insert_eq. }
  split; [rewrite Hbot; reflexivity | ].
  intros name Hname.
  destruct (decide (name = u)) as [-> | Hnu].
  { rewrite lookup_insert_eq in Hname. congruence. }
  rewrite lookup_insert_ne in Hname by congruence.
  destruct (decide (name = v)) as [-> | Hnv].
  { rewrite lookup_insert_eq in Hname. congruence. }
  rewrite lookup_insert_ne in Hname by congruence.
  unfold m2 in Hname. rewrite Hbot, Hm1 in Hname. cbn in Hname.
  rewrite lookup_insert_ne in Hname by congruence. exact Hname.
Qed.

Lemma StartBotGame_keeps_waiting_witness :
  Manager.waiting
    (fst (StartBotGame "g1" 1 1 "alice"
            (fst (AssignPlayer "g0" 0 0 "alice"
                    (NewManager 30000000000 true)))))
  = Some (Player.mk "alice" CellP1 false).
Proof.
  refine (proj1 (StartBotGame_keeps_waiting "g0" "g1" "g2" 0 0 1 1 2 2
                   "alice" "bob" (NewManager 30000000000 true)
                   eq_refl eq_refl eq_refl _ _));
    discriminate.
Defined.

(** ** Runs of operations *)

(** The two outcomes of [HandleMove]: a rejection that leaves the
    registry as it is, or the accepted move. *)
Lemma HandleMove_cases tLast tEnd move m :
  (∃ session e,
     HandleMove tLast tEnd move m
     = (m, (MoveResult.zero, session, Some e), []))
  ∨ (∃ g p b' res,
       Manager.games m !! Move.GameID move = Some g
       ∧ GameState.Status g ≠ StatusFinished
       ∧ GameState.Players g !! Move.Username move = Some p
       ∧ GameState.Turn g = Player.Slot p
       ∧ ApplyMove (GameState.Board g) (Move.Column move) (Player.Slot p)
         = (b', res, None)
       ∧ HandleMove tLast tEnd move m
         = (withGames m
              (<[Move.GameID move :=
                   movedSession tLast tEnd (Move.Username move) g b' res]>
                 (Manager.games m)),
            (res,
             Some (movedSession tLast tEnd (Move.Username move) g b' res),
             None),
            if negb (MoveResult.Winner res =? 0) || MoveResult.IsDraw res
            then fireOnFinish m (Move.GameID move)
                   (movedSession tLast tEnd (Move.Username move) g b' res)
            else [])).
Proof.
  destruct (HandleMove tLast tEnd move m) as [[m' [[res session] err]] calls]
    eqn:Heq.
  destruct err as [e | ].
  - left. exists session, e. unfold HandleMove in Heq.
    destruct (Manager.games m !! Move.GameID move) as [g | ] eqn:Hg;
      [ | inversion Heq; reflexivity].
    destruct (isFinished g); [inversion Heq; reflexivity | ].
    destruct (GameState.Players g !! Move.Username move) as [p | ];
      [ | inversion Heq; reflexivity].
    destruct (negb (GameState.Turn g =? Player.Slot p));
      [inversion Heq; reflexivity | ].
    destruct (ApplyMove (GameState.Board g) (Move.Column move)
                        (Player.Slot p)) as [[b' r] [e' | ]] eqn:Happly.
    + destruct (ApplyMove_error_unchanged _ _ _ _ _ _ Happly) as (-> & _ & _).
      rewrite withBoard_same, (store_same m _ g Hg) in Heq.
      inversion Heq; reflexivity.
    + destruct (negb (MoveResult.Winner r =? 0)); [discriminate Heq | ].
      destruct (MoveResult.IsDraw r); discriminate Heq.
  - right.
    destruct (HandleMove_accepted_inv _ _ _ _ _ _ _ _ Heq)
      as (g & p & b' & Hg & Hstatus & Hp & Hturn & Happly).
    exists g, p, b', res. repeat split; try assumption.
    rewrite <- Heq. apply (HandleMove_accept _ _ _ _ g p); assumption.
Qed.

Lemma ApplyMove_keeps_cells b col mark b' res err :
  ApplyMove b col mark = (b', res, err) →
  ∀ r c, 0 <= r < Rows → 0 <= c < Columns →
         get b r c ≠ CellEmpty → get b' r c = get b r c.
Proof.
  intros Heq r c Hr Hc Hcell.
  destruct (ApplyMove_cases b col mark)
    as [[_ H] | [(_ & _ & H) | (Hcol & row & (Hrow & Hempty & _) & H)]];
    rewrite H in Heq; inversion Heq; subst; try reflexivity.
  apply get_set_ne; try assumption. intros Hsame. inversion Hsame; subst.
  contradiction.
Qed.

Lemma extends_refl g : extends g g.
Proof. repeat split; reflexivity. Qed.

Lemma extends_trans g1 g2 g3 : extends g1 g2 → extends g2 g3 → extends g1 g3.
Proof.
  intros (Hid & Hp & Hs & Hb & Hcells) (Hid' & Hp' & Hs' & Hb' & Hcells').
  split; [congruence | ]. split; [congruence | ].
  split; [congruence | ]. split; [congruence | ].
  intros r c Hr Hc Hcell. rewrite <- (Hcells r c Hr Hc Hcell).
  apply Hcells'; try assumption. rewrite (Hcells r c Hr Hc Hcell).
  exact Hcell.
Qed.

Lemma extends_movedSession tLast tEnd username g col mark b' res :
  ApplyMove (GameState.Board g) col mark = (b', res, None) →
  extends g (movedSession tLast tEnd username g b' res).
Proof.
  intros Happly. unfold movedSession.
  assert (∀ g', GameState.ID g' = GameState.ID g →
                GameState.Players g' = GameState.Players g →
                GameState.StartedAt g' = GameState.StartedAt g →
                GameState.Bot g' = GameState.Bot g →
                GameState.Board g' = b' → extends g g') as Hext.
  { intros g' H1 H2 H3 H4 H5. repeat split; try assumption.
    intros r c Hr Hc Hcell. rewrite H5.
    apply (ApplyMove_keeps_cells _ _ _ _ _ _ Happly); assumption. }
  destruct (negb (MoveResult.Winner res =? 0)); [apply Hext; reflexivity | ].
  destruct (MoveResult.IsDraw res); [apply Hext; reflexivity | ].
  destruct (GameState.Turn g =? CellP1); apply Hext; reflexivity.
Qed.

(** One operation keeps every session registered, with its id,
    participants and non-empty cells. *)
Lemma exec_extends op m id g :
  freshOp op m → Manager.games m !! id = Some g →
  ∃ g', Manager.games (fst (exec op m)) !! id = Some g' ∧ extends g g'.
Proof.
  intros Hfresh Hg.
  destruct op as [gid t1 t2 u | gid t1 t2 u | t1 t2 mv | u | now u | pick now];
    cbn [exec fst freshOp] in *.
  - unfold AssignPlayer. destruct (rejoinGame m u);
      [exists g; split; [exact Hg | apply extends_refl] | ].
    destruct (Manager.waiting m) as [w | ];
      [ | exists g; split; [exact Hg | apply extends_refl]].
    exists g. split; [ | apply extends_refl]. cbn.
    rewrite lookup_insert_ne by congruence. exact Hg.
  - unfold StartBotGame. destruct (rejoinGame m u);
      [exists g; split; [exact Hg | apply extends_refl] | ].
    exists g. split; [ | apply extends_refl]. cbn.
    rewrite lookup_insert_ne by congruence. exact Hg.
  - destruct (HandleMove_cases t1 t2 mv m)
      as [(session & e & ->) | (g0 & p & b' & res & Hg0 & _ & _ & _ & Happly & ->)];
      cbn [fst].
    + exists g. split; [exact Hg | apply extends_refl].
    + destruct (decide (id = Move.GameID mv)) as [-> | Hne].
      * rewrite Hg in Hg0. inversion Hg0; subst g0.
        eexists. split; [apply lookup_insert_eq | ].
        apply (extends_movedSession _ _ _ _ _ _ _ _ Happly).
      * exists g. split; [ | apply extends_refl].
        cbn. rewrite lookup_insert_ne by congruence. exact Hg.
  - exists g. split; [ | apply extends_refl].
    rewrite Abandon_games. exact Hg.
  - unfold MarkDisconnected.
    destruct (Manager.userToGame m !! u) as [id' | ];
      [ | exists g; split; [exact Hg | apply extends_refl]].
    destruct (Manager.games m !! id') as [g0 | ] eqn:Hg0;
      [ | exists g; split; [exact Hg | apply extends_refl]].
    destruct (decide (id = id')) as [-> | Hne].
    + rewrite Hg in Hg0. inversion Hg0; subst g0.
      eexists. split; [apply lookup_insert_eq | ].
      repeat split; reflexivity.
    + exists g. split; [ | apply extends_refl].
      cbn. rewrite lookup_insert_ne by congruence. exact Hg.
  - rewrite SweepDisconnects_lookup, Hg. cbn [fmap option_fmap option_map].
    eexists. split; [reflexivity | ].
    destruct (isStale m now g); [ | apply extends_refl].
    repeat split; reflexivity.
Qed.

Lemma HandleMove_finished_rejected tLast tEnd move m g :
  Manager.games m !! Move.GameID move = Some g →
  GameState.Status g = StatusFinished →
  HandleMove tLast tEnd move m
  = (m, (MoveResult.zero, Some g, Some ErrGameFinished), []).
Proof.
  intros Hg Hfin. unfold HandleMove.
  rewrite Hg, (proj2 (isFinished_true g) Hfin). reflexivity.
Qed.

(** One operation leaves a finished session as it is, up to its
    last-activity instant, and calls no callback for it. *)
Lemma exec_finished op m id g :
  freshOp op m → Manager.games m !! id = Some g →
  GameState.Status g = StatusFinished →
  ∃ g', Manager.games (fst (exec op m)) !! id = Some g'
        ∧ g' = withLastMoveAt g (GameState.LastMoveAt g')
        ∧ callsFor id (snd (exec op m)) = [].
Proof.
  intros Hfresh Hg Hfin.
  assert (g = withLastMoveAt g (GameState.LastMoveAt g)) as Hsame
    by (destruct g; reflexivity).
  destruct op as [gid t1 t2 u | gid t1 t2 u | t1 t2 mv | u | now u | pick now];
    cbn [exec fst snd freshOp] in *.
  - exists g. split; [ | split; [exact Hsame | reflexivity]].
    unfold AssignPlayer. destruct (rejoinGame m u); [exact Hg | ].
    destruct (Manager.waiting m) as [w | ]; [ | exact Hg].
    cbn. rewrite lookup_insert_ne by congruence. exact Hg.
  - exists g. split; [ | split; [exact Hsame | reflexivity]].
    unfold StartBotGame. destruct (rejoinGame m u); [exact Hg | ].
    cbn. rewrite lookup_insert_ne by congruence. exact Hg.
  - exists g.
    destruct (HandleMove_cases t1 t2 mv m)
      as [(session & e & ->)
         | (g0 & p & b' & res & Hg0 & Hstatus & _ & _ & _ & ->)];
      cbn [fst snd].
    + split; [exact Hg | split; [exact Hsame | reflexivity]].
    + assert (id ≠ Move.GameID mv) as Hne by (intros ->; congruence).
      split; [cbn; rewrite lookup_insert_ne by congruence; exact Hg | ].
      split; [exact Hsame | ].
      destruct (negb (MoveResult.Winner res =? 0) || MoveResult.IsDraw res);
        [ | reflexivity].
      unfold fireOnFinish, callsFor. destruct (Manager.onFinish m);
        [ | reflexivity].
      rewrite filter_cons. cbn [fst]. rewrite decide_False by congruence.
      reflexivity.
  - exists g. split; [ | split; [exact Hsame | reflexivity]].
    rewrite Abandon_games. exact Hg.
  - unfold MarkDisconnected.
    destruct (Manager.userToGame m !! u) as [id' | ];
      [ | exists g; split; [exact Hg | split; [exact Hsame | reflexivity]]].
    destruct (Manager.games m !! id') as [g0 | ] eqn:Hg0;
      [ | exists g; split; [exact Hg | split; [exact Hsame | reflexivity]]].
    destruct (decide (id = id')) as [-> | Hne].
    + rewrite Hg in Hg0. inversion Hg0; subst g0.
      eexists. split; [apply lookup_insert_eq | ].
      split; [reflexivity | reflexivity].
    + exists g. split; [ | split; [exact Hsame | reflexivity]].
      cbn. rewrite lookup_insert_ne by congruence. exact Hg.
  - exists g. rewrite SweepDisconnects_lookup, callsFor_SweepDisconnects, Hg.
    cbn [fmap option_fmap option_map].
    rewrite (isStale_finished m now g Hfin).
    split; [reflexivity | split; [exact Hsame | ]].
    destruct (Manager.onFinish m); reflexivity.
Qed.

(** The calls one operation makes for a session: none, or one, with the
    session as it is registered after the operation, finished. *)
Lemma exec_calls op m id :
  callsFor id (snd (exec op m)) = []
  ∨ ∃ g', callsFor id (snd (exec op m)) = [(id, g')]
          ∧ Manager.games (fst (exec op m)) !! id = Some g'
          ∧ GameState.Status g' = StatusFinished.
Proof.
  destruct op as [gid t1 t2 u | gid t1 t2 u | t1 t2 mv | u | now u | pick now];
    cbn [exec fst snd]; try (left; reflexivity).
  - destruct (HandleMove_cases t1 t2 mv m)
      as [(session & e & ->)
         | (g0 & p & b' & res & Hg0 & Hstatus & _ & _ & _ & ->)];
      cbn [fst snd]; [left; reflexivity | ].
    unfold movedSession.
    destruct (negb (MoveResult.Winner res =? 0)) eqn:Hwin; cbn [orb].
    + unfold fireOnFinish. destruct (Manager.onFinish m);
        [ | left; reflexivity].
      unfold callsFor. rewrite filter_cons. cbn [fst].
      destruct (decide (Move.GameID mv = id)) as [<- | Hne];
        [ | left; reflexivity].
      right. eexists. split; [reflexivity | ].
      split; [apply lookup_insert_eq | reflexivity].
    + destruct (MoveResult.IsDraw res); [ | left; reflexivity].
      unfold fireOnFinish. destruct (Manager.onFinish m);
        [ | left; reflexivity].
      unfold callsFor. rewrite filter_cons. cbn [fst].
      destruct (decide (Move.GameID mv = id)) as [<- | Hne];
        [ | left; reflexivity].
      right. eexists. split; [reflexivity | ].
      split; [apply lookup_insert_eq | reflexivity].
  - rewrite callsFor_SweepDisconnects, SweepDisconnects_lookup.
    destruct (Manager.onFinish m); [ | left; reflexivity].
    destruct (Manager.games m !! id) as [g | ]; [ | left; reflexivity].
    cbn [fmap option_fmap option_map].
    destruct (isStale m now g); [ | left; reflexivity].
    right. eexists. split; [reflexivity | split; reflexivity].
Qed.

(** X15: sessions are never removed and cells are never reset.  Along
    any run of operations in which the ids drawn for new sessions are
    not in use, a session of the registry stays registered under its
    key, with the same id, participants, start instant and embedded
    opponent, and every non-empty cell of its grid keeps its mark. *)
Theorem run_sessions_persist (ops : list Op) :
  ∀ m id g,
    freshRun ops m → Manager.games m !! id = Some g →
    ∃ g', Manager.games (fst (run ops m)) !! id = Some g' ∧ extends g g'.
Proof.
  induction ops as [ | op ops IH]; intros m id g Hfresh Hg.
  - exists g. split; [exact Hg | apply extends_refl].
  - destruct Hfresh as [Hop Hrest]. cbn [run].
    destruct (exec_extends op m id g Hop Hg) as (g1 & Hg1 & Hext1).
    destruct (exec op m) as [m1 calls1]. cbn [fst] in *.
    destruct (IH m1 id g1 Hrest Hg1) as (g2 & Hg2 & Hext2).
    destruct (run ops m1) as [m2 calls2]. cbn [fst] in *.
    exists g2. split; [exact Hg2 | exact (extends_trans _ _ _ Hext1 Hext2)].
Qed.

Lemma run_finished (ops : list Op) :
  ∀ m id g,
    freshRun ops m → Manager.games m !! id = Some g →
    GameState.Status g = StatusFinished →
    ∃ g', Manager.games (fst (run ops m)) !! id = Some g'
          ∧ g' = withLastMoveAt g (GameState.LastMoveAt g')
          ∧ callsFor id (snd (run ops m)) = [].
Proof.
  induction ops as [ | op ops IH]; intros m id g Hfresh Hg Hfin.
  - exists g. split; [exact Hg | split; [destruct g | ]; reflexivity].
  - destruct Hfresh as [Hop Hrest]. cbn [run].
    destruct (exec_finished op m id g Hop Hg Hfin) as (g1 & Hg1 & Hsame1 & Hc1).
    destruct (exec op m) as [m1 calls1]. cbn [fst snd] in *.
    assert (GameState.Status g1 = StatusFinished) as Hfin1
      by (rewrite Hsame1; exact Hfin).
    destruct (IH m1 id g1 Hrest Hg1 Hfin1) as (g2 & Hg2 & Hsame2 & Hc2).
    destruct (run ops m1) as [m2 calls2]. cbn [fst snd] in *.
    exists g2. split; [exact Hg2 | ]. split.
    + rewrite Hsame2 at 1. rewrite Hsame1. reflexivity.
    + unfold callsFor in *. rewrite filter_app, Hc1, Hc2. reflexivity.
Qed.

(** X16: a finished session is final.  Along any such run a finished
    session keeps its grid, status, winner, turn and ended-at instant
    (only its last-activity instant can be refreshed, by
    [MarkDisconnected]) and the finish callback is not called for it. *)
Theorem run_finished_is_final (ops : list Op) (m : Manager.t) (id : string)
    (g : GameState.t) :
  freshRun ops m → Manager.games m !! id = Some g →
  GameState.Status g = StatusFinished →
  ∃ g', Manager.games (fst (run ops m)) !! id = Some g'
        ∧ g' = withLastMoveAt g (GameState.LastMoveAt g')
        ∧ GameState.Board g' = GameState.Board g
        ∧ GameState.Status g' = StatusFinished
        ∧ GameState.Winner g' = GameState.Winner g
        ∧ GameState.Turn g' = GameState.Turn g
        ∧ GameState.EndedAt g' = GameState.EndedAt g
        ∧ callsFor id (snd (run ops m)) = [].
Proof.
  intros Hfresh Hg Hfin.
  destruct (run_finished ops m id g Hfresh Hg Hfin) as (g' & Hg' & Hsame & Hc).
  exists g'. split; [exact Hg' | ]. split; [exact Hsame | ].
  rewrite Hsame. repeat split; try reflexivity; assumption.
Qed.

(** X17: the finish callback is called at most once per session.  Along
    any such run, from any registry, the calls made for a session key
    are at most one, and every call hands over a finished session. *)
Theorem run_callback_at_most_once (ops : list Op) :
  ∀ m id,
    freshRun ops m →
    (length (callsFor id (snd (run ops m))) <= 1)%nat
    ∧ ∀ g, (id, g) ∈ snd (run ops m) →
           GameState.Status g = StatusFinished.
Proof.
  induction ops as [ | op ops IH]; intros m id Hfresh.
  - split; [cbn; lia | ]. intros g Hin. apply elem_of_nil in Hin.
    contradiction.
  - destruct Hfresh as [Hop Hrest]. cbn [run].
    pose proof (exec_calls op m id) as Hcalls.
    destruct (exec op m) as [m1 calls1] eqn:Hexec. cbn [fst snd] in *.
    destruct (IH m1 id Hrest) as [IHlen IHfin].
    assert (∀ g, (id, g) ∈ calls1 → (id, g) ∈ callsFor id calls1) as Hfilter.
    { intros g Hin. apply list_elem_of_filter. split; [reflexivity | exact Hin]. }
    destruct Hcalls as [Hnil | (g1 & Hone & Hg1 & Hfin1)].
    + destruct (run ops m1) as [m2 calls2]. cbn [fst snd] in *. split.
      * unfold callsFor in *. rewrite filter_app, Hnil. exact IHlen.
      * intros g Hin. apply elem_of_app in Hin.
        destruct Hin as [Hin | Hin]; [ | exact (IHfin g Hin)].
        apply Hfilter in Hin. rewrite Hnil in Hin.
        apply elem_of_nil in Hin. contradiction.
    + destruct (run_finished ops m1 id g1 Hrest Hg1 Hfin1)
        as (_ & _ & _ & Hlater).
      destruct (run ops m1) as [m2 calls2]. cbn [fst snd] in *. split.
      * unfold callsFor in *. rewrite filter_app, Hone, Hlater. cbn. lia.
      * intros g Hin. apply elem_of_app in Hin.
        destruct Hin as [Hin | Hin]; [ | exact (IHfin g Hin)].
        apply Hfilter in Hin. rewrite Hone in Hin.
        apply list_elem_of_singleton in Hin. inversion Hin; subst.
        exact Hfin1.
Qed.

Lemma sampleRun_fresh : freshRun sampleRun (NewManager 30000000000 true).
Proof. cbn. repeat split; vm_compute; reflexivity. Qed.

Lemma run_sessions_persist_witness :
  ∃ g', Manager.games
          (fst (run (tail (tail sampleRun)) pairedRegistry)) !! "g1"
        = Some g'.
Proof.
  assert (freshRun (tail (tail sampleRun)) pairedRegistry) as Hfresh
    by (cbn; repeat split; vm_compute; reflexivity).
  assert (∃ g, Manager.games pairedRegistry !! "g1" = Some g) as [g Hg]
    by (eexists; vm_compute; reflexivity).
  destruct (run_sessions_persist _ pairedRegistry "g1" g Hfresh Hg)
    as (g' & Hg' & _).
  exists g'. exact Hg'.
Defined.

Lemma run_finished_is_final_witness :
  callsFor "g1"
    (snd (run [OpMarkDisconnected 5 "alice";
               OpHandleMove 6 6 (Move.mk "alice" "g1" 3);
               OpSweepDisconnects findRemainingPlayer 99000000000]
              forfeitedRegistry)) = [].
Proof.
  assert (∃ g, Manager.games forfeitedRegistry !! "g1" = Some g
               ∧ GameState.Status g = StatusFinished) as (g & Hg & Hfin)
    by (eexists; split; vm_compute; reflexivity).
  destruct (run_finished_is_final
              [OpMarkDisconnected 5 "alice";
               OpHandleMove 6 6 (Move.mk "alice" "g1" 3);
               OpSweepDisconnects findRemainingPlayer 99000000000]
              forfeitedRegistry "g1" g) as (g' & H);
    [cbn; repeat split | exact Hg | exact Hfin | ].
  apply H.
Defined.

Lemma run_callback_at_most_once_witness :
  (length (callsFor "g1"
             (snd (run sampleRun (NewManager 30000000000 true)))) <= 1)%nat.
Proof.
  apply (run_callback_at_most_once sampleRun (NewManager 30000000000 true)
           "g1").
  cbn. repeat split; vm_compute; reflexivity.
Defined.

(** ** Invariants of the registry *)

Lemma sessionWellFormed_new gid tStart tLast players bot :
  (∀ name p, players !! name = Some p →
             Player.Username p = name
             ∧ (Player.Slot p = CellP1 ∨ Player.Slot p = CellP2)) →
  sessionWellFormed gid
    (GameState.mk gid zeroBoard StatusActive EmptyString tStart 0 CellP1
       tLast players bot).
Proof.
  intros Hplayers. unfold sessionWellFormed. cbn.
  split; [reflexivity | ]. split; [apply played_zero | ].
  split; [left; reflexivity | ]. split; [left; reflexivity | ].
  split; [exact Hplayers | ]. split; [split; reflexivity | ].
  left. reflexivity.
Qed.

Lemma sessionWellFormed_update id g g' :
  sessionWellFormed id g →
  GameState.ID g' = GameState.ID g →
  GameState.Players g' = GameState.Players g →
  played (GameState.Board g') →
  GameState.Status g' = StatusActive ∨ GameState.Status g' = StatusFinished →
  GameState.Turn g' = CellP1 ∨ GameState.Turn g' = CellP2 →
  (GameState.Status g' = StatusActive →
   GameState.Winner g' = EmptyString ∧ GameState.EndedAt g' = 0) →
  GameState.Winner g' = EmptyString ∨ GameState.Winner g' = "bot"
  ∨ is_Some (GameState.Players g !! GameState.Winner g') →
  sessionWellFormed id g'.
Proof.
  intros (Hid & _ & _ & _ & Hplayers & _ & _) Hid' Hp' Hb' Hs' Ht' Ha' Hw'.
  unfold sessionWellFormed. rewrite Hp'.
  split; [congruence | ]. split; [exact Hb' | ]. split; [exact Hs' | ].
  split; [exact Ht' | ]. split; [exact Hplayers | ].
  split; [exact Ha' | exact Hw'].
Qed.

Lemma sessionWellFormed_movedSession tLast tEnd username id g p col b' res :
  sessionWellFormed id g →
  GameState.Status g ≠ StatusFinished →
  GameState.Players g !! username = Some p →
  ApplyMove (GameState.Board g) col (Player.Slot p) = (b', res, None) →
  sessionWellFormed id (movedSession tLast tEnd username g b' res).
Proof.
  intros Hwf Hnotfin Hp Happly.
  pose proof Hwf as (Hid & Hplayed & Hstatus & Hturn & Hplayers & Hactive
                     & Hwinner).
  assert (played b') as Hplayed'.
  { change b' with (fst (fst (b', res, @None GameError))).
    rewrite <- Happly. apply played_move; [exact Hplayed | ].
    destruct (Hplayers _ _ Hp) as [_ [Hs | Hs]]; rewrite Hs; discriminate. }
  assert (GameState.Status g = StatusActive) as Hact
    by (destruct Hstatus; [assumption | contradiction]).
  destruct (Hactive Hact) as [Hnowinner Hnoend].
  unfold movedSession.
  destruct (negb (MoveResult.Winner res =? 0)).
  { apply (sessionWellFormed_update id g); try reflexivity; try assumption.
    - right. reflexivity.
    - cbn. discriminate.
    - cbn. right. right. rewrite Hp. eexists; reflexivity. }
  destruct (MoveResult.IsDraw res).
  { apply (sessionWellFormed_update id g); try reflexivity; try assumption.
    - right. reflexivity.
    - cbn. discriminate. }
  destruct (GameState.Turn g =? CellP1);
    apply (sessionWellFormed_update id g); try reflexivity; try assumption;
    first [right; reflexivity | left; reflexivity].
Qed.

Lemma sessionWellFormed_touch id g now :
  sessionWellFormed id g → sessionWellFormed id (withLastMoveAt g now).
Proof. intros H. exact H. Qed.

Lemma sessionWellFormed_forfeit id g pick now :
  findRemainingPlayer_returns (withStatus g StatusFinished)
    (pick (withStatus g StatusFinished)) →
  sessionWellFormed id g → sessionWellFormed id (forfeit pick now g).
Proof.
  intros Hpick Hwf.
  pose proof Hwf as (Hid & Hplayed & Hstatus & Hturn & Hplayers & Hactive
                     & Hwinner).
  unfold forfeit.
  apply (sessionWellFormed_update id g); try reflexivity; try assumption.
  - right. reflexivity.
  - cbn. discriminate.
  - cbn. destruct Hpick as [(p & Hp & _) | [_ Hbot]].
    + right. right. cbn in Hp. rewrite Hp. eexists; reflexivity.
    + right. left. exact Hbot.
Qed.

Lemma reachable_wf (m : Manager.t) :
  reachable m → registryWellFormed m.
Proof.
  induction 1 as [ w f | gid t1 t2 u m Hreach IH | gid t1 t2 u m Hreach IH
                 | t1 t2 mv m Hreach IH | u m Hreach IH | now u m Hreach IH
                 | pick now m Hpick Hreach IH ].
  - split; [ | split]; cbn.
    + intros id g Hg. rewrite lookup_empty in Hg. discriminate Hg.
    + intros u id Hu. rewrite lookup_empty in Hu. discriminate Hu.
    + intros w' Hw'. discriminate Hw'.
  - destruct IH as (Hgames & Hindex & Hwaiting).
    unfold AssignPlayer. destruct (rejoinGame m u);
      [split; [ | split]; assumption | ].
    destruct (Manager.waiting m) as [w | ] eqn:Hw; cbn [fst].
    + destruct (Hwaiting w eq_refl) as [Hslot _].
      split; [ | split]; cbn.
      * intros id g Hg. apply lookup_insert_Some in Hg.
        destruct Hg as [[<- <-] | [_ Hg]]; [ | exact (Hgames _ _ Hg)].
        apply sessionWellFormed_new. intros name p Hp.
        apply lookup_insert_Some in Hp.
        destruct Hp as [[<- <-] | [_ Hp]];
          [split; [reflexivity | right; reflexivity] | ].
        apply lookup_insert_Some in Hp.
        destruct Hp as [[<- <-] | [_ Hp]];
          [split; [reflexivity | left; exact Hslot] | ].
        rewrite lookup_empty in Hp. discriminate Hp.
      * intros name id Hname. apply lookup_insert_Some in Hname.
        destruct Hname as [[_ <-] | [_ Hname]];
          [rewrite lookup_insert_eq; eexists; reflexivity | ].
        apply lookup_insert_Some in Hname.
        destruct Hname as [[_ <-] | [_ Hname]];
          [rewrite lookup_insert_eq; eexists; reflexivity | ].
        apply lookup_insert_is_Some'. right. exact (Hindex _ _ Hname).
      * intros w' Hw'. discriminate Hw'.
    + split; [ | split]; cbn; try assumption.
      intros w' Hw'. inversion Hw'; subst. split; reflexivity.
  - destruct IH as (Hgames & Hindex & Hwaiting).
    unfold StartBotGame. destruct (rejoinGame m u);
      [split; [ | split]; assumption | ].
    split; [ | split]; cbn.
    + intros id g Hg. apply lookup_insert_Some in Hg.
      destruct Hg as [[<- <-] | [_ Hg]]; [ | exact (Hgames _ _ Hg)].
      apply sessionWellFormed_new. intros name p Hp.
      apply lookup_insert_Some in Hp.
      destruct Hp as [[<- <-] | [_ Hp]];
        [split; [reflexivity | right; reflexivity] | ].
      apply lookup_insert_Some in Hp.
      destruct Hp as [[<- <-] | [_ Hp]];
        [split; [reflexivity | left; reflexivity] | ].
      rewrite lookup_empty in Hp. discriminate Hp.
    + intros name id Hname. apply lookup_insert_Some in Hname.
      destruct Hname as [[_ <-] | [_ Hname]];
        [rewrite lookup_insert_eq; eexists; reflexivity | ].
      apply lookup_insert_is_Some'. right. exact (Hindex _ _ Hname).
    + exact Hwaiting.
  - destruct IH as (Hgames & Hindex & Hwaiting).
    destruct (HandleMove_cases t1 t2 mv m)
      as [(session & e & ->)
         | (g & p & b' & res & Hg & Hstatus & Hp & _ & Happly & ->)];
      cbn [fst]; [split; [ | split]; assumption | ].
    split; [ | split]; cbn; [ | | exact Hwaiting].
    + intros id g' Hg'. apply lookup_insert_Some in Hg'.
      destruct Hg' as [[<- <-] | [_ Hg']]; [ | exact (Hgames _ _ Hg')].
      apply (sessionWellFormed_movedSession _ _ _ _ g p (Move.Column mv));
        try assumption.
      exact (Hgames _ _ Hg).
    + intros name id Hname. apply lookup_insert_is_Some'. right.
      exact (Hindex _ _ Hname).
  - destruct IH as (Hgames & Hindex & Hwaiting).
    split; [ | split].
    + rewrite Abandon_games. exact Hgames.
    + intros name id Hname. rewrite Abandon_games.
      apply (Hindex name). unfold Abandon in Hname. cbn in Hname.
      assert (delete u (Manager.userToGame m) !! name = Some id) as Hdel.
      { destruct (Manager.waiting m) as [w | ];
          [destruct (bool_decide (Player.Username w = u)) | ];
          exact Hname. }
      apply lookup_delete_Some in Hdel. apply Hdel.
    + intros w Hw. apply Hwaiting. unfold Abandon in Hw. cbn in Hw.
      destruct (Manager.waiting m) as [w0 | ] eqn:Hw0; cbn in Hw.
      * destruct (bool_decide (Player.Username w0 = u)); cbn in Hw;
          [discriminate Hw | ].
        rewrite Hw0 in Hw. exact Hw.
      * rewrite Hw0 in Hw. discriminate Hw.
  - destruct IH as (Hgames & Hindex & Hwaiting).
    unfold MarkDisconnected.
    destruct (Manager.userToGame m !! u) as [id' | ];
      [ | split; [ | split]; assumption].
    destruct (Manager.games m !! id') as [g0 | ] eqn:Hg0;
      [ | split; [ | split]; assumption].
    split; [ | split]; cbn; [ | | exact Hwaiting].
    + intros id g' Hg'. apply lookup_insert_Some in Hg'.
      destruct Hg' as [[<- <-] | [_ Hg']]; [ | exact (Hgames _ _ Hg')].
      apply sessionWellFormed_touch. exact (Hgames _ _ Hg0).
    + intros name id Hname. apply lookup_insert_is_Some'. right.
      exact (Hindex _ _ Hname).
  - destruct IH as (Hgames & Hindex & Hwaiting).
    split; [ | split]; [ | | exact Hwaiting].
    + intros id g' Hg'. rewrite SweepDisconnects_lookup in Hg'.
      destruct (Manager.games m !! id) as [g | ] eqn:Hg;
        [ | discriminate Hg'].
      cbn [fmap option_fmap option_map] in Hg'. inversion Hg'; subst g'.
      destruct (isStale m now g); [ | exact (Hgames _ _ Hg)].
      apply sessionWellFormed_forfeit; [apply Hpick | exact (Hgames _ _ Hg)].
    + intros name id Hname. rewrite SweepDisconnects_lookup.
      destruct (Hindex name id Hname) as [g Hg]. rewrite Hg.
      eexists; reflexivity.
Qed.

(** X18: invariants of every registry built by the exported operations.
    A session is registered under its own id; its grid is built from the
    empty grid by moves of non-empty marks (no disc floats); its status
    is active or finished, never waiting; its turn is mark A or mark B;
    its participants are stored under their own names on mark A or B;
    while it is active it has no winner and no end instant, and a winner
    is a participant of the session or ["bot"].  Every entry of the
    identity index points to a registered session, and the waiting entry
    is on mark A and not algorithmic. *)
Theorem reachable_registry_well_formed (m : Manager.t) :
  reachable m → registryWellFormed m.
Proof. apply reachable_wf. Qed.

Lemma reachable_registry_well_formed_witness :
  registryWellFormed forfeitedRegistry.
Proof.
  apply reachable_registry_well_formed.
  apply reach_SweepDisconnects; [exact findRemainingPlayer_valid | ].
  apply reach_AssignPlayer, reach_AssignPlayer, reach_NewManager.
Defined.

(** ** The embedded opponent in the registry *)

Lemma ApplyMove_undecided_playable b col player b' res :
  ApplyMove b col player = (b', res, None) →
  MoveResult.IsDraw res = false → MoveResult.Winner res = 0 →
  player ≠ CellEmpty →
  ∃ c, 0 <= c < Columns ∧ get b' 0 c = CellEmpty.
Proof.
  intros Heq Hdraw Hwin Hplayer.
  destruct (ApplyMove_cases b col player)
    as [[_ H] | [(_ & _ & H) | (Hcol & row & Hlow & H)]];
    rewrite H in Heq; inversion Heq; subst. clear Heq.
  unfold evaluate in Hdraw, Hwin.
  destruct (evaluate_directions directions (set b row col player) row col
              player) as [coords | ];
    cbn [MoveResult.Winner MoveResult.IsDraw] in Hdraw, Hwin;
    [contradiction | ].
  destruct (evaluate_isDraw_false _ _ Hdraw) as (c & Hin & Hc).
  exists c. split; [apply elem_of_seqZ in Hin; lia | exact Hc].
Qed.

Lemma playBotTurn_moves tLast tEnd id m g bot p :
  Manager.games m !! id = Some g → GameState.ID g = id →
  GameState.Bot g = Some bot →
  GameState.Players g !! "bot" = Some p →
  GameState.Turn g = Player.Slot p →
  GameState.Status g ≠ StatusFinished →
  (∃ c, 0 <= c < Columns ∧ get (GameState.Board g) 0 c = CellEmpty) →
  ∃ row b' res,
    lowestEmpty (GameState.Board g) (ChooseMove bot (GameState.Board g)) row
    ∧ b' = set (GameState.Board g) row
               (ChooseMove bot (GameState.Board g)) (Player.Slot p)
    ∧ ApplyMove (GameState.Board g) (ChooseMove bot (GameState.Board g))
                (Player.Slot p) = (b', res, None)
    ∧ playBotTurn tLast tEnd id m
      = (withGames m
           (<[id := movedSession tLast tEnd "bot" g b' res]>
              (Manager.games m)),
         Some (res, Some (movedSession tLast tEnd "bot" g b' res), None),
         if negb (MoveResult.Winner res =? 0) || MoveResult.IsDraw res
         then fireOnFinish m id (movedSession tLast tEnd "bot" g b' res)
         else []).
Proof.
  intros Hg Hid Hbot Hp Hturn Hstatus Hroom.
  destruct (ChooseMove_choice bot (GameState.Board g)) as [Hrange Hplay].
  destruct (Hplay Hroom) as [Hempty _].
  destruct (top_empty_lowestEmpty _ _ Hrange Hempty) as [row Hlow].
  pose proof (ApplyMove_place (GameState.Board g)
                (ChooseMove bot (GameState.Board g)) (Player.Slot p) row
                Hrange Hlow) as Happly.
  eexists row, _, _. split; [exact Hlow | ]. split; [reflexivity | ].
  split; [exact Happly | ].
  unfold playBotTurn. rewrite Hg, Hbot.
  epose proof (HandleMove_accept tLast tEnd
                 (Move.mk "bot" (GameState.ID g)
                          (ChooseMove bot (GameState.Board g)))
                 m g p _ _) as Haccept.
  cbn [Move.GameID Move.Username Move.Column] in Haccept.
  rewrite Hid in Haccept.
  rewrite Hid, (Haccept Hg Hstatus Hp Hturn Happly). reflexivity.
Qed.

(** X19: the opponent's move is accepted.  In an unfinished session
    registered under its id, with an embedded opponent, whose turn is
    the mark of the participant ["bot"], [playBotTurn] plays the column
    [ChooseMove] picks; as long as the grid has a column with an empty
    top cell this move is accepted by the registry and the mark of
    ["bot"] lands in the lowest empty row of that column.  Without an
    embedded opponent nothing happens. *)
Theorem playBotTurn_accepted (tLast tEnd : Z) (id : string) (m : Manager.t) :
  (∀ g bot p,
     Manager.games m !! id = Some g → GameState.ID g = id →
     GameState.Bot g = Some bot →
     GameState.Players g !! "bot" = Some p →
     GameState.Turn g = Player.Slot p →
     GameState.Status g ≠ StatusFinished →
     (∃ c, 0 <= c < Columns ∧ get (GameState.Board g) 0 c = CellEmpty) →
     ∃ m' res g' calls row,
       playBotTurn tLast tEnd id m = (m', Some (res, Some g', None), calls)
       ∧ Manager.games m' !! id = Some g'
       ∧ lowestEmpty (GameState.Board g)
           (ChooseMove bot (GameState.Board g)) row
       ∧ GameState.Board g'
         = set (GameState.Board g) row
               (ChooseMove bot (GameState.Board g)) (Player.Slot p))
  ∧ (∀ g, Manager.games m !! id = Some g → GameState.Bot g = None →
          playBotTurn tLast tEnd id m = (m, None, [])).
Proof.
  split.
  - intros g bot p Hg Hid Hbot Hp Hturn Hstatus Hroom.
    destruct (playBotTurn_moves tLast tEnd id m g bot p Hg Hid Hbot Hp Hturn
                Hstatus Hroom) as (row & b' & res & Hlow & Hb' & _ & Heq).
    rewrite Heq. eexists _, _, _, _, row. split; [reflexivity | ].
    split; [apply lookup_insert_eq | ].
    split; [exact Hlow | ]. rewrite <- Hb'.
    unfold movedSession.
    destruct (negb (MoveResult.Winner _ =? 0)); [reflexivity | ].
    destruct (MoveResult.IsDraw _); [reflexivity | ].
    destruct (GameState.Turn g =? CellP1); reflexivity.
  - intros g Hg Hbot. unfold playBotTurn. rewrite Hg, Hbot. reflexivity.
Qed.

Lemma playBotTurn_accepted_witness :
  ∃ m' res g' calls,
    playBotTurn 2 2 "g3"
      (fst (fst (HandleMove 1 1 (Move.mk "alice" "g3" 3)
                   (fst (StartBotGame "g3" 0 0 "alice"
                           (NewManager 30000000000 true))))))
    = (m', Some (res, Some g', None), calls).
Proof.
  pose (m := fst (fst (HandleMove 1 1 (Move.mk "alice" "g3" 3)
                         (fst (StartBotGame "g3" 0 0 "alice"
                                 (NewManager 30000000000 true)))))).
  destruct (playBotTurn_accepted 2 2 "g3" m) as [Hmove _].
  assert (∃ g, Manager.games m !! "g3" = Some g
               ∧ GameState.ID g = "g3"
               ∧ GameState.Bot g = Some (NewBot CellP2)
               ∧ GameState.Players g !! "bot"
                 = Some (Player.mk "bot" CellP2 true)
               ∧ GameState.Turn g = CellP2
               ∧ GameState.Status g = StatusActive
               ∧ get (GameState.Board g) 0 0 = CellEmpty)
    as (g & Hg & Hid & Hbot & Hp & Hturn & Hstatus & Hroom).
  { eexists. repeat split; vm_compute; reflexivity. }
  destruct (Hmove g (NewBot CellP2) (Player.mk "bot" CellP2 true) Hg Hid Hbot
              Hp Hturn)
    as (m' & res & g' & calls & row & Heq & _).
  - rewrite Hstatus. discriminate.
  - exists 0. split; [unfold Columns; lia | exact Hroom].
  - exists m', res, g', calls. exact Heq.
Defined.

(** X20: the opponent answers every undecided human move.  In an active
    fallback session (human on mark A with the turn, participant
    ["bot"] on mark B, an embedded opponent) to which the human is
    mapped, a move message whose move is accepted and decides nothing
    makes [readPump] let the opponent reply; the reply is accepted by
    the registry, the opponent's mark being dropped into the column
    [ChooseMove] picks on the grid after the human's move.  When the
    reply decides nothing either, the session is active with the turn
    back on mark A.  When the human's move wins or draws there is no
    reply. *)
Theorem readPump_move_reply (tLast tEnd tLast' tEnd' : Z)
    (human gameID : string) (col : Z) (m : Manager.t) (id : string)
    (g : GameState.t) (bot : Bot.t) (ph pb : Player.t) (b1 : Board)
    (res1 : MoveResult.t) :
  Manager.userToGame m !! human = Some id →
  Manager.games m !! id = Some g → GameState.ID g = id →
  GameState.Bot g = Some bot →
  GameState.Players g !! human = Some ph → Player.Slot ph = CellP1 →
  GameState.Players g !! "bot" = Some pb → Player.Slot pb = CellP2 →
  GameState.Status g = StatusActive → GameState.Turn g = CellP1 →
  ApplyMove (GameState.Board g) col CellP1 = (b1, res1, None) →
  (MoveResult.Winner res1 = 0 → MoveResult.IsDraw res1 = false →
   ∃ m2 g1 res2 g2 calls,
     readPump_move tLast tEnd tLast' tEnd' human gameID col m
     = Some (m2, (res1, Some g1, None), Some (res2, Some g2, None), calls)
     ∧ GameState.Board g1 = b1
     ∧ ApplyMove b1 (ChooseMove bot b1) CellP2
       = (GameState.Board g2, res2, None)
     ∧ Manager.games m2 !! id = Some g2
     ∧ (MoveResult.Winner res2 = 0 → MoveResult.IsDraw res2 = false →
        GameState.Status g2 = StatusActive
        ∧ GameState.Turn g2 = CellP1 ∧ calls = []))
  ∧ (MoveResult.Winner res1 ≠ 0 ∨ MoveResult.IsDraw res1 = true →
     ∃ m1 g1 calls,
       readPump_move tLast tEnd tLast' tEnd' human gameID col m
       = Some (m1, (res1, Some g1, None), None, calls)
       ∧ GameState.Status g1 = StatusFinished).
Proof.
  intros Hidx Hg Hid Hbot Hph Hslot Hpb Hslotb Hactive Hturn Happly.
  assert (GameState.Status g ≠ StatusFinished) as Hstatus
    by (rewrite Hactive; discriminate).
  assert (GameState.Turn g = Player.Slot ph) as Hturn' by congruence.
  rewrite <- Hslot in Happly.
  epose proof (HandleMove_accept tLast tEnd (Move.mk human id col) m g ph
                 b1 res1 Hg Hstatus Hph Hturn' Happly) as Hmove.
  cbn [Move.GameID Move.Username Move.Column] in Hmove.
  unfold readPump_move, GameForUser. rewrite Hidx, Hmove.
  cbn [fst snd Move.GameID]. unfold movedSession. split.
  - intros Hwin Hdraw. rewrite Hwin, Hdraw. cbn [Z.eqb negb orb].
    rewrite Hturn. cbn [Z.eqb CellP1 Pos.eqb].
    set (g1 := withTurn (withLastMoveAt (withBoard g b1) tLast) CellP2).
    set (m1 := withGames m (<[id := g1]> (Manager.games m))).
    assert (botIsNext g1 = Some true) as ->.
    { unfold botIsNext, g1. cbn. rewrite Hbot, Hpb, Hslotb.
      rewrite bool_decide_eq_true_2 by exact Hactive. reflexivity. }
    assert (∃ c, 0 <= c < Columns ∧ get (GameState.Board g1) 0 c = CellEmpty)
      as Hroom.
    { apply (ApplyMove_undecided_playable _ _ _ _ _ Happly Hdraw Hwin).
      rewrite Hslot. discriminate. }
    destruct (playBotTurn_moves tLast' tEnd' id m1 g1 bot pb)
      as (row & b2 & res2 & Hlow & Hb2 & Happly2 & Hreply);
      try assumption.
    + apply lookup_insert_eq.
    + unfold g1. cbn. congruence.
    + rewrite Hreply. rewrite Hslotb in Happly2.
      eexists _, g1, res2, _, _. split; [reflexivity | ].
      split; [reflexivity | ].
      split.
      { cbn in Happly2. rewrite Happly2. f_equal. f_equal.
        unfold movedSession.
        destruct (negb (MoveResult.Winner res2 =? 0)); [reflexivity | ].
        destruct (MoveResult.IsDraw res2); [reflexivity | ].
        reflexivity. }
      split; [apply lookup_insert_eq | ].
      intros Hwin2 Hdraw2. unfold movedSession.
      rewrite Hwin2, Hdraw2. cbn. split; [exact Hactive | ].
      split; reflexivity.
  - intros Hdecided.
    destruct (negb (MoveResult.Winner res1 =? 0)) eqn:Hw; cbn [orb].
    + eexists _, _, _. split.
      { unfold botIsNext. cbn. rewrite Hbot. reflexivity. }
      reflexivity.
    + destruct Hdecided as [Hne | Hdraw];
        [apply negb_false_iff, Z.eqb_eq in Hw; contradiction | ].
      rewrite Hdraw. eexists _, _, _. split.
      { unfold botIsNext. cbn. rewrite Hbot. reflexivity. }
      reflexivity.
Qed.

Lemma readPump_move_reply_witness :
  ∃ m2 g1 res2 g2 calls,
    readPump_move 1 1 2 2 "alice" EmptyString 3 fallbackRegistry
    = Some (m2,
            (snd (fst (ApplyMove zeroBoard 3 CellP1)), Some g1, None),
            Some (res2, Some g2, None), calls)
    ∧ GameState.Turn g2 = CellP1.
Proof.
  assert (∃ g, Manager.games fallbackRegistry !! "g3" = Some g
               ∧ GameState.ID g = "g3"
               ∧ GameState.Bot g = Some (NewBot CellP2)
               ∧ GameState.Players g !! "alice"
                 = Some (Player.mk "alice" CellP1 false)
               ∧ GameState.Players g !! "bot"
                 = Some (Player.mk "bot" CellP2 true)
               ∧ GameState.Status g = StatusActive
               ∧ GameState.Turn g = CellP1
               ∧ GameState.Board g = zeroBoard)
    as (g & Hg & Hid & Hbot & Hph & Hpb & Hactive & Hturn & Hboard).
  { eexists. repeat split; vm_compute; reflexivity. }
  destruct (readPump_move_reply 1 1 2 2 "alice" EmptyString 3
              fallbackRegistry "g3" g (NewBot CellP2)
              (Player.mk "alice" CellP1 false)
              (Player.mk "bot" CellP2 true)
              (fst (fst (ApplyMove zeroBoard 3 CellP1)))
              (snd (fst (ApplyMove zeroBoard 3 CellP1)))
              eq_refl Hg Hid Hbot Hph eq_refl Hpb eq_refl Hactive Hturn)
    as [Hreply _].
  { rewrite Hboard. reflexivity. }
  destruct (Hreply eq_refl eq_refl)
    as (m2 & g1 & res2 & g2 & calls & Heq & Hb1 & Happly2 & _ & Hback).
  exists m2, g1, res2, g2, calls. split; [exact Heq | ].
  apply Hback.
  - vm_compute in Happly2. inversion Happly2. reflexivity.
  - vm_compute in Happly2. inversion Happly2. reflexivity.
Defined.

Lemma reachable_settled m id g :
  reachable m → Manager.games m !! id = Some g →
  settled (GameState.Board g).
Proof.
  intros Hreach Hg. destruct (reachable_wf m Hreach) as (Hgames & _).
  destruct (Hgames id g Hg) as (_ & Hplayed & _).
  apply played_settled. exact Hplayed.
Qed.

(** X21: when [HandleMove] accepts.  On a registry built by the exported
    operations a move is accepted exactly when its session is
    registered and not finished, the mover is a participant of it whose
    mark has the turn, the column is a column of the grid and the top
    cell of that column is empty. *)
Theorem HandleMove_accepts_iff (tLast tEnd : Z) (move : Move.t)
    (m : Manager.t) :
  reachable m →
  errorOf (HandleMove tLast tEnd move m) = None
  ↔ ∃ g p,
      Manager.games m !! Move.GameID move = Some g
      ∧ GameState.Status g ≠ StatusFinished
      ∧ GameState.Players g !! Move.Username move = Some p
      ∧ GameState.Turn g = Player.Slot p
      ∧ 0 <= Move.Column move < Columns
      ∧ get (GameState.Board g) 0 (Move.Column move) = CellEmpty.
Proof.
  intros Hreach. split.
  - intros Hok.
    destruct (HandleMove tLast tEnd move m) as [[m' [[res session] err]] calls]
      eqn:Heq.
    unfold errorOf in Hok. cbn [fst snd] in Hok. subst err.
    destruct (HandleMove_accepted_inv _ _ _ _ _ _ _ _ Heq)
      as (g & p & b' & Hg & Hstatus & Hp & Hturn & Happly).
    exists g, p. repeat split; try assumption.
    + destruct (ApplyMove_cases (GameState.Board g) (Move.Column move)
                  (Player.Slot p))
        as [[_ H] | [(Hcol & _) | (Hcol & _)]];
        [rewrite H in Happly; discriminate Happly | lia | lia].
    + destruct (ApplyMove_cases (GameState.Board g) (Move.Column move)
                  (Player.Slot p))
        as [[_ H] | [(Hcol & _) | (Hcol & _)]];
        [rewrite H in Happly; discriminate Happly | lia | lia].
    + destruct (ApplyMove_cases (GameState.Board g) (Move.Column move)
                  (Player.Slot p))
        as [[_ H] | [(Hcol & _ & H) | (Hcol & _)]];
        [rewrite H in Happly; discriminate Happly
        | rewrite H in Happly; discriminate Happly | ].
      destruct (decide (get (GameState.Board g) 0 (Move.Column move)
                        = CellEmpty)) as [Hempty | Hfull];
        [exact Hempty | exfalso].
      rewrite (ApplyMove_full _ _ (Player.Slot p) Hcol
                 (settled_top_columnFull _ _
                    (reachable_settled m _ g Hreach Hg) Hcol Hfull))
        in Happly.
      discriminate Happly.
  - intros (g & p & Hg & Hstatus & Hp & Hturn & Hcol & Hempty).
    destruct (top_empty_lowestEmpty _ _ Hcol Hempty) as [row Hlow].
    rewrite (HandleMove_accept tLast tEnd move m g p _ _ Hg Hstatus Hp Hturn
               (ApplyMove_place _ _ (Player.Slot p) row Hcol Hlow)).
    reflexivity.
Qed.

Lemma HandleMove_accepts_iff_witness :
  errorOf (HandleMove 1 1 (Move.mk "alice" "g1" 3) pairedRegistry) = None.
Proof.
  apply HandleMove_accepts_iff.
  - apply reach_AssignPlayer, reach_AssignPlayer, reach_NewManager.
  - eexists _, _. split; [vm_compute; reflexivity | ].
    split; [vm_compute; discriminate | ].
    split; [vm_compute; reflexivity | ].
    split; [reflexivity | ].
    split; [unfold Columns; cbn; lia | reflexivity].
Defined.

(** X22: the scans of [winningCoords] end.  In each of the four
    directions of [evaluate] the loop of [check] has left the grid, or
    met a cell that does not hold the mark, within eight iterations,
    from any start: every larger number of iterations yields the same
    coordinates. *)
Theorem winningCoords_scan_terminates (board : Board) (player : Z)
    (d : Z * Z) (fuel : nat) (r c : Z) (coords : list (Z * Z)) :
  d ∈ [(1, 0); (0, 1); (1, 1); (1, -1)] → (8 <= fuel)%nat →
  check fuel board player (fst d) (snd d) r c coords
  = check 8 board player (fst d) (snd d) r c coords.
Proof.
  intros Hd Hfuel.
  destruct (inBounds r c) eqn:Hin;
    [ | rewrite !check_out_of_bounds by exact Hin; reflexivity].
  apply (check_enough board player d 8 fuel); [exact Hd | exact Hfuel | ].
  destruct (direction_steps d Hd) as (_ & _ & [-> | [-> _]]); cbn;
    unfold inBounds, Rows, Columns in *; lia.
Qed.

Lemma winningCoords_scan_terminates_witness :
  check 100 threeInARow CellP1 0 1 5 0 []
  = check 8 threeInARow CellP1 0 1 5 0 [].
Proof.
  apply (winningCoords_scan_terminates threeInARow CellP1 (0, 1) 100 5 0 []).
  - right. left.
  - lia.
Defined.

(** ** The fallback timer and the win table *)

Lemma GetGameByUser_None_rejoinGame username m :
  GetGameByUser username m = None → rejoinGame m username = None.
Proof.
  unfold GetGameByUser, rejoinGame.
  destruct (Manager.userToGame m !! username) as [id | ]; [ | reflexivity].
  destruct (Manager.games m !! id); [discriminate | reflexivity].
Qed.

(** X23: when the fallback timer does nothing.  The timer starts a
    fallback session only for an identity that is mapped to no
    registered session; the opponent, on mark B, does not move first.
    An identity mapped to a session, be it finished, gets none: an
    identity that waits again after its session has finished keeps
    waiting when the timer fires. *)
Theorem fallbackTimer_cancelled (gid : string)
    (tStart tLast tLast' tEnd' : Z) (username : string) (m : Manager.t) :
  (∀ id g, Manager.userToGame m !! username = Some id →
           Manager.games m !! id = Some g →
           fallbackTimer gid tStart tLast tLast' tEnd' username m = (m, []))
  ∧ (GetGameByUser username m = None →
     fallbackTimer gid tStart tLast tLast' tEnd' username m
     = (fst (StartBotGame gid tStart tLast username m), [])
     ∧ GameState.Turn (snd (StartBotGame gid tStart tLast username m))
       = CellP1)
  ∧ (∀ id g gid0 t0 t0',
       Manager.userToGame m !! username = Some id →
       Manager.games m !! id = Some g →
       GameState.Status g = StatusFinished →
       Manager.waiting m = None →
       let m1 := fst (AssignPlayer gid0 t0 t0' username m) in
       Manager.waiting m1 = Some (Player.mk username CellP1 false)
       ∧ fallbackTimer gid tStart tLast tLast' tEnd' username m1 = (m1, [])).
Proof.
  split; [ | split].
  - intros id g Hid Hg. unfold fallbackTimer, GetGameByUser.
    rewrite Hid, Hg. reflexivity.
  - intros Hnone. unfold fallbackTimer. rewrite Hnone.
    unfold StartBotGame. rewrite (GetGameByUser_None_rejoinGame _ _ Hnone).
    cbn. split; reflexivity.
  - intros id g gid0 t0 t0' Hid Hg Hfin Hnobody m1.
    assert (m1 = withWaiting m (Some (Player.mk username CellP1 false)))
      as ->.
    { unfold m1, AssignPlayer, rejoinGame.
      rewrite Hid, Hg, (proj2 (isFinished_true g) Hfin), Hnobody.
      reflexivity. }
    split; [reflexivity | ].
    unfold fallbackTimer, GetGameByUser. cbn. rewrite Hid, Hg. reflexivity.
Qed.

Lemma fallbackTimer_cancelled_witness :
  fallbackTimer "g5" 0 0 0 0 "alice"
    (fst (AssignPlayer "g4" 0 0 "alice" forfeitedRegistry))
  = (fst (AssignPlayer "g4" 0 0 "alice" forfeitedRegistry), []).
Proof.
  destruct (fallbackTimer_cancelled "g5" 0 0 0 0 "alice" forfeitedRegistry)
    as (_ & _ & Hagain).
  assert (∃ g, Manager.games forfeitedRegistry !! "g1" = Some g
               ∧ GameState.Status g = StatusFinished) as (g & Hg & Hfin)
    by (eexists; split; vm_compute; reflexivity).
  apply (Hagain "g1" g "g4" 0 0 eq_refl Hg Hfin eq_refl).
Defined.

(** X24: a fallback session that times out counts as a win of the human.
    When the sweep forfeits a session whose participants are one human
    and the algorithmic participant ["bot"], the finish callback
    receives the session with the human as winner, and [Server.onFinish]
    adds one to the human's entry of the win table and leaves the other
    entries alone; a session without a winner, or won by ["bot"], leaves
    the table as it is. *)
Theorem forfeit_credits_human (pick : GameState.t → string) (now : Z)
    (m : Manager.t) (id human : string) (g : GameState.t)
    (ph pb : Player.t) (wins : gmap string Z) :
  (∀ g, findRemainingPlayer_returns g (pick g)) →
  Manager.onFinish m = true →
  Manager.games m !! id = Some g →
  GameState.Status g ≠ StatusFinished →
  time_Sub now (GameState.LastMoveAt g) > Manager.reconnectAfter m →
  GameState.Players g = <["bot" := pb]> {[human := ph]} →
  Player.IsBot ph = false → Player.IsBot pb = true →
  human ≠ "bot" → human ≠ EmptyString →
  (∃ g', callsFor id (snd (SweepDisconnects pick now m)) = [(id, g')]
         ∧ GameState.Winner g' = human
         ∧ Server_onFinish wins g' !! human
           = Some (add64 (default 0 (wins !! human)) 1)
         ∧ ∀ other, other ≠ human →
                    Server_onFinish wins g' !! other = wins !! other)
  ∧ ∀ g0, GameState.Winner g0 = EmptyString ∨ GameState.Winner g0 = "bot" →
          Server_onFinish wins g0 = wins.
Proof.
  intros Hpick Hcb Hg Hstatus Hage Hplayers Hhuman Hbot Hname Hnonempty.
  split.
  - assert (isStale m now g = true) as Hstale.
    { unfold isStale. rewrite (proj2 (isFinished_false g) Hstatus).
      cbn [negb andb]. apply Z.gtb_lt. lia. }
    rewrite callsFor_SweepDisconnects, Hcb, Hg, Hstale.
    eexists. split; [reflexivity | ].
    assert (GameState.Winner (forfeit pick now g) = human) as Hwinner.
    { unfold forfeit. cbn.
      destruct (Hpick (withStatus g StatusFinished))
        as [(p & Hp & Hnotbot) | [Hall _]].
      - cbn in Hp. rewrite Hplayers in Hp.
        apply lookup_insert_Some in Hp.
        destruct Hp as [[_ <-] | [_ Hp]]; [congruence | ].
        apply lookup_singleton_Some in Hp. destruct Hp as [Hkey _].
        symmetry. exact Hkey.
      - exfalso. specialize (Hall human ph). cbn in Hall.
        rewrite Hplayers, lookup_insert_ne, lookup_singleton_eq in Hall
          by congruence.
        specialize (Hall eq_refl). congruence. }
    split; [exact Hwinner | ].
    unfold Server_onFinish. rewrite Hwinner.
    rewrite (bool_decide_eq_false_2 _ Hnonempty).
    rewrite (bool_decide_eq_false_2 _ Hname). cbn [negb andb].
    split; [apply lookup_insert_eq | ].
    intros other Hother. apply lookup_insert_ne. congruence.
  - intros g0 [Hnone | Hbotwin]; unfold Server_onFinish.
    + rewrite (bool_decide_eq_true_2 _ Hnone). reflexivity.
    + rewrite (bool_decide_eq_true_2 _ Hbotwin). cbn [negb].
      rewrite andb_false_r. reflexivity.
Qed.

Lemma forfeit_credits_human_witness :
  ∃ g',
    callsFor "g3"
      (snd (SweepDisconnects findRemainingPlayer 31000000000
              fallbackRegistry)) = [("g3", g')]
    ∧ Server_onFinish ∅ g' !! "alice" = Some 1.
Proof.
  assert (∃ g, Manager.games fallbackRegistry !! "g3" = Some g
               ∧ GameState.Status g = StatusActive
               ∧ GameState.LastMoveAt g = 0
               ∧ GameState.Players g
                 = <["bot" := Player.mk "bot" CellP2 true]>
                     {["alice" := Player.mk "alice" CellP1 false]})
    as (g & Hg & Hactive & Hlast & Hplayers).
  { eexists. repeat split; vm_compute; reflexivity. }
  destruct (forfeit_credits_human findRemainingPlayer 31000000000
              fallbackRegistry "g3" "alice" g
              (Player.mk "alice" CellP1 false) (Player.mk "bot" CellP2 true)
              ∅ findRemainingPlayer_valid eq_refl Hg)
    as [(g' & Hcalls & _ & Hcredit & _) _];
    try reflexivity; try discriminate; try assumption.
  - rewrite Hactive. discriminate.
  - rewrite Hlast. vm_compute. reflexivity.
  - exists g'. split; [exact Hcalls | ]. rewrite Hcredit. reflexivity.
Defined.
